(** * ai-smart-client: request admission, pacing and resilience pipeline

    A shallow embedding of the TypeScript managers that sit in front of the
    upstream completion API:

    - [DelayUtils]        (utils/delay.utils.ts)
    - [ThrottleManager]   (managers/throttle.manager.ts)
    - [RateLimitManager]  (managers/rate-limit.manager.ts)
    - [RetryManager]      (managers/retry.manager.ts)
    - [OpenAIClientService] (openai-client.service.ts), the orchestrator.

    Conventions of the embedding.

    - A JavaScript [number] that holds a clock reading, a count or a token
      amount is a [Z]; a [number] that holds a delay, a jitter factor or a
      [Math.random()] sample is an exact rational [Q] (IEEE rounding is not
      modelled).
    - [Date.now()], [Math.random()] and [setTimeout] belong to the runtime;
      the managers are written against an abstract runtime state [W] with
      the three operations [dateNow], [random] and [sleep].
    - An [async] function is a state transformer [W -> option (A * W)];
      [None] stands for a call that never settles (the polling loop of
      [waitForRateLimit] is run with fuel).  A rejected promise is a value
      [inl e] of the result type, never a failure of the transformer.
    - A JavaScript string is a [string] that holds its text in UTF-8; the
      markers searched for are ASCII, so that a search on the bytes is a
      search on the text.
    - Calls are awaited one after the other, except in the section on
      calls that overlap, where what the other calls in flight do at each
      [await] is a parameter. *)

From Stdlib Require Import ZArith QArith Qminmax Qround Qpower.
From Stdlib Require Import String Ascii List Bool Lia Lqa.
Import ListNotations.

Local Open Scope string_scope.
Local Open Scope Z_scope.

(** ** JavaScript values that reach a [catch] clause *)

(** A property such as [status] is missing, holds a number, or holds
    something that is not a number (the [status] of a connection error of
    the upstream library is [undefined]). *)
Inductive Field : Type :=
  | Absent
  | Num (n : Z)
  | NotNum.

(** [catch (error)] binds a value of type [unknown].  What the managers
    observe of it: whether it is an [Error] instance, its [message] (or
    [String(error)] when it is not an [Error]), whether it is a non-null
    object, and its [status] / [statusCode] properties. *)
Inductive Thrown : Type :=
  | ErrorObject (message : string) (status statusCode : Field)
  | OtherObject (str : string) (status statusCode : Field)
  | Primitive (str : string).

(** The value [undefined] (e.g. [lastError] before any attempt). *)
Definition js_undefined : Thrown := Primitive "undefined".

(** ** String.prototype.includes *)

Fixpoint includes (s sub : string) : bool :=
  if String.prefix sub s then true
  else match s with
       | EmptyString => false
       | String _ rest => includes rest sub
       end.

(** ** constants/error.constants.ts *)

Module HTTP_STATUS.
Definition BAD_REQUEST := 400.
Definition UNAUTHORIZED := 401.
Definition FORBIDDEN := 403.
Definition NOT_FOUND := 404.
Definition TOO_MANY_REQUESTS := 429.
Definition INTERNAL_SERVER_ERROR := 500.
Definition BAD_GATEWAY := 502.
Definition SERVICE_UNAVAILABLE := 503.
Definition GATEWAY_TIMEOUT := 504.
End HTTP_STATUS.

Module ERROR_KEYWORDS.
Definition RATE_LIMIT := "rate limit".
Definition TIMEOUT := "timeout".
Definition TIMED_OUT := "timed out".
Definition NETWORK := "network".
Definition NETWORK_ERROR := "network error".
Definition SCHEMA_MISMATCH := "does not match expected schema".
Definition API := "API".
Definition ECONNREFUSED := "ECONNREFUSED".
Definition ENOTFOUND := "ENOTFOUND".
Definition ETIMEDOUT := "ETIMEDOUT".
Definition ECONNRESET := "ECONNRESET".
End ERROR_KEYWORDS.

Module HTTP_STATUS_STRINGS.
Definition BAD_REQUEST := "400".
Definition UNAUTHORIZED := "401".
Definition FORBIDDEN := "403".
Definition NOT_FOUND := "404".
Definition TOO_MANY_REQUESTS := "429".
Definition INTERNAL_SERVER_ERROR := "500".
Definition BAD_GATEWAY := "502".
Definition SERVICE_UNAVAILABLE := "503".
Definition GATEWAY_TIMEOUT := "504".
End HTTP_STATUS_STRINGS.

Module DEFAULT_ERROR_MESSAGES.
Definition UNKNOWN := "An unknown error occurred".
End DEFAULT_ERROR_MESSAGES.

(** ** RetryManager: reading an error *)

(** [getErrorMessage]: [error.message] for an [Error], [String(error)]
    otherwise. *)
Definition getErrorMessage (error : Thrown) : string :=
  match error with
  | ErrorObject message _ _ => message
  | OtherObject str _ _ => str
  | Primitive str => str
  end.

Definition fieldNumber (f : Field) : option Z :=
  match f with
  | Num n => Some n
  | _ => None
  end.

(** [getErrorCode]: [error.status] when the object has a [status] property,
    else [error.statusCode] when it has that one, else [null].  The result
    is only ever compared with numeric constants by [===], so a property
    that holds no number and [null] are both [None]. *)
Definition getErrorCode (error : Thrown) : option Z :=
  match error with
  | ErrorObject _ status statusCode
  | OtherObject _ status statusCode =>
      match status with
      | Absent =>
          match statusCode with
          | Absent => None
          | f => fieldNumber f
          end
      | f => fieldNumber f
      end
  | Primitive _ => None
  end.

(** [errorCode === n] *)
Definition codeIs (code : option Z) (n : Z) : bool :=
  match code with
  | Some c => c =? n
  | None => false
  end.

Definition isRetriableError (error : Thrown) : bool :=
  let errorMessage := getErrorMessage error in
  let errorCode := getErrorCode error in
  if codeIs errorCode HTTP_STATUS.TOO_MANY_REQUESTS
     || includes errorMessage ERROR_KEYWORDS.RATE_LIMIT
     || includes errorMessage HTTP_STATUS_STRINGS.TOO_MANY_REQUESTS
  then true
  else if includes errorMessage ERROR_KEYWORDS.TIMEOUT
          || includes errorMessage ERROR_KEYWORDS.TIMED_OUT
  then true
  else if codeIs errorCode HTTP_STATUS.INTERNAL_SERVER_ERROR
          || codeIs errorCode HTTP_STATUS.BAD_GATEWAY
          || codeIs errorCode HTTP_STATUS.SERVICE_UNAVAILABLE
          || codeIs errorCode HTTP_STATUS.GATEWAY_TIMEOUT
  then true
  else if includes errorMessage HTTP_STATUS_STRINGS.INTERNAL_SERVER_ERROR
          || includes errorMessage HTTP_STATUS_STRINGS.BAD_GATEWAY
          || includes errorMessage HTTP_STATUS_STRINGS.SERVICE_UNAVAILABLE
          || includes errorMessage HTTP_STATUS_STRINGS.GATEWAY_TIMEOUT
  then true
  else if includes errorMessage ERROR_KEYWORDS.ECONNREFUSED
          || includes errorMessage ERROR_KEYWORDS.ENOTFOUND
          || includes errorMessage ERROR_KEYWORDS.ETIMEDOUT
          || includes errorMessage ERROR_KEYWORDS.ECONNRESET
          || includes errorMessage ERROR_KEYWORDS.NETWORK_ERROR
  then true
  else false.

(** ** Asynchronous computations over a runtime state *)

Definition Async (W A : Type) : Type := W -> option (A * W).

Definition ret {W A} (a : A) : Async W A := fun w => Some (a, w).

Definition bind {W A B} (c : Async W A) (k : A -> Async W B) : Async W B :=
  fun w =>
    match c w with
    | Some (a, w') => k a w'
    | None => None
    end.

Declare Scope async_scope.
Delimit Scope async_scope with async.
Notation "x <- c ;; k" := (bind c (fun x => k))
  (at level 61, c at next level, right associativity) : async_scope.
Notation "c ;;; k" := (bind c (fun _ => k))
  (at level 61, right associativity) : async_scope.
Local Open Scope async_scope.

(** ** The managers, over an abstract runtime *)

(** managers/throttle.manager.ts: fields of a [ThrottleManager]. *)
Record ThrottleManager : Type := mkThrottleManager {
  requestDelay : option Q;
  useJitter : bool;
  jitterFactor : Q;
  lastRequestTime : Z
}.

Definition DEFAULT_JITTER_FACTOR : Q := 3 # 10.

(** [new ThrottleManager(requestDelay?, useJitter = true, jitterFactor = 0.3)] *)
Definition newThrottleManager (requestDelay : option Q)
    (useJitter : option bool) (jitterFactor : option Q) : ThrottleManager :=
  {| requestDelay := requestDelay;
     useJitter := match useJitter with Some b => b | None => true end;
     jitterFactor := match jitterFactor with
                     | Some f => f
                     | None => DEFAULT_JITTER_FACTOR
                     end;
     lastRequestTime := 0 |}.

(** managers/rate-limit.manager.ts: fields of a [RateLimitManager]. *)
Record TokenEvent : Type := mkTokenEvent {
  timestamp : Z;
  tokens : Z
}.

Record RateLimitManager : Type := mkRateLimitManager {
  requestsPerMinute : option Z;
  tokensPerMinute : option Z;
  requestTimestamps : list Z;
  tokenTimestamps : list TokenEvent
}.

Definition RATE_LIMIT_WINDOW_MS : Z := 60000.
Definition THROTTLE_CHECK_INTERVAL_MS : Q := 1000.

(** [new RateLimitManager(requestsPerMinute?, tokensPerMinute?)] *)
Definition newRateLimitManager (requestsPerMinute tokensPerMinute : option Z)
    : RateLimitManager :=
  {| requestsPerMinute := requestsPerMinute;
     tokensPerMinute := tokensPerMinute;
     requestTimestamps := [];
     tokenTimestamps := [] |}.

(** managers/retry.manager.ts: fields of a [RetryManager]. *)
Record RetryManager : Type := mkRetryManager {
  enabled : bool;
  maxAttempts : Z;
  baseDelay : Q;
  maxDelay : Q
}.

(** Truthiness of an optional number: [undefined] and [0] are falsy. *)
Definition truthy (n : option Q) : bool :=
  match n with
  | Some q => negb (Qeq_bool q 0)
  | None => false
  end.

Definition Qltb (a b : Q) : bool := negb (Qle_bool b a).

Section Runtime.

(** The runtime state and the three services the managers use. *)
Variable W : Type.
Variable dateNow : W -> Z.            (* Date.now() *)
Variable random : W -> Q * W.         (* Math.random() *)
Variable sleep : Q -> W -> W.         (* await new Promise(r => setTimeout(r, ms)) *)

Definition getNow : Async W Z := fun w => Some (dateNow w, w).
Definition mathRandom : Async W Q := fun w => Some (random w).
Definition doSleep (ms : Q) : Async W unit := fun w => Some (tt, sleep ms w).

(** *** utils/delay.utils.ts *)

Definition calculateDelayWithJitter (baseDelay : Q) (useJitter : bool)
    (jitterFactor : Q) : Async W Q :=
  if negb useJitter then ret baseDelay
  else
    let jitterAmount := (baseDelay * jitterFactor)%Q in
    r <- mathRandom ;;
    let randomJitter := ((r * 2 - 1) * jitterAmount)%Q in
    ret (Qmax 0 (baseDelay + randomJitter)).

Definition calculateExponentialBackoff (attempt : Z) (baseDelay maxDelay : Q)
    (useJitter : bool) (jitterFactor : Q) : Async W Q :=
  let exponentialDelay := (baseDelay * Qpower 2 attempt)%Q in
  let cappedDelay := Qmin exponentialDelay maxDelay in
  if negb useJitter then ret cappedDelay
  else
    r <- mathRandom ;;
    let jitter := (r * jitterFactor * cappedDelay)%Q in
    ret (inject_Z (Qfloor (cappedDelay + jitter))).

(** *** ThrottleManager *)

(** The private [calculateDelay] of the throttle. *)
Definition throttleCalculateDelay (t : ThrottleManager) (baseDelay : Q)
    : Async W Q :=
  if negb (useJitter t) then ret baseDelay
  else
    let jitterAmount := (baseDelay * jitterFactor t)%Q in
    r <- mathRandom ;;
    let randomJitter := ((r * 2 - 1) * jitterAmount)%Q in
    ret (Qmax 0 (baseDelay + randomJitter)).

(** [throttle()]; the result is the manager after the call. *)
Definition throttle (t : ThrottleManager) : Async W ThrottleManager :=
  if negb (truthy (requestDelay t)) then ret t
  else
    let delay := match requestDelay t with Some d => d | None => 0%Q end in
    now <- getNow ;;
    let timeSinceLastRequest := now - lastRequestTime t in
    (if Qltb (inject_Z timeSinceLastRequest) delay
     then
       let remainingDelay := (delay - inject_Z timeSinceLastRequest)%Q in
       actualDelay <- throttleCalculateDelay t remainingDelay ;;
       doSleep actualDelay
     else ret tt) ;;;
    now' <- getNow ;;
    ret {| requestDelay := requestDelay t;
           useJitter := useJitter t;
           jitterFactor := jitterFactor t;
           lastRequestTime := now' |}.

(** *** RateLimitManager *)

Definition isRequestRateLimitExceeded (m : RateLimitManager) : bool :=
  match requestsPerMinute m with
  | None => false
  | Some limit => Z.of_nat (length (requestTimestamps m)) >=? limit
  end.

Definition isTokenRateLimitExceeded (m : RateLimitManager)
    (estimatedTokens : Z) : bool :=
  match tokensPerMinute m with
  | None => false
  | Some limit =>
      if estimatedTokens =? 0 then false
      else
        let tokensUsedInLastMinute :=
          fold_left (fun sum t => sum + tokens t) (tokenTimestamps m) 0 in
        tokensUsedInLastMinute + estimatedTokens >? limit
  end.

(** [canMakeRequest(estimatedTokens)]: the answer and the pruned manager. *)
Definition canMakeRequest (estimatedTokens : Z) (m : RateLimitManager)
    : Async W (bool * RateLimitManager) :=
  now <- getNow ;;
  let oneMinuteAgo := now - RATE_LIMIT_WINDOW_MS in
  let m' :=
    {| requestsPerMinute := requestsPerMinute m;
       tokensPerMinute := tokensPerMinute m;
       requestTimestamps :=
         filter (fun ts => ts >? oneMinuteAgo) (requestTimestamps m);
       tokenTimestamps :=
         filter (fun t => timestamp t >? oneMinuteAgo) (tokenTimestamps m) |} in
  if isRequestRateLimitExceeded m' then ret (false, m')
  else if isTokenRateLimitExceeded m' estimatedTokens then ret (false, m')
  else ret (true, m').

(** [recordRequest(tokensUsed = 0)]: an argument that is [undefined]
    takes the default. *)
Definition recordRequest (tokensUsed : option Z) (m : RateLimitManager)
    : Async W RateLimitManager :=
  let tokensUsed := match tokensUsed with Some n => n | None => 0 end in
  now <- getNow ;;
  ret {| requestsPerMinute := requestsPerMinute m;
         tokensPerMinute := tokensPerMinute m;
         requestTimestamps := requestTimestamps m ++ [now];
         tokenTimestamps :=
           if tokensUsed >? 0
           then tokenTimestamps m
                  ++ [{| timestamp := now; tokens := tokensUsed |}]
           else tokenTimestamps m |}.

(** [waitForRateLimit(estimatedTokens)]: [fuel] bounds the number of
    polls; running out of it is a wait that has not ended yet. *)
Fixpoint waitForRateLimit (fuel : nat) (estimatedTokens : Z)
    (m : RateLimitManager) : Async W RateLimitManager :=
  match fuel with
  | O => fun _ => None
  | S fuel' =>
      r <- canMakeRequest estimatedTokens m ;;
      if fst r then ret (snd r)
      else doSleep THROTTLE_CHECK_INTERVAL_MS ;;;
           waitForRateLimit fuel' estimatedTokens (snd r)
  end.

(** *** RetryManager *)

(** The private [calculateDelay(attempt)] of the retry engine. *)
Definition retryCalculateDelay (rm : RetryManager) (attempt : Z)
    : Async W Q :=
  let exponentialDelay := (baseDelay rm * Qpower 2 attempt)%Q in
  let cappedDelay := Qmin exponentialDelay (maxDelay rm) in
  r <- mathRandom ;;
  let jitter := (r * (25 # 100) * cappedDelay)%Q in
  ret (inject_Z (Qfloor (cappedDelay + jitter))).

Section ExecuteWithRetry.
Context {T : Type}.
Variable rm : RetryManager.
Variable fn : Async W (Thrown + T).
Variable onError : Thrown -> T.

(** The [for] loop of [executeWithRetry], entered with the loop
    variable [attempt] and the current [lastError]; [iterations]
    bounds the iterations still to run. *)
Fixpoint retryLoop (iterations : nat) (attempt : Z) (lastError : Thrown)
    : Async W T :=
  match iterations with
  | O => ret (onError lastError)
  | S iterations' =>
      if attempt <? maxAttempts rm then
        r <- fn ;;
        match r with
        | inr value => ret value
        | inl error =>
            if negb (isRetriableError error) then ret (onError error)
            else
              (if attempt <? maxAttempts rm - 1
               then delay <- retryCalculateDelay rm attempt ;;
                    doSleep delay
               else ret tt) ;;;
              retryLoop iterations' (attempt + 1) error
        end
      else ret (onError lastError)
  end.

Definition executeWithRetry : Async W T :=
  if negb (enabled rm) then
    r <- fn ;;
    match r with
    | inr value => ret value
    | inl error => ret (onError error)
    end
  else retryLoop (Z.to_nat (maxAttempts rm)) 0 js_undefined.

End ExecuteWithRetry.

End Runtime.

Arguments getNow {W} dateNow.
Arguments mathRandom {W} random.
Arguments doSleep {W} sleep ms.
Arguments calculateDelayWithJitter {W} random.
Arguments calculateExponentialBackoff {W} random.
Arguments throttleCalculateDelay {W} random.
Arguments throttle {W} dateNow random sleep.
Arguments canMakeRequest {W} dateNow.
Arguments recordRequest {W} dateNow.
Arguments waitForRateLimit {W} dateNow sleep.
Arguments retryCalculateDelay {W} random.
Arguments retryLoop {W} random sleep {T}.
Arguments executeWithRetry {W} random sleep {T}.

(** ** validators/config.validator.ts (the settings of the pipeline)

    A validator either throws an [Error] (the left summand carries its
    message) or returns the validated settings. *)

Module ValidatedThrottleSettings.
Record t : Type := mk {
  requestDelay : option Q;
  useJitter : bool;
  jitterFactor : Q
}.
End ValidatedThrottleSettings.

Module ValidatedRateLimits.
Record t : Type := mk {
  requestsPerMinute : option Z;
  tokensPerMinute : option Z
}.
End ValidatedRateLimits.

Module ValidatedRetrySettings.
Record t : Type := mk {
  enabled : bool;
  maxAttempts : Z;
  baseDelay : Q;
  maxDelay : Q
}.
End ValidatedRetrySettings.

Module ConfigValidator.

Definition MIN_REQUESTS_PER_MINUTE : Z := 1.
Definition MIN_TOKENS_PER_MINUTE : Z := 1.
Definition MIN_REQUEST_DELAY_MS : Q := 0.
Definition DEFAULT_USE_JITTER : bool := true.
Definition DEFAULT_JITTER_FACTOR : Q := 3 # 10.
Definition MIN_JITTER_FACTOR : Q := 0.
Definition MAX_JITTER_FACTOR : Q := 1.
Definition DEFAULT_ENABLE_RETRY : bool := true.
Definition DEFAULT_MAX_RETRY_ATTEMPTS : Z := 3.
Definition DEFAULT_BASE_RETRY_DELAY_MS : Q := 1000.
Definition DEFAULT_MAX_RETRY_DELAY_MS : Q := 60000.
Definition MIN_RETRY_ATTEMPTS : Z := 1.
Definition MAX_RETRY_ATTEMPTS : Z := 10.
Definition MIN_BASE_RETRY_DELAY_MS : Q := 100.
Definition MAX_BASE_RETRY_DELAY_MS : Q := 10000.

(** [a ?? b] *)
Definition orDefault {A} (a : option A) (b : A) : A :=
  match a with Some x => x | None => b end.

(** [validateRateLimits(rateLimit?)]; the argument is the optional object
    with its two optional properties. *)
Definition validateRateLimits (rateLimit : option (option Z * option Z))
    : string + ValidatedRateLimits.t :=
  match rateLimit with
  | None => inr (ValidatedRateLimits.mk None None)
  | Some (rpm, tpm) =>
      let requests :=
        match rpm with
        | Some n =>
            if n <? MIN_REQUESTS_PER_MINUTE
            then inl "requestsPerMinute must be at least 1"
            else inr (Some n)
        | None => inr None
        end in
      match requests with
      | inl msg => inl msg
      | inr validatedRequests =>
          match tpm with
          | Some k =>
              if k <? MIN_TOKENS_PER_MINUTE
              then inl "tokensPerMinute must be at least 1"
              else inr (ValidatedRateLimits.mk validatedRequests (Some k))
          | None => inr (ValidatedRateLimits.mk validatedRequests None)
          end
      end
  end.

Definition validateThrottleSettings (requestDelay : option Q)
    (useJitter : option bool) (jitterFactor : option Q)
    : string + ValidatedThrottleSettings.t :=
  let checked :=
    match requestDelay with
    | Some d =>
        if Qltb d MIN_REQUEST_DELAY_MS
        then inl "requestDelay must be non-negative (at least 0ms)"
        else inr (Some d)
    | None => inr None
    end in
  match checked with
  | inl msg => inl msg
  | inr validatedRequestDelay =>
      let validatedUseJitter := orDefault useJitter DEFAULT_USE_JITTER in
      let validatedJitterFactor := orDefault jitterFactor DEFAULT_JITTER_FACTOR in
      if Qltb validatedJitterFactor MIN_JITTER_FACTOR
         || Qltb MAX_JITTER_FACTOR validatedJitterFactor
      then inl "jitterFactor must be between 0 and 1"
      else inr (ValidatedThrottleSettings.mk validatedRequestDelay
                  validatedUseJitter validatedJitterFactor)
  end.

Definition validateRetrySettings (enableRetry : option bool)
    (maxRetryAttempts : option Z) (baseRetryDelay maxRetryDelay : option Q)
    : string + ValidatedRetrySettings.t :=
  let enabled := orDefault enableRetry DEFAULT_ENABLE_RETRY in
  let maxAttempts := orDefault maxRetryAttempts DEFAULT_MAX_RETRY_ATTEMPTS in
  let baseDelay := orDefault baseRetryDelay DEFAULT_BASE_RETRY_DELAY_MS in
  let maxDelay := orDefault maxRetryDelay DEFAULT_MAX_RETRY_DELAY_MS in
  if (maxAttempts <? MIN_RETRY_ATTEMPTS) || (maxAttempts >? MAX_RETRY_ATTEMPTS)
  then inl "maxRetryAttempts must be between 1 and 10"
  else if Qltb baseDelay MIN_BASE_RETRY_DELAY_MS
          || Qltb MAX_BASE_RETRY_DELAY_MS baseDelay
  then inl "baseRetryDelay must be between 100ms and 10000ms"
  else if Qltb maxDelay baseDelay
  then inl "maxRetryDelay must be greater than or equal to baseRetryDelay"
  else inr (ValidatedRetrySettings.mk enabled maxAttempts baseDelay maxDelay).

End ConfigValidator.

(** The managers as the constructor of the service builds them from the
    validated settings. *)
Definition rateLimitManagerOf (v : ValidatedRateLimits.t) : RateLimitManager :=
  newRateLimitManager (ValidatedRateLimits.requestsPerMinute v)
                      (ValidatedRateLimits.tokensPerMinute v).

Definition throttleManagerOf (v : ValidatedThrottleSettings.t) : ThrottleManager :=
  newThrottleManager (ValidatedThrottleSettings.requestDelay v)
                     (Some (ValidatedThrottleSettings.useJitter v))
                     (Some (ValidatedThrottleSettings.jitterFactor v)).

Definition retryManagerOf (v : ValidatedRetrySettings.t) : RetryManager :=
  {| enabled := ValidatedRetrySettings.enabled v;
     maxAttempts := ValidatedRetrySettings.maxAttempts v;
     baseDelay := ValidatedRetrySettings.baseDelay v;
     maxDelay := ValidatedRetrySettings.maxDelay v |}.

(** *** The validators on every value of type [number]

    [ConfigValidator] above takes its numbers as the managers compute with
    them, in [Z] and [Q].  The type [number] of the source has three more
    values, [NaN] and the two infinities, and a count need not be whole.
    The three validators are given here once more on every [number], with
    the comparison of JavaScript, which is [false] as soon as one operand
    is [NaN]. *)
Inductive number : Type :=
  | Finite (q : Q)
  | NaN
  | PosInfinity
  | NegInfinity.

(** [a < b]; [a > b] is [numberLt b a]. *)
Definition numberLt (a b : number) : bool :=
  match a with
  | NaN => false
  | PosInfinity => false
  | NegInfinity =>
      match b with
      | Finite _ => true
      | PosInfinity => true
      | NaN => false
      | NegInfinity => false
      end
  | Finite x =>
      match b with
      | Finite y => Qltb x y
      | PosInfinity => true
      | NaN => false
      | NegInfinity => false
      end
  end.

Module AnyNumber.

Record RateLimits : Type := mkRateLimits {
  requestsPerMinute : option number;
  tokensPerMinute : option number
}.

Record ThrottleSettings : Type := mkThrottleSettings {
  requestDelay : option number;
  useJitter : bool;
  jitterFactor : number
}.

Record RetrySettings : Type := mkRetrySettings {
  enabled : bool;
  maxAttempts : number;
  baseDelay : number;
  maxDelay : number
}.

Definition MIN_REQUESTS_PER_MINUTE : number := Finite 1.
Definition MIN_TOKENS_PER_MINUTE : number := Finite 1.
Definition MIN_REQUEST_DELAY_MS : number := Finite 0.
Definition DEFAULT_USE_JITTER : bool := true.
Definition DEFAULT_JITTER_FACTOR : number := Finite (3 # 10).
Definition MIN_JITTER_FACTOR : number := Finite 0.
Definition MAX_JITTER_FACTOR : number := Finite 1.
Definition DEFAULT_ENABLE_RETRY : bool := true.
Definition DEFAULT_MAX_RETRY_ATTEMPTS : number := Finite 3.
Definition DEFAULT_BASE_RETRY_DELAY_MS : number := Finite 1000.
Definition DEFAULT_MAX_RETRY_DELAY_MS : number := Finite 60000.
Definition MIN_RETRY_ATTEMPTS : number := Finite 1.
Definition MAX_RETRY_ATTEMPTS : number := Finite 10.
Definition MIN_BASE_RETRY_DELAY_MS : number := Finite 100.
Definition MAX_BASE_RETRY_DELAY_MS : number := Finite 10000.

Definition validateRateLimits (rateLimit : option (option number * option number))
    : string + RateLimits :=
  match rateLimit with
  | None => inr (mkRateLimits None None)
  | Some (rpm, tpm) =>
      let requests :=
        match rpm with
        | Some n =>
            if numberLt n MIN_REQUESTS_PER_MINUTE
            then inl "requestsPerMinute must be at least 1"
            else inr (Some n)
        | None => inr None
        end in
      match requests with
      | inl msg => inl msg
      | inr validatedRequests =>
          match tpm with
          | Some k =>
              if numberLt k MIN_TOKENS_PER_MINUTE
              then inl "tokensPerMinute must be at least 1"
              else inr (mkRateLimits validatedRequests (Some k))
          | None => inr (mkRateLimits validatedRequests None)
          end
      end
  end.

Definition validateThrottleSettings (requestDelay : option number)
    (useJitter : option bool) (jitterFactor : option number)
    : string + ThrottleSettings :=
  let checked :=
    match requestDelay with
    | Some d =>
        if numberLt d MIN_REQUEST_DELAY_MS
        then inl "requestDelay must be non-negative (at least 0ms)"
        else inr (Some d)
    | None => inr None
    end in
  match checked with
  | inl msg => inl msg
  | inr validatedRequestDelay =>
      let validatedUseJitter :=
        ConfigValidator.orDefault useJitter DEFAULT_USE_JITTER in
      let validatedJitterFactor :=
        ConfigValidator.orDefault jitterFactor DEFAULT_JITTER_FACTOR in
      if numberLt validatedJitterFactor MIN_JITTER_FACTOR
         || numberLt MAX_JITTER_FACTOR validatedJitterFactor
      then inl "jitterFactor must be between 0 and 1"
      else inr (mkThrottleSettings validatedRequestDelay
                  validatedUseJitter validatedJitterFactor)
  end.

Definition validateRetrySettings (enableRetry : option bool)
    (maxRetryAttempts baseRetryDelay maxRetryDelay : option number)
    : string + RetrySettings :=
  let enabled := ConfigValidator.orDefault enableRetry DEFAULT_ENABLE_RETRY in
  let maxAttempts :=
    ConfigValidator.orDefault maxRetryAttempts DEFAULT_MAX_RETRY_ATTEMPTS in
  let baseDelay :=
    ConfigValidator.orDefault baseRetryDelay DEFAULT_BASE_RETRY_DELAY_MS in
  let maxDelay :=
    ConfigValidator.orDefault maxRetryDelay DEFAULT_MAX_RETRY_DELAY_MS in
  if numberLt maxAttempts MIN_RETRY_ATTEMPTS
     || numberLt MAX_RETRY_ATTEMPTS maxAttempts
  then inl "maxRetryAttempts must be between 1 and 10"
  else if numberLt baseDelay MIN_BASE_RETRY_DELAY_MS
          || numberLt MAX_BASE_RETRY_DELAY_MS baseDelay
  then inl "baseRetryDelay must be between 100ms and 10000ms"
  else if numberLt maxDelay baseDelay
  then inl "maxRetryDelay must be greater than or equal to baseRetryDelay"
  else inr (mkRetrySettings enabled maxAttempts baseDelay maxDelay).

(** The settings of [ConfigValidator] as values of type [number]. *)
Definition ofRateLimits (v : ValidatedRateLimits.t) : RateLimits :=
  mkRateLimits
    (option_map (fun n => Finite (inject_Z n))
       (ValidatedRateLimits.requestsPerMinute v))
    (option_map (fun n => Finite (inject_Z n))
       (ValidatedRateLimits.tokensPerMinute v)).

Definition ofThrottleSettings (v : ValidatedThrottleSettings.t)
    : ThrottleSettings :=
  mkThrottleSettings
    (option_map Finite (ValidatedThrottleSettings.requestDelay v))
    (ValidatedThrottleSettings.useJitter v)
    (Finite (ValidatedThrottleSettings.jitterFactor v)).

Definition ofRetrySettings (v : ValidatedRetrySettings.t) : RetrySettings :=
  mkRetrySettings
    (ValidatedRetrySettings.enabled v)
    (Finite (inject_Z (ValidatedRetrySettings.maxAttempts v)))
    (Finite (ValidatedRetrySettings.baseDelay v))
    (Finite (ValidatedRetrySettings.maxDelay v)).

(** The outcome of a validator of [ConfigValidator], as an outcome here. *)
Definition ofOutcome {A B} (f : A -> B) (r : string + A) : string + B :=
  match r with
  | inl msg => inl msg
  | inr v => inr (f v)
  end.

End AnyNumber.

(** ** types/prompt.types.ts *)

Inductive PromptResponseStatus : Type :=
  | SUCCESS
  | VALIDATION_ERROR
  | API_ERROR
  | RATE_LIMIT_ERROR
  | TIMEOUT_ERROR
  | NETWORK_ERROR
  | UNKNOWN_ERROR.

(** What [JSON.parse] followed by [outputSchema.parse] does with a raw
    content string: it yields the validated value, throws a [ZodError]
    (whose issues are rendered as [path: message, ...]), or throws
    something else (a syntax error of [JSON.parse], for one). *)
Inductive SchemaOutcome : Type :=
  | Validated (value : string)
  | ZodError (issues : string)
  | OtherFailure.

Definition Schema : Type := string -> SchemaOutcome.

Module PromptInput.
Record t : Type := mk {
  input : string;               (* the input, stringified *)
  model : option string;
  systemMessage : option string;
  maxTokens : option Z;
  outputSchema : option Schema;
  messages : list (option string)  (* history: [content] when it is a string *)
}.
End PromptInput.

Record Usage : Type := mkUsage {
  promptTokens : Z;
  completionTokens : Z;
  totalTokens : Z
}.

(** The fields of a response that the pipeline fills in ([toolCalls],
    [cost] and [raw] are copied or looked up and play no part in it). *)
Module PromptResponse.
Record t : Type := mk {
  status : PromptResponseStatus;
  error : option string;
  content : string;
  structuredOutput : option string;
  usage : option Usage;
  model : string;
  finishReason : option string;
  input : PromptInput.t
}.
End PromptResponse.

(** ** The upstream API, as the service observes it *)

(** A chat completion: [usage], [choices[0]?.message?.content],
    [model], [choices[0]?.finish_reason]. *)
Record ChatCompletion : Type := mkChatCompletion {
  completionUsage : option Usage;
  messageContent : option string;
  completionModel : string;
  finish_reason : option string
}.

(** A chunk of a streamed completion: [choices[0]?.delta?.content],
    [choices[0]?.finish_reason], [model]. *)
Record Chunk : Type := mkChunk {
  deltaContent : option string;
  chunkFinishReason : option string;
  chunkModel : string
}.

(** A streamed call delivers some chunks and then either ends or fails
    (a failure of [create] itself is a failure before the first chunk). *)
Record StreamScript : Type := mkStreamScript {
  delivered : list Chunk;
  failure : option Thrown
}.

(** ** The world of one client

    The runtime (clock, random samples, timers), the upstream API (the
    outcome and the latency in ms of its n-th call, for every n) and the
    two stateful managers that the service owns.  [sleeps] and [chunks] are
    logs, most recent first: the durations handed to [setTimeout] and the
    fragments handed to [onChunk]. *)
Record World : Type := mkWorld {
  clock : Z;
  samples : nat -> Q;
  drawn : nat;
  completions : nat -> N * (Thrown + ChatCompletion);
  streams : nat -> N * StreamScript;
  requests : nat;
  sleeps : list Q;
  chunks : list string;
  rateLimitManager : RateLimitManager;
  throttleManager : ThrottleManager
}.

Definition worldNow (w : World) : Z := clock w.

Definition worldRandom (w : World) : Q * World :=
  (samples w (drawn w),
   mkWorld (clock w) (samples w) (S (drawn w)) (completions w) (streams w)
           (requests w) (sleeps w) (chunks w)
           (rateLimitManager w) (throttleManager w)).

(** A timer of [ms] milliseconds fires exactly [ceil(ms)] later (not at all
    later when [ms <= 0]); nothing else takes time but the upstream calls. *)
Definition worldSleep (ms : Q) (w : World) : World :=
  mkWorld (clock w + Z.max 0 (Qceiling ms)) (samples w) (drawn w)
          (completions w) (streams w) (requests w) (ms :: sleeps w) (chunks w)
          (rateLimitManager w) (throttleManager w).

Definition setRateLimitManager (m : RateLimitManager) (w : World) : World :=
  mkWorld (clock w) (samples w) (drawn w) (completions w) (streams w)
          (requests w) (sleeps w) (chunks w) m (throttleManager w).

Definition setThrottleManager (t : ThrottleManager) (w : World) : World :=
  mkWorld (clock w) (samples w) (drawn w) (completions w) (streams w)
          (requests w) (sleeps w) (chunks w) (rateLimitManager w) t.

(** [await this.client.chat.completions.create(requestParams)], together
    with the assembly of [requestParams] before it: a rejection of the
    script stands for whatever is thrown between admission and response. *)
Definition completionsCreate : Async World (Thrown + ChatCompletion) :=
  fun w =>
    let (latency, outcome) := completions w (requests w) in
    Some (outcome,
          mkWorld (clock w + Z.of_N latency) (samples w) (drawn w)
                  (completions w) (streams w) (S (requests w)) (sleeps w)
                  (chunks w) (rateLimitManager w) (throttleManager w)).

(** The streaming [create]: the script of the call. *)
Definition completionsCreateStream : Async World StreamScript :=
  fun w =>
    let (latency, script) := streams w (requests w) in
    Some (script,
          mkWorld (clock w + Z.of_N latency) (samples w) (drawn w)
                  (completions w) (streams w) (S (requests w)) (sleeps w)
                  (chunks w) (rateLimitManager w) (throttleManager w)).

(** [onChunk(delta)] *)
Definition onChunk (delta : string) : Async World unit :=
  fun w =>
    Some (tt,
          mkWorld (clock w) (samples w) (drawn w) (completions w) (streams w)
                  (requests w) (sleeps w) (delta :: chunks w)
                  (rateLimitManager w) (throttleManager w)).

(** A method of a manager, run on the manager that the world holds. *)
Definition onThrottleManager
    (method : ThrottleManager -> Async World ThrottleManager)
    : Async World unit :=
  fun w =>
    match method (throttleManager w) w with
    | Some (t, w') => Some (tt, setThrottleManager t w')
    | None => None
    end.

Definition onRateLimitManager
    (method : RateLimitManager -> Async World RateLimitManager)
    : Async World unit :=
  fun w =>
    match method (rateLimitManager w) w with
    | Some (m, w') => Some (tt, setRateLimitManager m w')
    | None => None
    end.

(** ** parsers/output.parser.ts *)

Definition isEmpty (s : string) : bool :=
  match s with EmptyString => true | _ => false end.

(** [parseAndValidateOutput(rawContent, outputSchema)]: the pair
    [{content, structuredOutput}], or the [Error] it throws. *)
Definition parseAndValidateOutput (rawContent : string)
    (outputSchema : option Schema) : Thrown + (string * option string) :=
  match outputSchema with
  | None => inr (rawContent, None)
  | Some schema =>
      if isEmpty rawContent then inr (rawContent, None)
      else
        match schema rawContent with
        | Validated validated => inr (validated, Some validated)
        | ZodError issues =>
            inl (ErrorObject
                   ("OpenAI response does not match expected schema: " ++ issues)
                   Absent Absent)
        | OtherFailure => inr (rawContent, None)
        end
  end.

(** ** openai-client.service.ts *)

(** The configuration that the service keeps after construction; its two
    stateful managers live in the [World]. *)
Module OpenAIClientService.
Record t : Type := mk {
  defaultModel : string;
  systemMessage : option string;
  maxTokens : option Z;
  retryManager : RetryManager
}.
End OpenAIClientService.

Definition CHARS_PER_TOKEN : Z := 4.
Definition DEFAULT_ESTIMATED_MAX_TOKENS : Z := 1000.

(** [s.length]: the number of UTF-16 code units of the text.  A [string]
    holds the text in UTF-8: a byte [10xxxxxx] continues a character, a
    character of four bytes (lead byte [11110xxx]) takes two code units
    and every other character takes one. *)
Definition codeUnits (c : ascii) : Z :=
  let b := Z.of_N (N_of_ascii c) in
  if (128 <=? b) && (b <? 192) then 0
  else if 240 <=? b then 2
  else 1.

Fixpoint strlen (s : string) : Z :=
  match s with
  | EmptyString => 0
  | String c rest => codeUnits c + strlen rest
  end.

Definition estimateTokens (this : OpenAIClientService.t) (input : PromptInput.t)
    : Z :=
  let systemMessage :=
    match PromptInput.systemMessage input with
    | Some s => Some s
    | None => OpenAIClientService.systemMessage this
    end in
  let totalChars0 :=
    match systemMessage with
    | Some s => if isEmpty s then 0 else strlen s
    | None => 0
    end in
  let totalChars1 := totalChars0 + strlen (PromptInput.input input) in
  let totalChars :=
    fold_left
      (fun total message =>
         match message with
         | Some content => total + strlen content
         | None => total
         end)
      (PromptInput.messages input) totalChars1 in
  let maxTokens :=
    match PromptInput.maxTokens input with
    | Some n => n
    | None =>
        match OpenAIClientService.maxTokens this with
        | Some n => n
        | None => DEFAULT_ESTIMATED_MAX_TOKENS
        end
    end in
  Qceiling (inject_Z totalChars / inject_Z CHARS_PER_TOKEN) + maxTokens.

(** [buildPromptResponse]; the [model] argument only serves the cost
    lookup, which is left out with the [cost] field. *)
Definition buildPromptResponse (response : ChatCompletion) (content : string)
    (structuredOutput : option string) (input : PromptInput.t)
    : PromptResponse.t :=
  {| PromptResponse.status := SUCCESS;
     PromptResponse.error := None;
     PromptResponse.content := content;
     PromptResponse.structuredOutput := structuredOutput;
     PromptResponse.usage := completionUsage response;
     PromptResponse.model := completionModel response;
     PromptResponse.finishReason := finish_reason response;
     PromptResponse.input := input |}.

(** The status that [buildErrorResponse] derives from the message of an
    [Error]. *)
Definition statusOfMessage (errorMessage : string) : PromptResponseStatus :=
  if includes errorMessage ERROR_KEYWORDS.SCHEMA_MISMATCH then VALIDATION_ERROR
  else if includes errorMessage ERROR_KEYWORDS.RATE_LIMIT
          || includes errorMessage HTTP_STATUS_STRINGS.TOO_MANY_REQUESTS
  then RATE_LIMIT_ERROR
  else if includes errorMessage ERROR_KEYWORDS.TIMEOUT
          || includes errorMessage ERROR_KEYWORDS.TIMED_OUT
  then TIMEOUT_ERROR
  else if includes errorMessage ERROR_KEYWORDS.NETWORK
          || includes errorMessage ERROR_KEYWORDS.ECONNREFUSED
          || includes errorMessage ERROR_KEYWORDS.ENOTFOUND
  then NETWORK_ERROR
  else if includes errorMessage ERROR_KEYWORDS.API
          || includes errorMessage HTTP_STATUS_STRINGS.BAD_REQUEST
          || includes errorMessage HTTP_STATUS_STRINGS.UNAUTHORIZED
          || includes errorMessage HTTP_STATUS_STRINGS.FORBIDDEN
          || includes errorMessage HTTP_STATUS_STRINGS.INTERNAL_SERVER_ERROR
  then API_ERROR
  else UNKNOWN_ERROR.

Definition buildErrorResponse (error : Thrown) (input : PromptInput.t)
    : PromptResponse.t :=
  let '(status, errorMessage) :=
    match error with
    | ErrorObject message _ _ => (statusOfMessage message, message)
    | _ => (UNKNOWN_ERROR, DEFAULT_ERROR_MESSAGES.UNKNOWN)
    end in
  {| PromptResponse.status := status;
     PromptResponse.error := Some errorMessage;
     PromptResponse.content := EmptyString;
     PromptResponse.structuredOutput := None;
     PromptResponse.usage := None;
     PromptResponse.model := EmptyString;
     PromptResponse.finishReason := None;
     PromptResponse.input := input |}.

(** The three accumulators of [processStream]. *)
Record StreamResult : Type := mkStreamResult {
  fullContent : string;
  finishReason : option string;
  modelUsed : string
}.

Definition nonEmpty (s : option string) : option string :=
  match s with
  | Some x => if isEmpty x then None else Some x
  | None => None
  end.

(** The body of the [for await] loop, over the chunks that arrive. *)
Fixpoint processChunks (cs : list Chunk) (acc : StreamResult)
    : Async World StreamResult :=
  match cs with
  | [] => ret acc
  | chunk :: rest =>
      acc1 <- match nonEmpty (deltaContent chunk) with
              | Some delta =>
                  onChunk delta ;;;
                  ret (mkStreamResult (fullContent acc ++ delta)
                         (finishReason acc) (modelUsed acc))
              | None => ret acc
              end ;;
      let acc2 :=
        match nonEmpty (chunkFinishReason chunk) with
        | Some reason =>
            mkStreamResult (fullContent acc1) (Some reason) (modelUsed acc1)
        | None => acc1
        end in
      let acc3 :=
        if isEmpty (chunkModel chunk) then acc2
        else mkStreamResult (fullContent acc2) (finishReason acc2)
               (chunkModel chunk) in
      processChunks rest acc3
  end.

(** [create] in streaming mode followed by [processStream]. *)
Definition streamCompletion : Async World (Thrown + StreamResult) :=
  script <- completionsCreateStream ;;
  result <- processChunks (delivered script) (mkStreamResult EmptyString None EmptyString) ;;
  match failure script with
  | Some error => ret (inl error)
  | None => ret (inr result)
  end.

Section Service.

Variable this : OpenAIClientService.t.

(** [fuel] bounds the polls of each rate-limit wait. *)
Variable fuel : nat.

Definition executeWithRateLimiting {T} (fn : Async World T)
    (estimatedTokens : Z) : Async World T :=
  onThrottleManager (throttle worldNow worldRandom worldSleep) ;;;
  onRateLimitManager (waitForRateLimit worldNow worldSleep fuel estimatedTokens) ;;;
  onRateLimitManager (recordRequest worldNow (Some estimatedTokens)) ;;;
  fn.

(** The function that [prompt] hands to [executeWithRateLimiting]. *)
Definition promptCall (input : PromptInput.t)
    : Async World (Thrown + PromptResponse.t) :=
  outcome <- completionsCreate ;;
  match outcome with
  | inl error => ret (inl error)
  | inr response =>
      onRateLimitManager
        (recordRequest worldNow
           (option_map totalTokens (completionUsage response))) ;;;
      match parseAndValidateOutput
              (match nonEmpty (messageContent response) with
               | Some c => c
               | None => EmptyString
               end)
              (PromptInput.outputSchema input) with
      | inl error => ret (inl error)
      | inr (content, structuredOutput) =>
          ret (inr (buildPromptResponse response content structuredOutput input))
      end
  end.

(** The attempt function that [prompt] hands to [executeWithRetry]. *)
Definition promptAttempt (input : PromptInput.t)
    : Async World (Thrown + PromptResponse.t) :=
  r <- executeWithRateLimiting (promptCall input) (estimateTokens this input) ;;
  match r with
  | inr response => ret (inr response)
  | inl error =>
      if isRetriableError error then ret (inl error)
      else ret (inr (buildErrorResponse error input))
  end.

Definition prompt (input : PromptInput.t) : Async World PromptResponse.t :=
  executeWithRetry worldRandom worldSleep
    (OpenAIClientService.retryManager this)
    (promptAttempt input)
    (fun error => buildErrorResponse error input).

Definition promptStreamCall (input : PromptInput.t)
    : Async World (Thrown + PromptResponse.t) :=
  outcome <- streamCompletion ;;
  match outcome with
  | inl error => ret (inl error)
  | inr result =>
      onRateLimitManager
        (recordRequest worldNow (Some (estimateTokens this input))) ;;;
      match parseAndValidateOutput (fullContent result)
              (PromptInput.outputSchema input) with
      | inl error => ret (inl error)
      | inr (content, structuredOutput) =>
          ret (inr {| PromptResponse.status := SUCCESS;
                      PromptResponse.error := None;
                      PromptResponse.content := content;
                      PromptResponse.structuredOutput := structuredOutput;
                      PromptResponse.usage := None;
                      PromptResponse.model := modelUsed result;
                      PromptResponse.finishReason := finishReason result;
                      PromptResponse.input := input |})
      end
  end.

Definition promptStreamAttempt (input : PromptInput.t)
    : Async World (Thrown + PromptResponse.t) :=
  r <- executeWithRateLimiting (promptStreamCall input)
         (estimateTokens this input) ;;
  match r with
  | inr response => ret (inr response)
  | inl error =>
      if isRetriableError error then ret (inl error)
      else ret (inr (buildErrorResponse error input))
  end.

Definition promptStream (input : PromptInput.t)
    : Async World PromptResponse.t :=
  executeWithRetry worldRandom worldSleep
    (OpenAIClientService.retryManager this)
    (promptStreamAttempt input)
    (fun error => buildErrorResponse error input).

End Service.

(** ** Definitions used to state the properties *)

(** [occursIn m s]: the marker [m] is a substring of [s]. *)
Definition occursIn (m s : string) : Prop :=
  exists pre post, s = pre ++ m ++ post.

(** *** The retriable kinds, read off the thrown value itself

    The kinds of the specification are stated on the fields of the value
    that was thrown, not through the helpers of [RetryManager]. *)

(** The value reports the status [n]: it is an object whose [status]
    property holds the number [n], or that has no [status] property and
    whose [statusCode] property holds [n]. *)
Definition reportsStatus (e : Thrown) (n : Z) : Prop :=
  match e with
  | ErrorObject _ status statusCode
  | OtherObject _ status statusCode =>
      status = Num n \/ (status = Absent /\ statusCode = Num n)
  | Primitive _ => False
  end.

(** The marker [m] occurs in the text of the value: the [message] of an
    [Error], the string conversion of anything else. *)
Definition mentions (m : string) (e : Thrown) : Prop :=
  match e with
  | ErrorObject message _ _ => occursIn m message
  | OtherObject str _ _ => occursIn m str
  | Primitive str => occursIn m str
  end.

Definition rateLimitRejection (e : Thrown) : Prop :=
  reportsStatus e 429 \/ mentions "rate limit" e \/ mentions "429" e.

Definition timeoutFailure (e : Thrown) : Prop :=
  mentions "timeout" e \/ mentions "timed out" e.

Definition upstream5xx (e : Thrown) : Prop :=
  (exists c, In c [500; 502; 503; 504] /\ reportsStatus e c)
  \/ (exists m, In m ["500"; "502"; "503"; "504"] /\ mentions m e).

Definition networkFailure (e : Thrown) : Prop :=
  exists m, In m ["ECONNREFUSED"; "ENOTFOUND"; "ETIMEDOUT"; "ECONNRESET";
                  "network error"]
            /\ mentions m e.

Definition retriableKind (e : Thrown) : Prop :=
  rateLimitRejection e \/ timeoutFailure e \/ upstream5xx e \/ networkFailure e.

(** *** Counting the invocations of an attempt function

    The attempt function is run on the runtime state paired with a log to
    which every invocation appends its outcome; the runtime services act on
    the first component. *)
Section Logged.

Variables W T : Type.
Variable random : W -> Q * W.
Variable sleep : Q -> W -> W.

Definition Logged : Type := (W * list (Thrown + T))%type.

Definition loggedRandom (s : Logged) : Q * Logged :=
  let (r, w') := random (fst s) in (r, (w', snd s)).

Definition loggedSleep (ms : Q) (s : Logged) : Logged :=
  (sleep ms (fst s), snd s).

Definition logged (fn : Async W (Thrown + T)) : Async Logged (Thrown + T) :=
  fun s =>
    match fn (fst s) with
    | Some (r, w') => Some (r, (w', (snd s ++ [r])%list))
    | None => None
    end.

(** Dropping the log from the outcome of a logged run. *)
Definition eraseLog (r : option (T * Logged)) : option (T * W) :=
  match r with
  | Some (v, s) => Some (v, fst s)
  | None => None
  end.

End Logged.

Arguments loggedRandom {W T} random s.
Arguments loggedSleep {W T} sleep ms s.
Arguments logged {W T} fn s.
Arguments eraseLog {W T} r.

(** *** Repeated admission checks, one per runtime state *)
Fixpoint repeatedChecks {W} (dateNow : W -> Z) (estimatedTokens : Z)
    (m : RateLimitManager) (ws : list W) : list bool :=
  match ws with
  | [] => []
  | w :: rest =>
      match canMakeRequest dateNow estimatedTokens m w with
      | Some ((answer, m'), _) =>
          answer :: repeatedChecks dateNow estimatedTokens m' rest
      | None => []
      end
  end.

(** [inWindow now ts]: the entry survives the pruning done at [now]. *)
Definition inWindow (now ts : Z) : Prop := ts > now - RATE_LIMIT_WINDOW_MS.

(** The manager that [canMakeRequest] leaves behind when it runs at [now]. *)
Definition prunedAt (now : Z) (m : RateLimitManager) : RateLimitManager :=
  {| requestsPerMinute := requestsPerMinute m;
     tokensPerMinute := tokensPerMinute m;
     requestTimestamps :=
       filter (fun ts => ts >? now - RATE_LIMIT_WINDOW_MS) (requestTimestamps m);
     tokenTimestamps :=
       filter (fun t => timestamp t >? now - RATE_LIMIT_WINDOW_MS)
         (tokenTimestamps m) |}.

(** The manager that [recordRequest(tokensUsed)] leaves behind when it runs
    at [now]. *)
Definition recordedAt (now : Z) (tokensUsed : option Z) (m : RateLimitManager)
    : RateLimitManager :=
  {| requestsPerMinute := requestsPerMinute m;
     tokensPerMinute := tokensPerMinute m;
     requestTimestamps := requestTimestamps m ++ [now];
     tokenTimestamps :=
       if (match tokensUsed with Some n => n | None => 0 end) >? 0
       then tokenTimestamps m
              ++ [{| timestamp := now;
                     tokens := match tokensUsed with Some n => n | None => 0 end |}]
       else tokenTimestamps m |}.

(** A step of the pipeline that does not talk to the upstream API: the
    scripts and the count of upstream calls stay, the clock does not go
    back. *)
Definition localStep (w w' : World) : Prop :=
  completions w' = completions w
  /\ streams w' = streams w
  /\ requests w' = requests w
  /\ clock w <= clock w'.

(** The message that an error response carries for a caught value. *)
Definition errorText (e : Thrown) : string :=
  match e with
  | ErrorObject message _ _ => message
  | _ => DEFAULT_ERROR_MESSAGES.UNKNOWN
  end.

(** *** The rejection of one attempt, read off the upstream outcome *)

(** What the [for await] loop accumulates, without the calls of [onChunk]. *)
Fixpoint collectChunks (cs : list Chunk) (acc : StreamResult) : StreamResult :=
  match cs with
  | [] => acc
  | chunk :: rest =>
      let acc1 :=
        match nonEmpty (deltaContent chunk) with
        | Some delta =>
            mkStreamResult (fullContent acc ++ delta) (finishReason acc)
              (modelUsed acc)
        | None => acc
        end in
      let acc2 :=
        match nonEmpty (chunkFinishReason chunk) with
        | Some reason =>
            mkStreamResult (fullContent acc1) (Some reason) (modelUsed acc1)
        | None => acc1
        end in
      let acc3 :=
        if isEmpty (chunkModel chunk) then acc2
        else mkStreamResult (fullContent acc2) (finishReason acc2)
               (chunkModel chunk) in
      collectChunks rest acc3
  end.

(** The error with which the function handed to [executeWithRateLimiting]
    by [prompt] rejects, for a given outcome of [create]: the error of
    [create], or the schema mismatch of its response. *)
Definition promptFailure (input : PromptInput.t)
    (outcome : Thrown + ChatCompletion) : option Thrown :=
  match outcome with
  | inl error => Some error
  | inr response =>
      match parseAndValidateOutput
              (match nonEmpty (messageContent response) with
               | Some c => c
               | None => EmptyString
               end)
              (PromptInput.outputSchema input) with
      | inl error => Some error
      | inr _ => None
      end
  end.

(** The same for [promptStream] and the script of a streamed call. *)
Definition promptStreamFailure (input : PromptInput.t)
    (script : StreamScript) : option Thrown :=
  match failure script with
  | Some error => Some error
  | None =>
      match parseAndValidateOutput
              (fullContent
                 (collectChunks (delivered script) (mkStreamResult EmptyString None EmptyString)))
              (PromptInput.outputSchema input) with
      | inl error => Some error
      | inr _ => None
      end
  end.

(** The [try]/[catch] that [prompt] and [promptStream] put around
    [executeWithRateLimiting]: a retriable error is thrown again, any other
    becomes an error response. *)
Definition guarded (input : PromptInput.t)
    (c : Async World (Thrown + PromptResponse.t))
    : Async World (Thrown + PromptResponse.t) :=
  r <- c ;;
  match r with
  | inr response => ret (inr response)
  | inl error =>
      if isRetriableError error then ret (inl error)
      else ret (inr (buildErrorResponse error input))
  end.

(** *** Conditions under which a rate-limit wait comes to an end *)

(** No recorded entry is later than [now]. *)
Definition inPast (now : Z) (m : RateLimitManager) : Prop :=
  Forall (fun ts => ts <= now) (requestTimestamps m)
  /\ Forall (fun t => timestamp t <= now) (tokenTimestamps m).

(** No recorded entry lies in the future of the clock. *)
Definition stampsInPast (w : World) : Prop :=
  inPast (clock w) (rateLimitManager w).

(** An empty window admits a request of the estimated size: the request
    limit, when set, is at least 1 (as validation demands) and the token
    limit, when set, is not below the estimate. *)
Definition emptyWindowAdmits (estimatedTokens : Z) (m : RateLimitManager)
    : Prop :=
  match requestsPerMinute m with
  | Some limit => 1 <= limit
  | None => True
  end
  /\ match tokensPerMinute m with
     | Some limit => estimatedTokens <= limit \/ estimatedTokens = 0
     | None => True
     end.

Definition settled (estimatedTokens : Z) (w : World) : Prop :=
  stampsInPast w /\ emptyWindowAdmits estimatedTokens (rateLimitManager w).

(** *** Scenario A of the specification: [requestsPerMinute = 2] *)

Module ScenarioA.

Definition completion : ChatCompletion :=
  mkChatCompletion (Some (mkUsage 12 30 42)) (Some "Hello!") "gpt-4o"
    (Some "stop").

Definition service : OpenAIClientService.t :=
  OpenAIClientService.mk "gpt-4o" None None (mkRetryManager true 3 1000 60000).

Definition input : PromptInput.t :=
  PromptInput.mk "Say hello" None None None None [].

(** A client with [rateLimit: { requestsPerMinute: 2 }] and nothing else
    configured, at clock 1 000 000; every upstream call answers after
    200 ms. *)
Definition world : World :=
  mkWorld 1000000 (fun _ => 1 # 2) 0
    (fun _ => (200%N, inr completion))
    (fun _ => (0%N, mkStreamScript [] None))
    0 [] []
    (newRateLimitManager (Some 2) None)
    (newThrottleManager None (Some true) (Some (3 # 10))).

(** Two calls of [prompt], the second awaited after the first. *)
Definition twoCalls (fuel : nat)
    : option ((PromptResponse.t * World) * (PromptResponse.t * World)) :=
  match prompt service fuel input world with
  | Some (r1, w1) =>
      match prompt service fuel input w1 with
      | Some (r2, w2) => Some ((r1, w1), (r2, w2))
      | None => None
      end
  | None => None
  end.

(** The response and the world that the first call leaves behind. *)
Definition firstResponse : PromptResponse.t :=
  match prompt service 61 input world with
  | Some (resp, _) => resp
  | None => buildErrorResponse js_undefined input
  end.

Definition afterFirst : World :=
  match prompt service 61 input world with
  | Some (_, w) => w
  | None => world
  end.

End ScenarioA.

(** *** A call that succeeds at its second attempt *)

Module RetriedCall.

(** No limits configured; the first upstream call is rejected with a 503
    after 50 ms, the following ones answer after 200 ms. *)
Definition world : World :=
  mkWorld 1000000 (fun _ => 1 # 2) 0
    (fun n =>
       match n with
       | O => (50%N, inl (ErrorObject "503 Service Unavailable" (Num 503) Absent))
       | _ => (200%N, inr ScenarioA.completion)
       end)
    (fun _ => (0%N, mkStreamScript [] None))
    0 [] []
    (newRateLimitManager None None)
    (newThrottleManager None (Some true) (Some (3 # 10))).

End RetriedCall.

(** *** An upstream that rejects every call *)

Module Unauthorized.

Definition rejection : Thrown :=
  ErrorObject "401 Incorrect API key provided" (Num 401) Absent.

(** Limits of 60 requests and 90 000 tokens per minute; every call,
    streamed or not, is rejected with a 401 after 80 ms. *)
Definition world : World :=
  mkWorld 1000000 (fun _ => 1 # 2) 0
    (fun _ => (80%N, inl rejection))
    (fun _ => (80%N, mkStreamScript [] (Some rejection)))
    0 [] []
    (newRateLimitManager (Some 60) (Some 90000))
    (newThrottleManager (Some 1000%Q) (Some true) (Some (3 # 10))).

End Unauthorized.

(** *** Further definitions used to state properties *)

From Stdlib Require Import Sorted.

(** The sum that [isTokenRateLimitExceeded] computes with [reduce]. *)
Definition tokenSum (events : list TokenEvent) : Z :=
  fold_left (fun sum t => sum + tokens t) events 0.

(** The fragments of a stream that reach [onChunk]: the non-empty
    [delta.content] of its chunks, in arrival order. *)
Definition fragments (cs : list Chunk) : list string :=
  flat_map (fun chunk =>
              match nonEmpty (deltaContent chunk) with
              | Some delta => [delta]
              | None => []
              end) cs.

(** The response budget that [estimateTokens] adds to the count of the
    text: [input.maxTokens ?? this.maxTokens ?? 1000]. *)
Definition responseBudget (this : OpenAIClientService.t)
    (input : PromptInput.t) : Z :=
  match PromptInput.maxTokens input, OpenAIClientService.maxTokens this with
  | Some n, _ => n
  | None, Some n => n
  | None, None => DEFAULT_ESTIMATED_MAX_TOKENS
  end.

(** *** Tracing the invocations and the pauses of the retry engine

    As with [logged], the runtime state is paired with a trace; here the
    attempt function appends [Invoked outcome] and the timer appends
    [Slept ms]. *)
Section Traced.

Variables W T : Type.
Variable random : W -> Q * W.
Variable sleep : Q -> W -> W.

Inductive Event : Type :=
  | Invoked (outcome : Thrown + T)
  | Slept (ms : Q).

Definition Traced : Type := (W * list Event)%type.

Definition tracedRandom (s : Traced) : Q * Traced :=
  let (r, w') := random (fst s) in (r, (w', snd s)).

Definition tracedSleep (ms : Q) (s : Traced) : Traced :=
  (sleep ms (fst s), (snd s ++ [Slept ms])%list).

Definition traced (fn : Async W (Thrown + T)) : Async Traced (Thrown + T) :=
  fun s =>
    match fn (fst s) with
    | Some (r, w') => Some (r, (w', (snd s ++ [Invoked r])%list))
    | None => None
    end.

(** The trace of a run in which the attempts of [failures] each threw and
    were followed by a pause, and [final] is the outcome of the last
    attempt, if any attempt was made after them. *)
Definition retryTrace (failures : list (Thrown * Q))
    (final : option (Thrown + T)) : list Event :=
  (flat_map (fun f => [Invoked (inl (fst f)); Slept (snd f)]) failures
   ++ match final with
      | Some outcome => [Invoked outcome]
      | None => []
      end)%list.

End Traced.

Arguments Invoked {T} outcome.
Arguments Slept {T} ms.
Arguments tracedRandom {W T} random s.
Arguments tracedSleep {W T} sleep ms s.
Arguments traced {W T} fn s.
Arguments retryTrace {T} failures final.

(** The number of attempts that the retry loop makes when the rejection
    of the attempt that consumes entry [n] of the upstream script is
    [failureOf n]: it goes on to entry [n + 1] after a retriable error and
    stops at the first attempt that returns or throws any other error, or
    when [iterations] attempts are made. *)
Fixpoint attemptsMade (failureOf : nat -> option Thrown) (start : nat)
    (iterations : nat) : nat :=
  match iterations with
  | O => O
  | S iterations' =>
      match failureOf start with
      | Some e =>
          if isRetriableError e
          then S (attemptsMade failureOf (S start) iterations')
          else 1%nat
      | None => 1%nat
      end
  end.

(** The number of upstream calls of a request, read off the upstream
    script: one when retry is disabled, else as many as the retry loop
    makes. *)
Definition callsMade (rm : RetryManager) (failureOf : nat -> option Thrown)
    (first : nat) : nat :=
  if enabled rm
  then attemptsMade failureOf first (Z.to_nat (maxAttempts rm))
  else 1%nat.

(** The response belongs to the last of [made] upstream calls, the first
    of which consumed entry [first] of the script: it is the error
    response of the failure of that call, a successful response when
    that call did not fail, and the error response of [undefined] when
    no call was made at all. *)
Definition answersLastCall (failureOf : nat -> option Thrown)
    (input : PromptInput.t) (first made : nat) (resp : PromptResponse.t)
    : Prop :=
  match made with
  | O => resp = buildErrorResponse js_undefined input
  | S k =>
      match failureOf (first + k)%nat with
      | Some e => resp = buildErrorResponse e input
      | None => PromptResponse.status resp = SUCCESS
      end
  end.

(** A step that neither talks to the upstream API nor hands a fragment to
    [onChunk]. *)
Definition silentStep (w w' : World) : Prop :=
  localStep w w' /\ chunks w' = chunks w.

(** *** A stream that breaks off and is retried *)

Module InterruptedStream.

(** No limits configured; the first stream delivers one fragment and then
    fails with a 503, the following ones deliver two fragments and end. *)
Definition world : World :=
  mkWorld 1000000 (fun _ => 1 # 2) 0
    (fun _ => (200%N, inr ScenarioA.completion))
    (fun n =>
       match n with
       | O =>
           (50%N,
            mkStreamScript [mkChunk (Some "Hel") None "gpt-4o"]
              (Some (ErrorObject "503 Service Unavailable" (Num 503) Absent)))
       | _ =>
           (50%N,
            mkStreamScript
              [mkChunk (Some "Hel") None "gpt-4o";
               mkChunk None None "gpt-4o";
               mkChunk (Some "lo!") (Some "stop") "gpt-4o"]
              None)
       end)
    0 [] []
    (newRateLimitManager None None)
    (newThrottleManager None (Some true) (Some (3 # 10))).

(** The world that [promptStream] leaves behind. *)
Definition afterCall : World :=
  match promptStream ScenarioA.service 61 ScenarioA.input world with
  | Some (_, w) => w
  | None => world
  end.

End InterruptedStream.

(** *** Calls that overlap

    The two managers are objects that all the calls of one client share,
    and a call gives up control wherever the source says [await].  In
    this section [others p] is what the other calls in flight do to the
    world while this call is suspended at the await point [p]; the
    rate-limit wait reads the shared window again at every poll.  With
    [others] doing nothing these are [waitForRateLimit] and
    [executeWithRateLimiting] as defined above. *)
Inductive AwaitPoint : Type :=
  | ThrottleTimer      (* [await this.sleep(actualDelay)] in [throttle] *)
  | ThrottleReturned   (* [await this.throttleManager.throttle()] *)
  | PollTimer          (* [await this.sleep(1000)] in [waitForRateLimit] *)
  | WaitReturned.      (* [await this.rateLimitManager.waitForRateLimit(...)] *)

Section Among.

Variable others : AwaitPoint -> World -> World.

(** A timer, and what the other calls do until it has fired. *)
Definition sleepAmong (p : AwaitPoint) (ms : Q) (w : World) : World :=
  others p (worldSleep ms w).

(** The [await] of a call that has returned. *)
Definition resume (p : AwaitPoint) : Async World unit :=
  fun w => Some (tt, others p w).

(** [this.canMakeRequest(estimatedTokens)], on the shared manager. *)
Definition canMakeRequestShared (estimatedTokens : Z) : Async World bool :=
  fun w =>
    match canMakeRequest worldNow estimatedTokens (rateLimitManager w) w with
    | Some ((answer, m'), w') => Some (answer, setRateLimitManager m' w')
    | None => None
    end.

Fixpoint waitForRateLimitAmong (fuel : nat) (estimatedTokens : Z)
    : Async World unit :=
  match fuel with
  | O => fun _ => None
  | S fuel' =>
      answer <- canMakeRequestShared estimatedTokens ;;
      if answer then ret tt
      else doSleep (sleepAmong PollTimer) THROTTLE_CHECK_INTERVAL_MS ;;;
           waitForRateLimitAmong fuel' estimatedTokens
  end.

Definition executeWithRateLimitingAmong {T} (fuel : nat) (fn : Async World T)
    (estimatedTokens : Z) : Async World T :=
  onThrottleManager (throttle worldNow worldRandom (sleepAmong ThrottleTimer)) ;;;
  resume ThrottleReturned ;;;
  waitForRateLimitAmong fuel estimatedTokens ;;;
  resume WaitReturned ;;;
  onRateLimitManager (recordRequest worldNow (Some estimatedTokens)) ;;;
  fn.

End Among.

(** The other calls leave the rate-limit manager alone (none of them
    checks or records on it meanwhile), and the clock does not run
    backwards. *)
Definition keepsWindow (others : AwaitPoint -> World -> World) : Prop :=
  forall p w,
    rateLimitManager (others p w) = rateLimitManager w
    /\ clock w <= clock (others p w).

(** No other call in flight. *)
Definition nobodyElse (p : AwaitPoint) (w : World) : World := w.

(** Other work that takes 250 ms at every await point and does not touch
    the managers. *)
Definition unrelatedWork (p : AwaitPoint) (w : World) : World :=
  worldSleep 250 w.

(** Another call, admitted by a check of its own, records its request
    while this call is suspended between its admitting check and its own
    [recordRequest]. *)
Definition otherCallRecords (estimatedTokens : Z) (p : AwaitPoint) (w : World)
    : World :=
  match p with
  | WaitReturned =>
      setRateLimitManager
        (recordedAt (clock w) (Some estimatedTokens) (rateLimitManager w)) w
  | _ => w
  end.

(** * Properties *)

(** ** Substring search *)

Lemma prefix_spec (sub s : string) :
  String.prefix sub s = true <-> exists post, s = sub ++ post.
Proof.
  revert sub. induction s as [|b s IH]; intros [|a sub]; simpl.
  - split; [intros _; now exists EmptyString | reflexivity].
  - split; [discriminate | intros [post H]; discriminate].
  - split; [intros _; now exists (String b s) | reflexivity].
  - destruct (Ascii.ascii_dec a b) as [->|ne].
    + rewrite IH. split; intros [post H]; exists post.
      * now rewrite H.
      * now inversion H.
    + split; [discriminate | intros [post H]; inversion H; congruence].
Qed.

Lemma includes_unfold (s sub : string) :
  includes s sub =
  if String.prefix sub s then true
  else match s with
       | EmptyString => false
       | String _ rest => includes rest sub
       end.
Proof. destruct s; reflexivity. Qed.

Lemma includes_spec (s sub : string) :
  includes s sub = true <-> occursIn sub s.
Proof.
  unfold occursIn. induction s as [|a s IH]; rewrite includes_unfold.
  - destruct (String.prefix sub EmptyString) eqn:P.
    + split; [intros _ | reflexivity].
      apply prefix_spec in P. destruct P as [post P].
      now exists EmptyString, post.
    + split; [discriminate |].
      intros (pre & post & H). destruct pre; simpl in H.
      * assert (String.prefix sub EmptyString = true) by (apply prefix_spec; eauto).
        congruence.
      * discriminate.
  - destruct (String.prefix sub (String a s)) eqn:P.
    + split; [intros _ | reflexivity].
      apply prefix_spec in P. destruct P as [post P].
      now exists EmptyString, post.
    + rewrite IH. split.
      * intros (pre & post & H). exists (String a pre), post. simpl. now rewrite H.
      * intros (pre & post & H). destruct pre as [|b pre]; simpl in H.
        -- assert (String.prefix sub (String a s) = true)
             by (apply prefix_spec; eauto).
           congruence.
        -- inversion H. eauto.
Qed.

Lemma codeIs_spec (code : option Z) (n : Z) :
  codeIs code n = true <-> code = Some n.
Proof.
  destruct code as [c|]; simpl.
  - rewrite Z.eqb_eq. split; congruence.
  - split; discriminate.
Qed.

(** ** RetryManager.isRetriableError *)

Lemma if_true_orb (b c : bool) : (if b then true else c) = b || c.
Proof. now destruct b. Qed.

Lemma getErrorCode_spec (e : Thrown) (n : Z) :
  getErrorCode e = Some n <-> reportsStatus e n.
Proof.
  destruct e as [message status statusCode | str status statusCode | str];
    cbn [getErrorCode reportsStatus];
    try (split; [discriminate | contradiction]);
    destruct status as [| c |]; try destruct statusCode as [| d |];
    cbn [fieldNumber];
    (split;
     [ intros H; try discriminate H; inversion H; subst; auto
     | intros [H | [H1 H2]]; try discriminate; congruence ]).
Qed.

Lemma getErrorMessage_spec (e : Thrown) (m : string) :
  includes (getErrorMessage e) m = true <-> mentions m e.
Proof. rewrite includes_spec. destruct e; reflexivity. Qed.

(** C4. [isRetriableError] answers [true] exactly for the four retriable
    kinds: a rate-limit rejection (status 429, or the marker "rate limit"
    or "429" in the message), a timeout ("timeout", "timed out"), an
    upstream 5xx (status or message marker 500, 502, 503, 504) and a
    network failure (ECONNREFUSED, ENOTFOUND, ETIMEDOUT, ECONNRESET,
    "network error"); every other error is terminal.  The status of an
    error is the number in its [status] property, or in its [statusCode]
    property when it has no [status]; its message is [error.message], or
    the string conversion of a value that is not an [Error]. *)
Theorem isRetriableError_exactly_retriable_kinds (e : Thrown) :
  isRetriableError e = true <-> retriableKind e.
Proof.
  unfold isRetriableError, retriableKind, rateLimitRejection, timeoutFailure,
    upstream5xx, networkFailure.
  rewrite !if_true_orb, !orb_true_iff, !getErrorMessage_spec, !codeIs_spec,
    !getErrorCode_spec.
  unfold HTTP_STATUS.TOO_MANY_REQUESTS, HTTP_STATUS.INTERNAL_SERVER_ERROR,
    HTTP_STATUS.BAD_GATEWAY, HTTP_STATUS.SERVICE_UNAVAILABLE,
    HTTP_STATUS.GATEWAY_TIMEOUT, ERROR_KEYWORDS.RATE_LIMIT,
    ERROR_KEYWORDS.TIMEOUT, ERROR_KEYWORDS.TIMED_OUT,
    ERROR_KEYWORDS.ECONNREFUSED, ERROR_KEYWORDS.ENOTFOUND,
    ERROR_KEYWORDS.ETIMEDOUT, ERROR_KEYWORDS.ECONNRESET,
    ERROR_KEYWORDS.NETWORK_ERROR, HTTP_STATUS_STRINGS.TOO_MANY_REQUESTS,
    HTTP_STATUS_STRINGS.INTERNAL_SERVER_ERROR, HTTP_STATUS_STRINGS.BAD_GATEWAY,
    HTTP_STATUS_STRINGS.SERVICE_UNAVAILABLE, HTTP_STATUS_STRINGS.GATEWAY_TIMEOUT.
  split.
  - intros [[[H|H]|H] | [[H|H] | [[[[H|H]|H]|H] | [[[[H|H]|H]|H] | [[[[[H|H]|H]|H]|H] | F]]]]];
      try discriminate F.
    + left; now left.
    + left; right; now left.
    + left; right; now right.
    + right; left; now left.
    + right; left; now right.
    + right; right; left; left. exists 500. split; [simpl; tauto | assumption].
    + right; right; left; left. exists 502. split; [simpl; tauto | assumption].
    + right; right; left; left. exists 503. split; [simpl; tauto | assumption].
    + right; right; left; left. exists 504. split; [simpl; tauto | assumption].
    + right; right; left; right. exists "500". split; [simpl; tauto | assumption].
    + right; right; left; right. exists "502". split; [simpl; tauto | assumption].
    + right; right; left; right. exists "503". split; [simpl; tauto | assumption].
    + right; right; left; right. exists "504". split; [simpl; tauto | assumption].
    + right; right; right. exists "ECONNREFUSED". split; [simpl; tauto | assumption].
    + right; right; right. exists "ENOTFOUND". split; [simpl; tauto | assumption].
    + right; right; right. exists "ETIMEDOUT". split; [simpl; tauto | assumption].
    + right; right; right. exists "ECONNRESET". split; [simpl; tauto | assumption].
    + right; right; right. exists "network error". split; [simpl; tauto | assumption].
  - intros [[H|[H|H]] | [[H|H] | [[(c & I & H) | (m & I & H)] | (m & I & H)]]].
    + tauto.
    + tauto.
    + tauto.
    + tauto.
    + tauto.
    + simpl in I. destruct I as [<-|[<-|[<-|[<-|[]]]]]; tauto.
    + simpl in I. destruct I as [<-|[<-|[<-|[<-|[]]]]]; tauto.
    + simpl in I. destruct I as [<-|[<-|[<-|[<-|[<-|[]]]]]]; tauto.
Qed.

(** Errors that are retriable by their status alone, whatever their
    message: a 429 in [status], a 503 in [statusCode] of an object without
    [status], a 500 on a thrown object that is not an [Error].  A
    [status] property that is present but holds no number hides
    [statusCode], and a primitive value has no status. *)
Example isRetriableError_status_only_examples :
  isRetriableError (ErrorObject EmptyString (Num 429) Absent) = true
  /\ isRetriableError (ErrorObject "Service down" Absent (Num 503)) = true
  /\ isRetriableError (OtherObject "[object Object]" (Num 500) Absent) = true
  /\ isRetriableError (ErrorObject "Bad gateway" (Num 502) (Num 400)) = true
  /\ isRetriableError (ErrorObject "Gateway" (Num 504) Absent) = true
  /\ isRetriableError (ErrorObject "Service down" NotNum (Num 503)) = false
  /\ isRetriableError (ErrorObject "Service down" (Num 400) (Num 503)) = false
  /\ isRetriableError (Primitive "Service down") = false.
Proof. repeat split; vm_compute; reflexivity. Qed.

(** Errors of the terminal kinds: 400, 401, 403 and 404 rejections and a
    schema mismatch. *)
Example isRetriableError_terminal_examples :
  isRetriableError (ErrorObject "400 Bad Request" (Num 400) Absent) = false
  /\ isRetriableError (ErrorObject "401 Incorrect API key provided" (Num 401) Absent) = false
  /\ isRetriableError (ErrorObject "Forbidden" Absent (Num 403)) = false
  /\ isRetriableError (ErrorObject "404 The model does not exist" (Num 404) Absent) = false
  /\ isRetriableError
       (ErrorObject "OpenAI response does not match expected schema: name: Required"
          Absent Absent) = false.
Proof. repeat split; vm_compute; reflexivity. Qed.

(** ** DelayUtils and the delay of the throttle *)

Lemma throttleCalculateDelay_eq {W} (random : W -> Q * W)
    (t : ThrottleManager) (d : Q) :
  throttleCalculateDelay random t d
  = calculateDelayWithJitter random d (useJitter t) (jitterFactor t).
Proof. reflexivity. Qed.

Lemma jittered_value_bounds (d f r : Q) :
  (0 <= d -> 0 <= f -> f <= 1 -> 0 <= r -> r < 1 ->
   d * (1 - f) <= Qmax 0 (d + (r * 2 - 1) * (d * f))
   /\ Qmax 0 (d + (r * 2 - 1) * (d * f)) <= d * (1 + f)
   /\ 0 <= Qmax 0 (d + (r * 2 - 1) * (d * f)))%Q.
Proof.
  intros Hd Hf0 Hf1 Hr0 Hr1.
  assert (Hdf : (0 <= d * f)%Q) by (apply Qmult_le_0_compat; assumption).
  assert (Hlo : (d * (1 - f) <= d + (r * 2 - 1) * (d * f))%Q).
  { assert ((0 <= (r * 2) * (d * f))%Q)
      by (apply Qmult_le_0_compat; [lra | assumption]).
    lra. }
  assert (Hhi : (d + (r * 2 - 1) * (d * f) <= d * (1 + f))%Q).
  { assert ((0 <= (2 - r * 2) * (d * f))%Q)
      by (apply Qmult_le_0_compat; [lra | assumption]).
    lra. }
  repeat split.
  - eapply Qle_trans; [exact Hlo | apply Q.le_max_r].
  - apply Q.max_lub; [lra | exact Hhi].
  - apply Q.le_max_l.
Qed.

(** C8. For a base delay [d >= 0], a jitter factor [f] in [0,1] and any
    sample of [Math.random()], [calculateDelayWithJitter(d, true, f)]
    returns a value in [d*(1-f), d*(1+f)] that is not negative; with jitter
    disabled it returns [d] itself (and draws no sample).  The private
    [calculateDelay] of the throttle computes the same value. *)
Theorem calculateDelayWithJitter_bounds {W} (random : W -> Q * W)
    (d f : Q) (w : W) :
  (0 <= d)%Q -> (0 <= f)%Q -> (f <= 1)%Q ->
  (0 <= fst (random w))%Q -> (fst (random w) < 1)%Q ->
  (exists v,
      calculateDelayWithJitter random d true f w = Some (v, snd (random w))
      /\ (d * (1 - f) <= v)%Q /\ (v <= d * (1 + f))%Q /\ (0 <= v)%Q)
  /\ calculateDelayWithJitter random d false f w = Some (d, w)
  /\ (forall t, useJitter t = true -> jitterFactor t = f ->
        throttleCalculateDelay random t d w
        = calculateDelayWithJitter random d true f w).
Proof.
  intros Hd Hf0 Hf1 Hr0 Hr1. split; [|split].
  - unfold calculateDelayWithJitter, bind, mathRandom, ret. simpl.
    destruct (random w) as [r w'] eqn:E. simpl in *.
    eexists. split; [reflexivity |].
    apply jittered_value_bounds; assumption.
  - reflexivity.
  - intros t Hj Hf. rewrite throttleCalculateDelay_eq, Hj, Hf. reflexivity.
Qed.

Lemma calculateDelayWithJitter_bounds_witness :
  (exists v,
      calculateDelayWithJitter (fun n : nat => (1 # 4, S n)) 1000 true (3 # 10) 0%nat
      = Some (v, 1%nat)
      /\ (1000 * (1 - (3 # 10)) <= v)%Q /\ (v <= 1000 * (1 + (3 # 10)))%Q
      /\ (0 <= v)%Q)
  /\ calculateDelayWithJitter (fun n : nat => (1 # 4, S n)) 1000 false (3 # 10) 0%nat
     = Some (1000%Q, 0%nat)
  /\ (forall t, useJitter t = true -> jitterFactor t = (3 # 10) ->
        throttleCalculateDelay (fun n : nat => (1 # 4, S n)) t 1000 0%nat
        = calculateDelayWithJitter (fun n : nat => (1 # 4, S n)) 1000 true (3 # 10) 0%nat).
Proof.
  apply (calculateDelayWithJitter_bounds (fun n : nat => (1 # 4, S n))
           1000 (3 # 10) 0%nat); simpl; lra.
Defined.

(** ** The backoff of the retry engine *)

Lemma retryCalculateDelay_eq_backoff {W} (random : W -> Q * W)
    (rm : RetryManager) (attempt : Z) :
  retryCalculateDelay random rm attempt
  = calculateExponentialBackoff random attempt (baseDelay rm) (maxDelay rm)
      true (25 # 100).
Proof. reflexivity. Qed.

Lemma validateRetrySettings_range e a b m v :
  ConfigValidator.validateRetrySettings e a b m = inr v ->
  1 <= maxAttempts (retryManagerOf v) <= 10
  /\ (100 <= baseDelay (retryManagerOf v))%Q
  /\ (baseDelay (retryManagerOf v) <= 10000)%Q
  /\ (baseDelay (retryManagerOf v) <= maxDelay (retryManagerOf v))%Q.
Proof.
  unfold ConfigValidator.validateRetrySettings, Qltb.
  set (ma := ConfigValidator.orDefault a _).
  set (bd := ConfigValidator.orDefault b _).
  set (md := ConfigValidator.orDefault m _).
  destruct (ma <? _) eqn:E1; [discriminate |].
  destruct (ma >? _) eqn:E2; [discriminate |].
  simpl orb.
  destruct (Qle_bool ConfigValidator.MIN_BASE_RETRY_DELAY_MS bd) eqn:E3;
    [| discriminate].
  destruct (Qle_bool bd ConfigValidator.MAX_BASE_RETRY_DELAY_MS) eqn:E4;
    [| discriminate].
  destruct (Qle_bool bd md) eqn:E5; [| discriminate].
  simpl. intros H. inversion H; subst v; clear H. simpl.
  apply Qle_bool_iff in E3, E4, E5.
  apply Z.ltb_ge in E1. rewrite Z.gtb_ltb in E2. apply Z.ltb_ge in E2.
  unfold ConfigValidator.MIN_RETRY_ATTEMPTS, ConfigValidator.MAX_RETRY_ATTEMPTS in *.
  repeat split; try assumption; lia.
Qed.

Lemma backoff_value_facts (b m p r r' : Q) :
  (0 <= b -> 0 <= m -> 0 <= p -> 0 <= r -> r < 1 -> 0 <= r' -> r' < 1 ->
   let c := Qmin (b * p) m in
   let c' := Qmin (b * (2 * p)) m in
   (b * (2 * p) <= m -> c + r * (25 # 100) * c <= c' + r' * (25 # 100) * c')
   /\ c + r * (25 # 100) * c <= m * (125 # 100))%Q.
Proof.
  intros Hb Hm Hp Hr0 Hr1 Hr0' Hr1' c c'.
  assert (Hbp : (0 <= b * p)%Q) by (apply Qmult_le_0_compat; assumption).
  assert (Hc0 : (0 <= c)%Q) by (apply Q.min_glb; assumption).
  assert (Hc1 : (c <= b * p)%Q) by apply Q.le_min_l.
  assert (Hc2 : (c <= m)%Q) by apply Q.le_min_r.
  assert (Hrc : (0 <= (1 - r) * c)%Q)
    by (apply Qmult_le_0_compat; [lra | assumption]).
  split.
  - intros Hcap.
    assert (Hc' : (b * (2 * p) <= c')%Q) by (apply Q.min_glb; [lra | assumption]).
    assert (Hc0' : (0 <= c')%Q) by lra.
    assert (Hrc' : (0 <= r' * c')%Q) by (apply Qmult_le_0_compat; assumption).
    lra.
  - lra.
Qed.

Lemma Qpower_2_succ (n : Z) : (Qpower 2 (n + 1) == 2 * Qpower 2 n)%Q.
Proof.
  rewrite Qpower_plus by (intro H; discriminate H).
  change (Qpower 2 1) with 2%Q. ring.
Qed.

(** C5. With a base delay and a cap that are not negative (as validation
    guarantees), for every attempt index [n >= 0] and every pair of jitter
    samples: the delay for attempt [n] is at most the delay for attempt
    [n+1] as long as the exponential term of attempt [n+1] has not reached
    the cap ([baseDelay * 2^(n+1) <= maxDelay]), and the delay for attempt
    [n] is at most [maxDelay * 1.25]. *)
Theorem retry_backoff_monotone_until_cap_and_bounded {W}
    (random : W -> Q * W) (rm : RetryManager) (n : Z) (w w' : W) :
  (0 <= baseDelay rm)%Q -> (0 <= maxDelay rm)%Q -> 0 <= n ->
  (0 <= fst (random w))%Q -> (fst (random w) < 1)%Q ->
  (0 <= fst (random w'))%Q -> (fst (random w') < 1)%Q ->
  exists d d',
    retryCalculateDelay random rm n w = Some (d, snd (random w))
    /\ retryCalculateDelay random rm (n + 1) w' = Some (d', snd (random w'))
    /\ ((baseDelay rm * Qpower 2 (n + 1) <= maxDelay rm)%Q -> (d <= d')%Q)
    /\ (d <= maxDelay rm * (125 # 100))%Q.
Proof.
  intros Hb Hm Hn Hr0 Hr1 Hr0' Hr1'.
  unfold retryCalculateDelay, bind, mathRandom, ret.
  destruct (random w) as [r w1]. destruct (random w') as [r' w1'].
  simpl in Hr0, Hr1, Hr0', Hr1'. simpl snd.
  do 2 eexists. split; [reflexivity |]. split; [reflexivity |].
  assert (Hp : (0 <= Qpower 2 n)%Q) by (apply Qpower_0_le; lra).
  destruct (backoff_value_facts (baseDelay rm) (maxDelay rm) (Qpower 2 n) r r'
              Hb Hm Hp Hr0 Hr1 Hr0' Hr1') as [Hmono Hcap].
  split.
  - intros Hle. rewrite <- Zle_Qle. apply Qfloor_resp_le.
    rewrite Qpower_2_succ in *. apply Hmono. exact Hle.
  - eapply Qle_trans; [apply Qfloor_le | exact Hcap].
Qed.

Lemma retry_backoff_monotone_until_cap_and_bounded_witness :
  exists d d',
    retryCalculateDelay (fun k : nat => ((1 + Z.of_nat k) # 4, S k))
      (mkRetryManager true 3 1000 60000) 2 2%nat = Some (d, 3%nat)
    /\ retryCalculateDelay (fun k : nat => ((1 + Z.of_nat k) # 4, S k))
         (mkRetryManager true 3 1000 60000) (2 + 1) 0%nat = Some (d', 1%nat)
    /\ ((1000 * Qpower 2 (2 + 1) <= 60000)%Q -> (d <= d')%Q)
    /\ (d <= 60000 * (125 # 100))%Q.
Proof.
  apply (retry_backoff_monotone_until_cap_and_bounded
           (fun k : nat => ((1 + Z.of_nat k) # 4, S k))
           (mkRetryManager true 3 1000 60000) 2 2%nat 0%nat);
    simpl; first [lra | lia].
Defined.

(** The condition on attempt [n+1] is needed: at the attempt at which the
    cap sets in, the two jitter samples decide.  With
    [baseDelay = maxDelay = 1000], attempt 0 with sample 0.9 waits 1225 ms,
    attempt 1 with sample 0 waits 1000 ms. *)
Example retry_backoff_at_the_cap :
  retryCalculateDelay (fun k : nat => (9 # 10, S k))
    (mkRetryManager true 3 1000 1000) 0 0%nat = Some (1225%Q, 1%nat)
  /\ retryCalculateDelay (fun k : nat => (0%Q, S k))
       (mkRetryManager true 3 1000 1000) 1 0%nat = Some (1000%Q, 1%nat).
Proof. split; vm_compute; reflexivity. Qed.

(** ** ThrottleManager.throttle with a zero delay *)

(** C10. [requestDelay = 0] passes [validateThrottleSettings] (with a valid
    jitter factor), and a throttle built from the validated settings does
    what an unconfigured throttle does: [throttle()] returns at once on
    the unchanged runtime state (so no timer was set, whatever [sleep] is)
    and leaves the manager, [lastRequestTime] included, as it was. *)
Theorem throttle_zero_delay_like_unconfigured {W}
    (dateNow : W -> Z) (random : W -> Q * W) (sleep : Q -> W -> W)
    (uj : option bool) (jf : option Q) :
  (0 <= ConfigValidator.orDefault jf ConfigValidator.DEFAULT_JITTER_FACTOR)%Q ->
  (ConfigValidator.orDefault jf ConfigValidator.DEFAULT_JITTER_FACTOR <= 1)%Q ->
  exists v,
    ConfigValidator.validateThrottleSettings (Some 0%Q) uj jf = inr v
    /\ requestDelay (throttleManagerOf v) = Some 0%Q
    /\ forall (last : Z) (w : W),
         let configured :=
           mkThrottleManager (ValidatedThrottleSettings.requestDelay v)
             (ValidatedThrottleSettings.useJitter v)
             (ValidatedThrottleSettings.jitterFactor v) last in
         let unconfigured :=
           mkThrottleManager None
             (ValidatedThrottleSettings.useJitter v)
             (ValidatedThrottleSettings.jitterFactor v) last in
         throttle dateNow random sleep configured w = Some (configured, w)
         /\ throttle dateNow random sleep unconfigured w = Some (unconfigured, w).
Proof.
  intros H0 H1.
  unfold ConfigValidator.validateThrottleSettings.
  set (f := ConfigValidator.orDefault jf _) in *.
  assert (E0 : Qltb 0 ConfigValidator.MIN_REQUEST_DELAY_MS = false) by reflexivity.
  rewrite E0.
  assert (E1 : Qltb f ConfigValidator.MIN_JITTER_FACTOR = false).
  { unfold Qltb. apply negb_false_iff, Qle_bool_iff. exact H0. }
  assert (E2 : Qltb ConfigValidator.MAX_JITTER_FACTOR f = false).
  { unfold Qltb. apply negb_false_iff, Qle_bool_iff. exact H1. }
  rewrite E1, E2. simpl orb. cbv iota.
  eexists. split; [reflexivity |]. split; [reflexivity |].
  intros last w. split; reflexivity.
Qed.

Lemma throttle_zero_delay_like_unconfigured_witness :
  exists v,
    ConfigValidator.validateThrottleSettings (Some 0%Q) None None = inr v
    /\ requestDelay (throttleManagerOf v) = Some 0%Q
    /\ forall (last : Z) (w : World),
         let configured :=
           mkThrottleManager (ValidatedThrottleSettings.requestDelay v)
             (ValidatedThrottleSettings.useJitter v)
             (ValidatedThrottleSettings.jitterFactor v) last in
         let unconfigured :=
           mkThrottleManager None
             (ValidatedThrottleSettings.useJitter v)
             (ValidatedThrottleSettings.jitterFactor v) last in
         throttle worldNow worldRandom worldSleep configured w
         = Some (configured, w)
         /\ throttle worldNow worldRandom worldSleep unconfigured w
            = Some (unconfigured, w).
Proof.
  apply (throttle_zero_delay_like_unconfigured worldNow worldRandom worldSleep
           None None);
    unfold ConfigValidator.orDefault, ConfigValidator.DEFAULT_JITTER_FACTOR; lra.
Defined.

(** ** RateLimitManager.canMakeRequest *)

Lemma filter_keeps_all {A} (f : A -> bool) (l : list A) :
  (forall x, In x l -> f x = true) -> filter f l = l.
Proof.
  induction l as [|a l IH]; intros H; simpl; [reflexivity |].
  rewrite (H a) by now left. f_equal. apply IH. intros x Hx. apply H. now right.
Qed.

Lemma inWindow_gtb (now ts : Z) :
  (ts >? now - RATE_LIMIT_WINDOW_MS) = true <-> inWindow now ts.
Proof. unfold inWindow. rewrite Z.gtb_ltb, Z.ltb_lt. lia. Qed.

Lemma isTokenRateLimitExceeded_disabled (m : RateLimitManager) (est : Z) :
  tokensPerMinute m = None \/ est = 0 ->
  isTokenRateLimitExceeded m est = false.
Proof.
  unfold isTokenRateLimitExceeded. intros [H | H].
  - now rewrite H.
  - subst est. now destruct (tokensPerMinute m).
Qed.

(** While every recorded request is inside the window and their number has
    reached the limit, the check answers [false] and keeps the requests. *)
Lemma canMakeRequest_blocked {W} (dateNow : W -> Z) (est : Z)
    (m : RateLimitManager) (w : W) :
  requestsPerMinute m = Some (Z.of_nat (length (requestTimestamps m))) ->
  (forall ts, In ts (requestTimestamps m) -> inWindow (dateNow w) ts) ->
  exists m',
    canMakeRequest dateNow est m w = Some ((false, m'), w)
    /\ requestsPerMinute m' = requestsPerMinute m
    /\ tokensPerMinute m' = tokensPerMinute m
    /\ requestTimestamps m' = requestTimestamps m.
Proof.
  intros HR Hall.
  unfold canMakeRequest, bind, getNow, ret.
  rewrite (filter_keeps_all _ (requestTimestamps m))
    by (intros ts Hts; apply inWindow_gtb, Hall, Hts).
  unfold isRequestRateLimitExceeded at 1. cbn [requestsPerMinute requestTimestamps].
  rewrite HR.
  replace (Z.of_nat (length (requestTimestamps m))
           >=? Z.of_nat (length (requestTimestamps m))) with true
    by (symmetry; apply Z.geb_le; lia).
  eexists. split; [reflexivity |]. now cbn.
Qed.

(** Once the first of the recorded requests has left the window, fewer
    requests than the limit remain and the check answers [true]. *)
Lemma canMakeRequest_admits {W} (dateNow : W -> Z) (est : Z)
    (m : RateLimitManager) (first : Z) (rest : list Z) (w : W) :
  requestTimestamps m = first :: rest ->
  requestsPerMinute m = Some (Z.of_nat (length (first :: rest))) ->
  tokensPerMinute m = None \/ est = 0 ->
  ~ inWindow (dateNow w) first ->
  exists m', canMakeRequest dateNow est m w = Some ((true, m'), w).
Proof.
  intros Hts HR Htok Hout.
  unfold canMakeRequest, bind, getNow, ret.
  rewrite Hts. cbn [filter].
  destruct (first >? dateNow w - RATE_LIMIT_WINDOW_MS) eqn:E.
  { apply inWindow_gtb in E. contradiction. }
  unfold isRequestRateLimitExceeded at 1. cbn [requestsPerMinute requestTimestamps].
  rewrite HR.
  pose proof (filter_length_le (fun ts => ts >? dateNow w - RATE_LIMIT_WINDOW_MS) rest)
    as Hlen.
  replace (Z.of_nat (length (filter _ rest)) >=? Z.of_nat (length (first :: rest)))
    with false
    by (symmetry; rewrite Z.geb_leb; apply Z.leb_gt; simpl length; lia).
  rewrite isTokenRateLimitExceeded_disabled by (cbn; exact Htok).
  eexists. reflexivity.
Qed.

(** C6. Let the limit be [R] and let [R] requests be recorded, [first]
    being the earliest of them, with the token check out of play (no token
    limit, or a zero estimate).  Admission checks made while [first] is
    still inside the 60 000 ms window all answer [false]; the first check
    made after [first] has left the window answers [true]. *)
Theorem canMakeRequest_blocks_until_earliest_ages_out {W} (dateNow : W -> Z)
    (est : Z) (tpm : option Z) (first : Z) (rest : list Z)
    (tokenEvents : list TokenEvent) (before : list W) (after : W) :
  (forall ts, In ts rest -> first <= ts) ->
  tpm = None \/ est = 0 ->
  (forall w, In w before -> inWindow (dateNow w) first) ->
  ~ inWindow (dateNow after) first ->
  repeatedChecks dateNow est
    (mkRateLimitManager (Some (Z.of_nat (length (first :: rest)))) tpm
       (first :: rest) tokenEvents)
    (before ++ [after])
  = (repeat false (length before) ++ [true])%list.
Proof.
  intros Hfirst Htok Hbefore Hafter.
  set (m0 := mkRateLimitManager _ tpm (first :: rest) tokenEvents).
  assert (Hinv : requestTimestamps m0 = first :: rest
                 /\ requestsPerMinute m0 = Some (Z.of_nat (length (first :: rest)))
                 /\ tokensPerMinute m0 = tpm) by now cbn.
  clearbody m0. revert m0 Hinv Hbefore.
  induction before as [|w before IH]; intros m (Hts & HR & Htpm) Hbefore.
  - cbn [app repeat length repeatedChecks].
    destruct (canMakeRequest_admits dateNow est m first rest after Hts HR)
      as [m' E]; [rewrite Htpm; exact Htok | exact Hafter |].
    now rewrite E.
  - cbn [app repeat length repeatedChecks].
    destruct (canMakeRequest_blocked dateNow est m w) as (m' & E & HR' & Htpm' & Hts').
    + now rewrite Hts, HR.
    + intros ts Hin. rewrite Hts in Hin.
      assert (Hw : inWindow (dateNow w) first) by (apply Hbefore; now left).
      unfold inWindow in *. destruct Hin as [<- | Hin]; [exact Hw |].
      specialize (Hfirst ts Hin). lia.
    + rewrite E. f_equal. apply IH.
      * repeat split; congruence.
      * intros w' Hw'. apply Hbefore. now right.
Qed.

Lemma canMakeRequest_blocks_until_earliest_ages_out_witness :
  repeatedChecks (fun now : Z => now) 0
    (mkRateLimitManager (Some (Z.of_nat (length [1000; 1500; 2000]))) (Some 5)
       [1000; 1500; 2000] [])
    ([2000; 30000; 60999] ++ [61000])
  = (repeat false (length [2000; 30000; 60999]) ++ [true])%list.
Proof.
  apply (canMakeRequest_blocks_until_earliest_ages_out (fun now : Z => now)
           0 (Some 5) 1000 [1500; 2000] [] [2000; 30000; 60999] 61000).
  - intros ts [<- | [<- | []]]; lia.
  - right; reflexivity.
  - intros w [<- | [<- | [<- | []]]]; unfold inWindow, RATE_LIMIT_WINDOW_MS; lia.
  - unfold inWindow, RATE_LIMIT_WINDOW_MS; lia.
Defined.

(** ** RetryManager.executeWithRetry *)

Section RetryFacts.

Context {W T : Type}.
Variable random : W -> Q * W.
Variable sleep : Q -> W -> W.
Variable rm : RetryManager.
Variable fn : Async W (Thrown + T).
Variable onError : Thrown -> T.

Let run := retryLoop (loggedRandom random) (loggedSleep sleep) rm
             (logged fn) onError.

(** Dropping the log from a logged run gives the run of the attempt
    function itself: the log observes, it does not interfere. *)
Lemma retryLoop_logged_erasure (iterations : nat) :
  forall attempt lastError w log,
    eraseLog (run iterations attempt lastError (w, log))
    = retryLoop random sleep rm fn onError iterations attempt lastError w.
Proof.
  unfold run.
  induction iterations as [|n IH]; intros attempt lastError w log;
    [reflexivity |].
  cbn [retryLoop]. destruct (attempt <? maxAttempts rm); [| reflexivity].
  unfold bind, logged. cbn [fst snd].
  destruct (fn w) as [[[e | v] w1] |]; [| reflexivity | reflexivity].
  destruct (negb (isRetriableError e)); [reflexivity |].
  destruct (attempt <? maxAttempts rm - 1).
  - unfold retryCalculateDelay, bind, mathRandom, loggedRandom, doSleep,
      loggedSleep, ret. cbn [fst snd].
    destruct (random w1) as [r w2]. cbn [fst snd]. apply IH.
  - unfold ret. apply IH.
Qed.

Lemma executeWithRetry_logged_erasure (w : W) (log : list (Thrown + T)) :
  eraseLog (executeWithRetry (loggedRandom random) (loggedSleep sleep) rm
              (logged fn) onError (w, log))
  = executeWithRetry random sleep rm fn onError w.
Proof.
  unfold executeWithRetry. destruct (negb (enabled rm)).
  - unfold bind, logged, ret. cbn [fst snd].
    destruct (fn w) as [[[e | v] w1] |]; reflexivity.
  - apply retryLoop_logged_erasure.
Qed.

(** The loop, entered with [iterations >= 1] attempts left, when every
    invocation throws a retriable error. *)
Lemma retryLoop_exhaustion (iterations : nat) :
  (forall w0, exists e w1, fn w0 = Some (inl e, w1) /\ isRetriableError e = true) ->
  forall attempt lastError w log,
    (1 <= iterations)%nat ->
    attempt + Z.of_nat iterations = maxAttempts rm ->
    exists e w' later,
      run iterations attempt lastError (w, log)
      = Some (onError e, (w', (log ++ later ++ [inl e])%list))
      /\ length (later ++ [inl e])%list = iterations.
Proof.
  intros Hfn. unfold run.
  induction iterations as [|n IH]; intros attempt lastError w log Hpos Hsum;
    [lia |].
  cbn [retryLoop].
  replace (attempt <? maxAttempts rm) with true by (symmetry; apply Z.ltb_lt; lia).
  destruct (Hfn w) as (e & w1 & Efn & Hretry).
  unfold bind at 1. unfold logged at 1. cbn [fst snd]. rewrite Efn, Hretry.
  cbn [negb].
  destruct n as [|n'].
  - replace (attempt <? maxAttempts rm - 1) with false
      by (symmetry; apply Z.ltb_ge; lia).
    exists e, w1, []. split; reflexivity.
  - replace (attempt <? maxAttempts rm - 1) with true
      by (symmetry; apply Z.ltb_lt; lia).
    unfold retryCalculateDelay, bind, mathRandom, loggedRandom, doSleep,
      loggedSleep, ret. cbn [fst snd].
    destruct (random w1) as [r w2]. cbn [fst snd].
    match goal with
    | |- context [retryLoop _ _ _ _ _ _ _ _ (?w3, _)] =>
        destruct (IH (attempt + 1) e w3 (log ++ [inl e])%list) as
          (e' & w' & later & E & Hlen); [lia | lia |]
    end.
    exists e', w', (inl e :: later). split.
    + rewrite <- app_assoc in E. exact E.
    + cbn [app length]. now rewrite Hlen.
Qed.

End RetryFacts.

(** C3. With retry enabled and [maxAttempts = k >= 1], when the attempt
    function throws a retriable error at every invocation,
    [executeWithRetry] invokes it exactly [k] times (the log of invocations
    has [k] entries) and returns the error handler applied to the error of
    the last, k-th invocation. *)
Theorem executeWithRetry_exhausts_all_attempts {W T}
    (random : W -> Q * W) (sleep : Q -> W -> W) (rm : RetryManager)
    (fn : Async W (Thrown + T)) (onError : Thrown -> T) (k : nat) (w : W) :
  enabled rm = true ->
  maxAttempts rm = Z.of_nat k ->
  (1 <= k)%nat ->
  (forall w0, exists e w1, fn w0 = Some (inl e, w1) /\ isRetriableError e = true) ->
  exists e w' earlier,
    executeWithRetry (loggedRandom random) (loggedSleep sleep) rm
      (logged fn) onError (w, [])
    = Some (onError e, (w', (earlier ++ [inl e])%list))
    /\ length (earlier ++ [inl e])%list = k.
Proof.
  intros Hen Hmax Hk Hfn.
  unfold executeWithRetry. rewrite Hen. cbn [negb].
  rewrite Hmax, Nat2Z.id.
  destruct (retryLoop_exhaustion random sleep rm fn onError k Hfn 0 js_undefined w [])
    as (e & w' & later & E & Hlen); [exact Hk | lia |].
  exists e, w', later. split; [exact E | exact Hlen].
Qed.

(** C7. When the first invocation of the attempt function throws an error
    that is not retriable, [executeWithRetry] makes that one invocation
    only and returns the error handler applied to its error, whatever
    [maxAttempts >= 1] is configured. *)
Theorem executeWithRetry_terminal_error_single_attempt {W T}
    (random : W -> Q * W) (sleep : Q -> W -> W) (rm : RetryManager)
    (fn : Async W (Thrown + T)) (onError : Thrown -> T)
    (w w1 : W) (e : Thrown) :
  1 <= maxAttempts rm ->
  fn w = Some (inl e, w1) ->
  isRetriableError e = false ->
  executeWithRetry (loggedRandom random) (loggedSleep sleep) rm
    (logged fn) onError (w, [])
  = Some (onError e, (w1, [inl e])).
Proof.
  intros Hmax Efn Hterm.
  unfold executeWithRetry. destruct (negb (enabled rm)).
  - unfold bind, logged, ret. cbn [fst snd]. now rewrite Efn.
  - destruct (Z.to_nat (maxAttempts rm)) as [|n] eqn:En; [lia |].
    cbn [retryLoop].
    replace (0 <? maxAttempts rm) with true by (symmetry; apply Z.ltb_lt; lia).
    unfold bind, logged, ret. cbn [fst snd]. now rewrite Efn, Hterm.
Qed.

Lemma isRetriableError_of_timeout_marker (e : Thrown) :
  includes (getErrorMessage e) "timeout" = true -> isRetriableError e = true.
Proof.
  intros H. unfold isRetriableError, ERROR_KEYWORDS.TIMEOUT. rewrite H.
  now destruct (codeIs _ _ || _ || _).
Qed.

Lemma executeWithRetry_exhausts_all_attempts_witness :
  exists e w' earlier,
    executeWithRetry
      (loggedRandom (fun n : nat => (1 # 2, n)))
      (loggedSleep (fun (_ : Q) (n : nat) => n))
      (mkRetryManager true 3 1000 60000)
      (logged (fun n : nat =>
                 Some (inl (ErrorObject "timeout" (Num (Z.of_nat n)) Absent), S n)))
      getErrorCode (0%nat, [])
    = Some (getErrorCode e, (w', (earlier ++ [inl e])%list))
    /\ length (earlier ++ [inl e])%list = 3%nat.
Proof.
  apply (executeWithRetry_exhausts_all_attempts
           (fun n : nat => (1 # 2, n)) (fun (_ : Q) (n : nat) => n)
           (mkRetryManager true 3 1000 60000)
           (fun n : nat =>
              Some (inl (ErrorObject "timeout" (Num (Z.of_nat n)) Absent), S n))
           getErrorCode 3 0%nat).
  - reflexivity.
  - reflexivity.
  - lia.
  - intros n. do 2 eexists. split; [reflexivity |].
    apply isRetriableError_of_timeout_marker. reflexivity.
Defined.

(** The run of the witness above: three invocations, and the handler
    receives the error of the third one (status 2), not of the first. *)
Example executeWithRetry_exhaustion_run :
  executeWithRetry
    (loggedRandom (fun n : nat => (1 # 2, n)))
    (loggedSleep (fun (_ : Q) (n : nat) => n))
    (mkRetryManager true 3 1000 60000)
    (logged (fun n : nat =>
               Some (inl (ErrorObject "timeout" (Num (Z.of_nat n)) Absent), S n)))
    getErrorCode (0%nat, [])
  = Some (Some 2,
          (3%nat, [inl (ErrorObject "timeout" (Num 0) Absent);
                   inl (ErrorObject "timeout" (Num 1) Absent);
                   inl (ErrorObject "timeout" (Num 2) Absent)])).
Proof. vm_compute. reflexivity. Qed.

Lemma executeWithRetry_terminal_error_single_attempt_witness :
  executeWithRetry
    (loggedRandom (fun n : nat => (1 # 2, n)))
    (loggedSleep (fun (_ : Q) (n : nat) => n))
    (mkRetryManager true 5 1000 60000)
    (logged (fun n : nat =>
               Some (inl (ErrorObject "401 Incorrect API key provided"
                            (Num 401) Absent), S n)))
    getErrorMessage (0%nat, [])
  = Some (getErrorMessage
            (ErrorObject "401 Incorrect API key provided" (Num 401) Absent),
          (1%nat,
           [inl (ErrorObject "401 Incorrect API key provided" (Num 401) Absent)])).
Proof.
  apply (executeWithRetry_terminal_error_single_attempt
           (fun n : nat => (1 # 2, n)) (fun (_ : Q) (n : nat) => n)
           (mkRetryManager true 5 1000 60000)
           (fun n : nat =>
              Some (inl (ErrorObject "401 Incorrect API key provided"
                           (Num 401) Absent), S n))
           getErrorMessage 0%nat 1%nat
           (ErrorObject "401 Incorrect API key provided" (Num 401) Absent)).
  - simpl. lia.
  - reflexivity.
  - vm_compute. reflexivity.
Defined.

(** ** The orchestrator *)

(** *** The rate-limit window in the world of a client *)

Lemma canMakeRequest_eq {W} (dateNow : W -> Z) (est : Z)
    (m : RateLimitManager) (w : W) :
  canMakeRequest dateNow est m w
  = Some ((negb (isRequestRateLimitExceeded (prunedAt (dateNow w) m))
           && negb (isTokenRateLimitExceeded (prunedAt (dateNow w) m) est),
           prunedAt (dateNow w) m), w).
Proof.
  unfold canMakeRequest, bind, getNow, ret. fold (prunedAt (dateNow w) m).
  destruct (isRequestRateLimitExceeded _); [reflexivity |].
  destruct (isTokenRateLimitExceeded _ _); reflexivity.
Qed.

Lemma recordRequest_eq {W} (dateNow : W -> Z) (tokensUsed : option Z)
    (m : RateLimitManager) (w : W) :
  recordRequest dateNow tokensUsed m w
  = Some (recordedAt (dateNow w) tokensUsed m, w).
Proof. reflexivity. Qed.

Lemma filter_filter_weaker {A} (f g : A -> bool) (l : list A) :
  (forall x, f x = true -> g x = true) ->
  filter f (filter g l) = filter f l.
Proof.
  intros H. induction l as [|a l IH]; simpl; [reflexivity |].
  destruct (g a) eqn:G; simpl.
  - now rewrite IH.
  - destruct (f a) eqn:F; [| exact IH].
    apply H in F. congruence.
Qed.

Lemma prunedAt_prunedAt (t1 t2 : Z) (m : RateLimitManager) :
  t1 <= t2 -> prunedAt t2 (prunedAt t1 m) = prunedAt t2 m.
Proof.
  intros H. unfold prunedAt. cbn [requestsPerMinute tokensPerMinute
    requestTimestamps tokenTimestamps].
  f_equal; apply filter_filter_weaker; intros x;
    rewrite !Z.gtb_ltb, !Z.ltb_lt; lia.
Qed.

Lemma worldSleep_interval (w : World) :
  clock (worldSleep THROTTLE_CHECK_INTERVAL_MS w) = clock w + 1000.
Proof. reflexivity. Qed.

Lemma worldSleep_clock_le (ms : Q) (w : World) :
  clock w <= clock (worldSleep ms w).
Proof. cbn [worldSleep clock]. lia. Qed.

(** What a wait that ends has done: pruned the window at the time of the
    admitting check and let time pass. *)
Lemma waitForRateLimit_inv (fuel : nat) :
  forall est m w m' w',
    waitForRateLimit worldNow worldSleep fuel est m w = Some (m', w') ->
    m' = prunedAt (clock w') m
    /\ localStep w w'
    /\ rateLimitManager w' = rateLimitManager w.
Proof.
  induction fuel as [|fuel IH]; intros est m w m' w' H; [discriminate |].
  cbn [waitForRateLimit] in H. unfold bind in H.
  rewrite canMakeRequest_eq in H. cbn [fst snd] in H.
  destruct (negb _ && negb _).
  - unfold ret in H. inversion H; subst. unfold worldNow.
    repeat split; lia.
  - unfold doSleep in H.
    apply IH in H. destruct H as (Hm & (Hc & Hs & Hr & Hck) & Hrl).
    unfold worldNow in Hm.
    rewrite prunedAt_prunedAt in Hm
      by (pose proof (worldSleep_clock_le THROTTLE_CHECK_INTERVAL_MS w); lia).
    pose proof (worldSleep_clock_le THROTTLE_CHECK_INTERVAL_MS w).
    repeat split; try assumption; lia.
Qed.

Lemma filter_drops_all {A} (f : A -> bool) (l : list A) :
  (forall x, In x l -> f x = false) -> filter f l = [].
Proof.
  induction l as [|a l IH]; intros H; simpl; [reflexivity |].
  rewrite (H a) by now left. apply IH. intros x Hx. apply H. now right.
Qed.

(** An emptied window admits. *)
Lemma emptied_window_admits (est : Z) (m : RateLimitManager) :
  emptyWindowAdmits est m ->
  requestTimestamps m = [] -> tokenTimestamps m = [] ->
  negb (isRequestRateLimitExceeded m) && negb (isTokenRateLimitExceeded m est)
  = true.
Proof.
  intros [Hr Ht] Er Et.
  unfold isRequestRateLimitExceeded, isTokenRateLimitExceeded. rewrite Er, Et.
  destruct (requestsPerMinute m) as [limit|].
  - replace (Z.of_nat (length (@nil Z)) >=? limit) with false
      by (symmetry; rewrite Z.geb_leb; apply Z.leb_gt; simpl; lia).
    destruct (tokensPerMinute m) as [tl|]; [| reflexivity].
    destruct (est =? 0) eqn:E0; [reflexivity |].
    apply Z.eqb_neq in E0. cbn [fold_left negb andb].
    replace (0 + est >? tl) with false
      by (symmetry; rewrite Z.gtb_ltb; apply Z.ltb_ge; lia).
    reflexivity.
  - destruct (tokensPerMinute m) as [tl|]; [| reflexivity].
    destruct (est =? 0) eqn:E0; [reflexivity |].
    apply Z.eqb_neq in E0. cbn [fold_left negb andb].
    replace (0 + est >? tl) with false
      by (symmetry; rewrite Z.gtb_ltb; apply Z.ltb_ge; lia).
    reflexivity.
Qed.

(** A wait ends at the latest with the poll at which every entry has left
    the window: [k] polls after the first when all entries are at least
    [60000 - 1000 * k] ms old. *)
Lemma waitForRateLimit_ends (k : nat) :
  forall fuel est m w,
    (k < fuel)%nat ->
    emptyWindowAdmits est m ->
    Forall (fun ts => ts <= clock w + 1000 * Z.of_nat k - RATE_LIMIT_WINDOW_MS)
      (requestTimestamps m) ->
    Forall (fun t => timestamp t
                     <= clock w + 1000 * Z.of_nat k - RATE_LIMIT_WINDOW_MS)
      (tokenTimestamps m) ->
    exists m' w', waitForRateLimit worldNow worldSleep fuel est m w = Some (m', w').
Proof.
  induction k as [|k IH]; intros fuel est m w Hfuel Hadm Hreq Htok;
    (destruct fuel as [|fuel]; [lia |]);
    cbn [waitForRateLimit]; unfold bind; rewrite canMakeRequest_eq;
    cbn [fst snd].
  - rewrite emptied_window_admits.
    + unfold ret. eauto.
    + exact Hadm.
    + cbn. apply filter_drops_all. intros ts Hin.
      rewrite Forall_forall in Hreq. specialize (Hreq ts Hin).
      rewrite Z.gtb_ltb. apply Z.ltb_ge. unfold worldNow. lia.
    + cbn. apply filter_drops_all. intros t Hin.
      rewrite Forall_forall in Htok. specialize (Htok t Hin).
      rewrite Z.gtb_ltb. apply Z.ltb_ge. unfold worldNow. lia.
  - destruct (negb _ && negb _); [unfold ret; eauto |].
    unfold doSleep. apply IH.
    + lia.
    + exact Hadm.
    + rewrite worldSleep_interval. cbn [prunedAt requestTimestamps].
      rewrite Forall_forall in *. intros ts Hin.
      apply filter_In in Hin. destruct Hin as [Hin _].
      specialize (Hreq ts Hin). lia.
    + rewrite worldSleep_interval. cbn [prunedAt tokenTimestamps].
      rewrite Forall_forall in *. intros t Hin.
      apply filter_In in Hin. destruct Hin as [Hin _].
      specialize (Htok t Hin). lia.
Qed.

(** With no entry in the future, 61 polls are enough. *)
Lemma waitForRateLimit_ends_settled (fuel : nat) (est : Z) (w : World) :
  (61 <= fuel)%nat -> settled est w ->
  exists m' w',
    waitForRateLimit worldNow worldSleep fuel est (rateLimitManager w) w
    = Some (m', w').
Proof.
  intros Hfuel [[Hreq Htok] Hadm].
  apply (waitForRateLimit_ends 60); [lia | exact Hadm | |].
  - eapply Forall_impl; [| exact Hreq]. unfold RATE_LIMIT_WINDOW_MS.
    cbn beta. intros; lia.
  - eapply Forall_impl; [| exact Htok]. unfold RATE_LIMIT_WINDOW_MS.
    cbn beta. intros; lia.
Qed.

(** *** The throttle in the world of a client *)

Lemma throttle_step (w : World) :
  exists w',
    onThrottleManager (throttle worldNow worldRandom worldSleep) w = Some (tt, w')
    /\ localStep w w'
    /\ rateLimitManager w' = rateLimitManager w.
Proof.
  unfold onThrottleManager, throttle.
  destruct (negb (truthy (requestDelay (throttleManager w)))).
  - unfold ret. eexists. split; [reflexivity |].
    unfold localStep. cbn. repeat split; lia.
  - unfold bind, getNow.
    destruct (Qltb _ _).
    + unfold throttleCalculateDelay.
      destruct (negb (useJitter (throttleManager w))).
      * unfold ret, doSleep. eexists. split; [reflexivity |].
        unfold localStep. cbn. repeat split; lia.
      * unfold bind, mathRandom, ret, doSleep. cbn [worldRandom].
        eexists. split; [reflexivity |].
        unfold localStep. cbn. repeat split; lia.
    + unfold ret. eexists. split; [reflexivity |].
      unfold localStep. cbn. repeat split; lia.
Qed.

(** *** Entries stay in the past *)

Lemma inPast_later (c c' : Z) (m : RateLimitManager) :
  c <= c' -> inPast c m -> inPast c' m.
Proof.
  intros H [Hr Ht]. split; (eapply Forall_impl; [| eassumption]);
    cbn beta; intros; lia.
Qed.

Lemma inPast_prunedAt (c t : Z) (m : RateLimitManager) :
  inPast c m -> inPast c (prunedAt t m).
Proof.
  intros [Hr Ht]. split; cbn [prunedAt requestTimestamps tokenTimestamps];
    rewrite Forall_forall in *; intros x Hx; apply filter_In in Hx;
    destruct Hx as [Hx _]; auto.
Qed.

Lemma inPast_recordedAt (c now : Z) (tok : option Z) (m : RateLimitManager) :
  now <= c -> inPast c m -> inPast c (recordedAt now tok m).
Proof.
  intros H [Hr Ht]. split; cbn [recordedAt requestTimestamps tokenTimestamps].
  - apply Forall_app. split; [exact Hr |]. constructor; [exact H | constructor].
  - destruct (_ >? 0); [| exact Ht].
    apply Forall_app. split; [exact Ht |]. constructor; [exact H | constructor].
Qed.

Lemma settled_later (est : Z) (w w' : World) :
  settled est w -> clock w <= clock w' ->
  rateLimitManager w' = rateLimitManager w ->
  settled est w'.
Proof.
  intros [Hp Ha] Hc Hm. unfold settled, stampsInPast. rewrite Hm.
  split; [eapply inPast_later; eassumption | exact Ha].
Qed.

Lemma settled_recorded (est : Z) (w w' : World) (now : Z) (tok : option Z) :
  settled est w -> clock w <= clock w' -> now <= clock w' ->
  rateLimitManager w' = recordedAt now tok (rateLimitManager w) ->
  settled est w'.
Proof.
  intros [Hp Ha] Hc Hn Hm. unfold settled, stampsInPast. rewrite Hm. split.
  - apply inPast_recordedAt; [exact Hn |].
    apply (inPast_later (clock w)); assumption.
  - exact Ha.
Qed.

(** *** executeWithRateLimiting *)

Section RateLimited.

Context {T : Type}.
Variable fuel : nat.
Variable fn : Async World T.
Variable est : Z.

(** A call that settles has passed the throttle, has been admitted at
    some time, has recorded the estimate at that time and has then run
    [fn]. *)
Lemma executeWithRateLimiting_inv (w : World) (r : T) (w' : World) :
  executeWithRateLimiting fuel fn est w = Some (r, w') ->
  exists admitted,
    localStep w admitted
    /\ rateLimitManager admitted
       = recordedAt (clock admitted) (Some est)
           (prunedAt (clock admitted) (rateLimitManager w))
    /\ fn admitted = Some (r, w').
Proof.
  unfold executeWithRateLimiting. unfold bind at 1.
  destruct (throttle_step w) as (wa & Ea & (Hc & Hs & Hr & Hck) & Hm).
  rewrite Ea. unfold bind at 1. unfold onRateLimitManager at 1.
  destruct (waitForRateLimit _ _ _ _ _ wa) as [[m' wb] |] eqn:Ew;
    [| discriminate].
  apply waitForRateLimit_inv in Ew.
  destruct Ew as (Em & (Hc' & Hs' & Hr' & Hck') & Hm').
  unfold bind at 1. unfold onRateLimitManager at 1.
  rewrite recordRequest_eq. intros Hfn.
  eexists. split; [| split; [| exact Hfn]].
  - unfold localStep. cbn. repeat split; try congruence. lia.
  - cbn. unfold worldNow. cbn. rewrite Em, Hm. reflexivity.
Qed.

(** From a settled world, and with fuel for 61 polls, the call gets as far
    as [fn]. *)
Lemma executeWithRateLimiting_reaches_fn (w : World) :
  (61 <= fuel)%nat -> settled est w ->
  exists admitted,
    settled est admitted
    /\ localStep w admitted
    /\ executeWithRateLimiting fuel fn est w = fn admitted.
Proof.
  intros Hfuel Hset.
  unfold executeWithRateLimiting. unfold bind at 1.
  destruct (throttle_step w) as (wa & Ea & (Hc & Hs & Hr & Hck) & Hm).
  rewrite Ea. unfold bind at 1. unfold onRateLimitManager at 1.
  assert (Hseta : settled est wa) by (eapply settled_later; eassumption).
  destruct (waitForRateLimit_ends_settled fuel est wa Hfuel Hseta)
    as (m' & wb & Ew).
  rewrite Ew. apply waitForRateLimit_inv in Ew.
  destruct Ew as (Em & (Hc' & Hs' & Hr' & Hck') & Hm').
  unfold bind at 1. unfold onRateLimitManager at 1. rewrite recordRequest_eq.
  eexists. split; [| split; [| reflexivity]].
  - destruct Hseta as [Hp Ha].
    split; unfold stampsInPast; cbn; unfold worldNow; cbn; rewrite Em.
    + apply inPast_recordedAt; [lia |]. apply inPast_prunedAt.
      eapply inPast_later; eassumption.
    + exact Ha.
  - unfold localStep. cbn. repeat split; try congruence. lia.
Qed.

End RateLimited.

(** *** Error responses *)

Lemma statusOfMessage_not_success (m : string) : statusOfMessage m <> SUCCESS.
Proof.
  unfold statusOfMessage.
  repeat match goal with
         | |- context [if ?b then _ else _] => destruct b
         end; discriminate.
Qed.

Lemma buildErrorResponse_facts (e : Thrown) (input : PromptInput.t) :
  PromptResponse.status (buildErrorResponse e input) <> SUCCESS
  /\ PromptResponse.error (buildErrorResponse e input) = Some (errorText e).
Proof.
  destruct e; cbn; split; try reflexivity; try discriminate.
  apply statusOfMessage_not_success.
Qed.

(** *** The retry loop around a rate-limited call *)

Section Pipeline.

Variable rm : RetryManager.
Variable fuel : nat.
Variable est : Z.
Variable input : PromptInput.t.

(** The function handed to [executeWithRateLimiting], and the error with
    which it rejects when it consumes entry [n] of the upstream script. *)
Variable call : Async World (Thrown + PromptResponse.t).
Variable failureAt : World -> nat -> option Thrown.

Hypothesis failureAt_frame :
  forall w w' n,
    completions w' = completions w -> streams w' = streams w ->
    failureAt w' n = failureAt w n.

Hypothesis call_spec :
  forall w,
  exists r w',
    call w = Some (r, w')
    /\ requests w' = S (requests w)
    /\ completions w' = completions w
    /\ streams w' = streams w
    /\ clock w <= clock w'
    /\ (settled est w -> settled est w')
    /\ match failureAt w (requests w) with
       | Some e => r = inl e
       | None =>
           exists resp,
             r = inr resp
             /\ PromptResponse.status resp = SUCCESS
             /\ requestTimestamps (rateLimitManager w')
                = (requestTimestamps (rateLimitManager w) ++ [clock w'])%list
       end.

Let attempt := guarded input (executeWithRateLimiting fuel call est).
Let onError := fun error : Thrown => buildErrorResponse error input.

Lemma attempt_inv (w : World) (r : Thrown + PromptResponse.t) (w' : World) :
  attempt w = Some (r, w') ->
  requests w' = S (requests w)
  /\ completions w' = completions w
  /\ streams w' = streams w
  /\ clock w <= clock w'
  /\ match failureAt w (requests w) with
     | Some e =>
         (r = inl e /\ isRetriableError e = true)
         \/ (r = inr (buildErrorResponse e input) /\ isRetriableError e = false)
     | None =>
         exists resp admitted,
           r = inr resp
           /\ PromptResponse.status resp = SUCCESS
           /\ clock w <= admitted <= clock w'
           /\ requestTimestamps (rateLimitManager w')
              = (filter (fun ts => ts >? admitted - RATE_LIMIT_WINDOW_MS)
                   (requestTimestamps (rateLimitManager w))
                 ++ [admitted; clock w'])%list
     end.
Proof.
  unfold attempt, guarded. unfold bind at 1.
  destruct (executeWithRateLimiting fuel call est w) as [[r0 w0] |] eqn:E;
    [| discriminate].
  apply executeWithRateLimiting_inv in E.
  destruct E as (wa & (Hc & Hs & Hr & Hck) & Hm & Ecall).
  destruct (call_spec wa) as (r1 & w1 & E1 & Hr1 & Hc1 & Hs1 & Hck1 & _ & Hout).
  rewrite E1 in Ecall. inversion Ecall; subst r1 w1; clear Ecall.
  rewrite Hr, (failureAt_frame w wa (requests w) Hc Hs) in Hout.
  intros H.
  assert (Hw : w' = w0)
    by (destruct r0 as [e|v]; [destruct (isRetriableError e) |];
        unfold ret in H; congruence).
  subst w0.
  repeat (split; [congruence || lia |]).
  destruct (failureAt w (requests w)) as [e|].
  - subst r0. destruct (isRetriableError e) eqn:R; unfold ret in H;
      inversion H; subst r; [left | right]; split; reflexivity.
  - destruct Hout as (resp & -> & Hst & Hts).
    unfold ret in H. inversion H; subst r.
    exists resp, (clock wa). split; [reflexivity |]. split; [exact Hst |].
    split; [lia |].
    rewrite Hts, Hm. cbn [recordedAt prunedAt requestTimestamps].
    rewrite <- app_assoc. reflexivity.
Qed.

Lemma attempt_total (w : World) :
  (61 <= fuel)%nat -> settled est w ->
  exists r w', attempt w = Some (r, w') /\ settled est w'.
Proof.
  intros Hfuel Hset. unfold attempt, guarded. unfold bind at 1.
  destruct (executeWithRateLimiting_reaches_fn fuel call est w Hfuel Hset)
    as (wa & Hseta & _ & E).
  rewrite E.
  destruct (call_spec wa) as (r1 & w1 & E1 & _ & _ & _ & _ & Hset1 & _).
  rewrite E1. specialize (Hset1 Hseta).
  destruct r1 as [e|v]; [destruct (isRetriableError e) |]; unfold ret; eauto.
Qed.

(** The pause between two attempts. *)
Lemma backoff_step (idx : Z) (w : World) :
  exists w',
    (delay <- retryCalculateDelay worldRandom rm idx ;;
     doSleep worldSleep delay) w = Some (tt, w')
    /\ localStep w w'
    /\ rateLimitManager w' = rateLimitManager w.
Proof.
  unfold retryCalculateDelay, bind, mathRandom, doSleep, ret.
  cbn [worldRandom]. eexists. split; [reflexivity |].
  unfold localStep. cbn. repeat split; lia.
Qed.

Lemma retryLoop_inv (iterations : nat) :
  forall idx lastError w resp w',
    retryLoop worldRandom worldSleep rm attempt onError iterations idx
      lastError w = Some (resp, w') ->
    completions w' = completions w
    /\ streams w' = streams w
    /\ (requests w <= requests w')%nat
    /\ (requests w' = requests w -> resp = onError lastError)
    /\ ((requests w < requests w')%nat ->
        match failureAt w (pred (requests w')) with
        | Some e => resp = buildErrorResponse e input
        | None => PromptResponse.status resp = SUCCESS
        end)
    /\ (requests w' = S (requests w) ->
        PromptResponse.status resp = SUCCESS ->
        attempt w = Some (inr resp, w')).
Proof.
  induction iterations as [|n IH]; intros idx lastError w resp w' H.
  { cbn in H. unfold ret in H. inversion H; subst.
    repeat split; try reflexivity; lia. }
  cbn [retryLoop] in H. destruct (idx <? maxAttempts rm).
  2:{ unfold ret in H. inversion H; subst.
      repeat split; try reflexivity; lia. }
  unfold bind at 1 in H.
  destruct (attempt w) as [[r w1] |] eqn:Ea; [| discriminate].
  pose proof (attempt_inv w r w1 Ea) as (Hr & Hc & Hs & _ & Hout).
  destruct r as [e | v].
  - (* the attempt threw [e] *)
    assert (Hfail : failureAt w (requests w) = Some e).
    { destruct (failureAt w (requests w)) as [e0|].
      - destruct Hout as [[E _] | [E _]]; congruence.
      - destruct Hout as (resp0 & a & E & _). discriminate. }
    destruct (negb (isRetriableError e)).
    + unfold ret in H. inversion H; subst resp w'.
      repeat split; try assumption; try lia.
      * intros _. rewrite Hr. cbn [pred]. now rewrite Hfail.
      * intros _ Hst. now destruct (buildErrorResponse_facts e input).
    + unfold bind at 1 in H.
      assert (Hpause : exists w2,
                 (if idx <? maxAttempts rm - 1
                  then delay <- retryCalculateDelay worldRandom rm idx ;;
                       doSleep worldSleep delay
                  else ret tt) w1 = Some (tt, w2)
                 /\ localStep w1 w2).
      { destruct (idx <? maxAttempts rm - 1).
        - destruct (backoff_step idx w1) as (w2 & E2 & L2 & _). eauto.
        - exists w1. split; [reflexivity |]. unfold localStep.
          repeat split; lia. }
      destruct Hpause as (w2 & E2 & (Hc2 & Hs2 & Hr2 & _)).
      rewrite E2 in H.
      apply IH in H. destruct H as (Hc' & Hs' & Hle & Heq & Hlt & _).
      repeat split; try congruence; try lia.
      * intros _. destruct (Nat.eq_dec (requests w') (requests w2)) as [E | N].
        -- rewrite (Heq E). replace (pred (requests w')) with (requests w) by lia.
           now rewrite Hfail.
        -- assert (Hlt' : (requests w2 < requests w')%nat) by lia.
           specialize (Hlt Hlt').
           rewrite (failureAt_frame w w2) in Hlt by congruence. exact Hlt.
      * intros E Hst. assert (E' : requests w' = requests w2) by lia.
        rewrite (Heq E') in Hst.
        now destruct (buildErrorResponse_facts e input).
  - (* the attempt returned [v] *)
    unfold ret in H. inversion H; subst resp w'.
    repeat split; try assumption; try lia.
    intros _. rewrite Hr. cbn [pred].
    destruct (failureAt w (requests w)) as [e0|].
    + destruct Hout as [[E _] | [E _]]; congruence.
    + destruct Hout as (resp0 & a & E & Hst & _). congruence.
Qed.

Lemma retryLoop_total (iterations : nat) :
  (61 <= fuel)%nat ->
  forall idx lastError w,
    settled est w ->
    exists resp w',
      retryLoop worldRandom worldSleep rm attempt onError iterations idx
        lastError w = Some (resp, w')
      /\ settled est w'.
Proof.
  intros Hfuel.
  induction iterations as [|n IH]; intros idx lastError w Hset.
  { cbn. unfold ret. eauto. }
  cbn [retryLoop]. destruct (idx <? maxAttempts rm); [| unfold ret; eauto].
  unfold bind at 1.
  destruct (attempt_total w Hfuel Hset) as (r & w1 & Ea & Hset1).
  rewrite Ea. destruct r as [e | v]; [| unfold ret; eauto].
  destruct (negb (isRetriableError e)); [unfold ret; eauto |].
  unfold bind at 1.
  destruct (idx <? maxAttempts rm - 1).
  - destruct (backoff_step idx w1) as (w2 & E2 & (_ & _ & _ & Hck) & Hm).
    rewrite E2. apply IH. eapply settled_later; eassumption.
  - unfold ret at 1. apply IH. exact Hset1.
Qed.

(** [executeWithRetry] around the rate-limited call: it settles, and its
    result is decided by the last upstream call that was made. *)
Lemma pipeline_inv (w : World) (resp : PromptResponse.t) (w' : World) :
  executeWithRetry worldRandom worldSleep rm attempt onError w
  = Some (resp, w') ->
  (requests w <= requests w')%nat
  /\ (requests w' = requests w -> resp = onError js_undefined)
  /\ ((requests w < requests w')%nat ->
      match failureAt w (pred (requests w')) with
      | Some e => resp = buildErrorResponse e input
      | None => PromptResponse.status resp = SUCCESS
      end)
  /\ (requests w' = S (requests w) ->
      PromptResponse.status resp = SUCCESS ->
      attempt w = Some (inr resp, w')).
Proof.
  unfold executeWithRetry. destruct (negb (enabled rm)).
  - unfold bind at 1.
    destruct (attempt w) as [[r w1] |] eqn:Ea; [| discriminate].
    pose proof (attempt_inv w r w1 Ea) as (Hr & _ & _ & _ & Hout).
    intros H.
    assert (Hw : w' = w1) by (destruct r; unfold ret in H; congruence).
    subst w1. repeat split; try lia.
    + intros _. rewrite Hr. cbn [pred].
      destruct (failureAt w (requests w)) as [e0|].
      * destruct Hout as [[-> _] | [-> _]]; unfold ret in H;
          inversion H; reflexivity.
      * destruct Hout as (resp0 & a & -> & Hst & _). unfold ret in H.
        inversion H; subst resp. exact Hst.
    + intros _ Hst. destruct r as [e | v]; unfold ret in H.
      * inversion H; subst resp.
        now destruct (buildErrorResponse_facts e input).
      * inversion H; reflexivity.
  - intros H. apply retryLoop_inv in H.
    destruct H as (_ & _ & Hle & Heq & Hlt & Hone). auto.
Qed.

Lemma pipeline_total (w : World) :
  (61 <= fuel)%nat -> settled est w ->
  exists resp w',
    executeWithRetry worldRandom worldSleep rm attempt onError w
    = Some (resp, w')
    /\ settled est w'.
Proof.
  intros Hfuel Hset. unfold executeWithRetry. destruct (negb (enabled rm)).
  - unfold bind at 1.
    destruct (attempt_total w Hfuel Hset) as (r & w1 & Ea & Hset1).
    rewrite Ea. destruct r; unfold ret; eauto.
  - apply retryLoop_total; assumption.
Qed.

End Pipeline.

(** *** The two calls that the service hands to executeWithRateLimiting *)

Ltac conjs := repeat match goal with |- _ /\ _ => split end.

Lemma promptCall_spec (input : PromptInput.t) (est : Z) (w : World) :
  exists r w',
    promptCall input w = Some (r, w')
    /\ requests w' = S (requests w)
    /\ completions w' = completions w
    /\ streams w' = streams w
    /\ clock w <= clock w'
    /\ (settled est w -> settled est w')
    /\ match promptFailure input (snd (completions w (requests w))) with
       | Some e => r = inl e
       | None =>
           exists resp,
             r = inr resp
             /\ PromptResponse.status resp = SUCCESS
             /\ requestTimestamps (rateLimitManager w')
                = (requestTimestamps (rateLimitManager w) ++ [clock w'])%list
       end.
Proof.
  unfold promptCall, promptFailure, bind, completionsCreate.
  destruct (completions w (requests w)) as [latency [e | response]];
    cbn [snd].
  - unfold ret. do 2 eexists. split; [reflexivity |]. cbn.
    conjs; try reflexivity; try lia.
    intros Hset. eapply settled_later; [exact Hset | cbn; lia | reflexivity].
  - unfold onRateLimitManager at 1. rewrite recordRequest_eq.
    assert (Hkeep : forall w',
               clock w' = clock w + Z.of_N latency ->
               rateLimitManager w'
               = recordedAt (clock w + Z.of_N latency)
                   (option_map totalTokens (completionUsage response))
                   (rateLimitManager w) ->
               settled est w -> settled est w').
    { intros w' Hck Hm Hset.
      eapply settled_recorded; [exact Hset | | | exact Hm]; lia. }
    destruct (parseAndValidateOutput _ _) as [e | [content structured]];
      unfold ret; do 2 eexists; (split; [reflexivity |]); cbn;
      conjs; try reflexivity; try lia;
      try (apply Hkeep; reflexivity).
    eexists. conjs; reflexivity.
Qed.

Lemma processChunks_eq (cs : list Chunk) :
  forall acc w,
  exists w',
    processChunks cs acc w = Some (collectChunks cs acc, w')
    /\ clock w' = clock w
    /\ completions w' = completions w
    /\ streams w' = streams w
    /\ requests w' = requests w
    /\ rateLimitManager w' = rateLimitManager w.
Proof.
  induction cs as [|chunk rest IH]; intros acc w.
  - exists w. cbn. unfold ret. repeat split.
  - cbn [processChunks collectChunks]. unfold bind at 1.
    destruct (nonEmpty (deltaContent chunk)) as [delta|].
    + unfold bind at 1, onChunk at 1, ret at 1.
      match goal with
      | |- context [processChunks rest ?a ?w1] =>
          destruct (IH a w1) as (w' & E & Hck & Hc & Hs & Hr & Hm)
      end.
      exists w'. split; [exact E |]. cbn in *. repeat split; assumption.
    + unfold ret at 1. apply IH.
Qed.

Lemma promptStreamCall_spec (this : OpenAIClientService.t)
    (input : PromptInput.t) (est : Z) (w : World) :
  exists r w',
    promptStreamCall this input w = Some (r, w')
    /\ requests w' = S (requests w)
    /\ completions w' = completions w
    /\ streams w' = streams w
    /\ clock w <= clock w'
    /\ (settled est w -> settled est w')
    /\ match promptStreamFailure input (snd (streams w (requests w))) with
       | Some e => r = inl e
       | None =>
           exists resp,
             r = inr resp
             /\ PromptResponse.status resp = SUCCESS
             /\ requestTimestamps (rateLimitManager w')
                = (requestTimestamps (rateLimitManager w) ++ [clock w'])%list
       end.
Proof.
  unfold promptStreamCall, promptStreamFailure, streamCompletion.
  unfold bind at 1. unfold bind at 1. unfold completionsCreateStream at 1.
  destruct (streams w (requests w)) as [latency script]; cbn [snd].
  unfold bind at 1.
  match goal with
  | |- context [processChunks ?cs ?a ?w1] =>
      destruct (processChunks_eq cs a w1) as (w2 & E & Hck & Hc & Hs & Hr & Hm)
  end.
  rewrite E. cbn in Hck, Hc, Hs, Hr, Hm.
  destruct (failure script) as [e |].
  - unfold ret. do 2 eexists. split; [reflexivity |].
    conjs; try congruence; try lia.
    intros Hset. eapply settled_later; [exact Hset | lia | exact Hm].
  - unfold ret at 1. unfold bind at 1. unfold onRateLimitManager at 1.
    rewrite recordRequest_eq.
    assert (Hkeep : forall w',
               clock w' = clock w2 ->
               rateLimitManager w'
               = recordedAt (clock w2) (Some (estimateTokens this input))
                   (rateLimitManager w2) ->
               settled est w -> settled est w').
    { intros w' Hck' Hm' Hset. rewrite Hm in Hm'.
      eapply settled_recorded; [exact Hset | | | exact Hm']; lia. }
    destruct (parseAndValidateOutput _ _) as [e | [content structured]];
      unfold ret; do 2 eexists; (split; [reflexivity |]); cbn;
      conjs; try congruence; try lia;
      try (apply Hkeep; reflexivity).
    eexists. conjs; try reflexivity. unfold worldNow. now rewrite Hm.
Qed.

(** *** prompt and promptStream *)

Lemma promptFailure_frame (input : PromptInput.t) (w w' : World) (n : nat) :
  completions w' = completions w -> streams w' = streams w ->
  promptFailure input (snd (completions w' n))
  = promptFailure input (snd (completions w n)).
Proof. intros -> _. reflexivity. Qed.

Lemma promptStreamFailure_frame (input : PromptInput.t) (w w' : World)
    (n : nat) :
  completions w' = completions w -> streams w' = streams w ->
  promptStreamFailure input (snd (streams w' n))
  = promptStreamFailure input (snd (streams w n)).
Proof. intros _ ->. reflexivity. Qed.

(** ** The number of upstream calls of one request *)

Lemma attemptsMade_le (failureOf : nat -> option Thrown) (iterations : nat) :
  forall start, (attemptsMade failureOf start iterations <= iterations)%nat.
Proof.
  induction iterations as [|n IH]; intros start; cbn; [lia |].
  destruct (failureOf start) as [e |]; [| lia].
  destruct (isRetriableError e); [specialize (IH (S start)) |]; lia.
Qed.

Section Calls.

Variable rm : RetryManager.
Variable fuel : nat.
Variable est : Z.
Variable input : PromptInput.t.
Variable call : Async World (Thrown + PromptResponse.t).
Variable failureAt : World -> nat -> option Thrown.

Hypothesis failureAt_frame :
  forall w w' n,
    completions w' = completions w -> streams w' = streams w ->
    failureAt w' n = failureAt w n.

Hypothesis call_spec :
  forall w,
  exists r w',
    call w = Some (r, w')
    /\ requests w' = S (requests w)
    /\ completions w' = completions w
    /\ streams w' = streams w
    /\ clock w <= clock w'
    /\ (settled est w -> settled est w')
    /\ match failureAt w (requests w) with
       | Some e => r = inl e
       | None =>
           exists resp,
             r = inr resp
             /\ PromptResponse.status resp = SUCCESS
             /\ requestTimestamps (rateLimitManager w')
                = (requestTimestamps (rateLimitManager w) ++ [clock w'])%list
       end.

Let attempt := guarded input (executeWithRateLimiting fuel call est).
Let onError := fun error : Thrown => buildErrorResponse error input.

Lemma retryLoop_calls (iterations : nat) :
  forall idx lastError w resp w',
    Z.of_nat iterations = Z.max 0 (maxAttempts rm - idx) ->
    retryLoop worldRandom worldSleep rm attempt onError iterations idx
      lastError w = Some (resp, w') ->
    requests w'
    = (requests w + attemptsMade (failureAt w) (requests w) iterations)%nat.
Proof.
  induction iterations as [|n IH]; intros idx lastError w resp w' Hinv H.
  { cbn in H. unfold ret in H. inversion H; subst. cbn. lia. }
  cbn [retryLoop] in H.
  replace (idx <? maxAttempts rm) with true in H
    by (symmetry; apply Z.ltb_lt; lia).
  unfold bind at 1 in H.
  destruct (attempt w) as [[r w1] |] eqn:Ea; [| discriminate].
  pose proof (attempt_inv fuel est input call failureAt failureAt_frame
                call_spec w r w1 Ea) as (Hr & Hc & Hs & _ & Hout).
  cbn [attemptsMade].
  destruct (failureAt w (requests w)) as [e |].
  - destruct Hout as [[-> Re] | [-> Re]]; rewrite Re.
    + rewrite Re in H. cbn [negb] in H. unfold bind at 1 in H.
      assert (Hpause : exists w2,
                 (if idx <? maxAttempts rm - 1
                  then delay <- retryCalculateDelay worldRandom rm idx ;;
                       doSleep worldSleep delay
                  else ret tt) w1 = Some (tt, w2)
                 /\ localStep w1 w2).
      { destruct (idx <? maxAttempts rm - 1).
        - destruct (backoff_step rm idx w1) as (w2 & E2 & L2 & _). eauto.
        - exists w1. split; [reflexivity |]. unfold localStep.
          repeat split; lia. }
      destruct Hpause as (w2 & E2 & (Hc2 & Hs2 & Hr2 & _)).
      rewrite E2 in H. apply IH in H; [| lia].
      rewrite H, Hr2, Hr.
      replace (attemptsMade (failureAt w2) (S (requests w)) n)
        with (attemptsMade (failureAt w) (S (requests w)) n); [lia |].
      clear -failureAt_frame Hc Hs Hc2 Hs2.
      generalize (S (requests w)). induction n as [|n IHn]; intros s; cbn;
        [reflexivity |].
      rewrite (failureAt_frame w w2) by congruence.
      destruct (failureAt w s) as [e0 |]; [| reflexivity].
      destruct (isRetriableError e0); [now rewrite IHn | reflexivity].
    + unfold ret in H. inversion H; subst. lia.
  - destruct Hout as (resp0 & a & -> & _). unfold ret in H.
    inversion H; subst. lia.
Qed.

Lemma pipeline_calls (w : World) (resp : PromptResponse.t) (w' : World) :
  executeWithRetry worldRandom worldSleep rm attempt onError w
  = Some (resp, w') ->
  requests w'
  = (requests w
     + if enabled rm
       then attemptsMade (failureAt w) (requests w) (Z.to_nat (maxAttempts rm))
       else 1)%nat.
Proof.
  unfold executeWithRetry. destruct (enabled rm); cbn [negb].
  - intros H. apply retryLoop_calls in H; [exact H | lia].
  - unfold bind at 1.
    destruct (attempt w) as [[r w1] |] eqn:Ea; [| discriminate].
    pose proof (attempt_inv fuel est input call failureAt failureAt_frame
                  call_spec w r w1 Ea) as (Hr & _).
    intros H. assert (w' = w1) by (destruct r; unfold ret in H; congruence).
    subst. lia.
Qed.

Lemma pipeline_answers (w : World) (resp : PromptResponse.t) (w' : World) :
  executeWithRetry worldRandom worldSleep rm attempt onError w
  = Some (resp, w') ->
  requests w' = (requests w + callsMade rm (failureAt w) (requests w))%nat
  /\ answersLastCall (failureAt w) input (requests w)
       (callsMade rm (failureAt w) (requests w)) resp.
Proof.
  intros E.
  pose proof (pipeline_calls w resp w' E) as Hn.
  fold (callsMade rm (failureAt w) (requests w)) in Hn.
  split; [exact Hn |].
  apply (pipeline_inv rm fuel est input call failureAt failureAt_frame
           call_spec) in E.
  destruct E as (_ & Heq & Hlt & _).
  unfold answersLastCall.
  destruct (callsMade rm (failureAt w) (requests w)) as [|k].
  - apply Heq. lia.
  - replace (requests w + k)%nat with (pred (requests w')) by lia.
    apply Hlt. lia.
Qed.

End Calls.

(** C2, as amended.  From a world in which the rate-limit wait can end,
    [prompt] and [promptStream] settle with a response (a rejection
    cannot leave them: [executeWithRetry] catches whatever the attempt
    throws), in a world in which the wait can end again.  They make the
    upstream calls that the retry policy prescribes, and the response
    belongs to the last of them: when that call fails with [e] (an error
    of [create] or of the stream, or a schema mismatch of its answer),
    the response is the error response built from [e]; when it does not
    fail, the response is successful; and without any call the response
    is the error response of [undefined].  Every error response has one
    of the six non-success statuses and its [error] field holds the
    message. *)
Theorem prompt_failure_is_returned_as_error_response
    (this : OpenAIClientService.t) (fuel : nat) (input : PromptInput.t)
    (w : World) :
  (61 <= fuel)%nat ->
  settled (estimateTokens this input) w ->
  (exists resp w',
      prompt this fuel input w = Some (resp, w')
      /\ settled (estimateTokens this input) w'
      /\ requests w'
         = (requests w
            + callsMade (OpenAIClientService.retryManager this)
                (fun n => promptFailure input (snd (completions w n)))
                (requests w))%nat
      /\ answersLastCall
           (fun n => promptFailure input (snd (completions w n)))
           input (requests w)
           (callsMade (OpenAIClientService.retryManager this)
              (fun n => promptFailure input (snd (completions w n)))
              (requests w))
           resp)
  /\ (exists resp w',
         promptStream this fuel input w = Some (resp, w')
         /\ settled (estimateTokens this input) w'
         /\ requests w'
            = (requests w
               + callsMade (OpenAIClientService.retryManager this)
                   (fun n => promptStreamFailure input (snd (streams w n)))
                   (requests w))%nat
         /\ answersLastCall
              (fun n => promptStreamFailure input (snd (streams w n)))
              input (requests w)
              (callsMade (OpenAIClientService.retryManager this)
                 (fun n => promptStreamFailure input (snd (streams w n)))
                 (requests w))
              resp)
  /\ (forall e,
         PromptResponse.status (buildErrorResponse e input) <> SUCCESS
         /\ PromptResponse.error (buildErrorResponse e input)
            = Some (errorText e)).
Proof.
  intros Hfuel Hset. split; [| split].
  - destruct (pipeline_total (OpenAIClientService.retryManager this) fuel
                (estimateTokens this input) input (promptCall input)
                (fun w n => promptFailure input (snd (completions w n)))
                (fun w => promptCall_spec input (estimateTokens this input) w)
                w Hfuel Hset) as (resp & w' & E & Hset').
    exists resp, w'. split; [exact E |]. split; [exact Hset' |].
    apply (pipeline_answers (OpenAIClientService.retryManager this) fuel
             (estimateTokens this input) input (promptCall input)
             (fun w n => promptFailure input (snd (completions w n)))
             (promptFailure_frame input)
             (fun w => promptCall_spec input (estimateTokens this input) w)).
    exact E.
  - destruct (pipeline_total (OpenAIClientService.retryManager this) fuel
                (estimateTokens this input) input (promptStreamCall this input)
                (fun w n => promptStreamFailure input (snd (streams w n)))
                (fun w => promptStreamCall_spec this input
                            (estimateTokens this input) w)
                w Hfuel Hset) as (resp & w' & E & Hset').
    exists resp, w'. split; [exact E |]. split; [exact Hset' |].
    apply (pipeline_answers (OpenAIClientService.retryManager this) fuel
             (estimateTokens this input) input (promptStreamCall this input)
             (fun w n => promptStreamFailure input (snd (streams w n)))
             (promptStreamFailure_frame input)
             (fun w => promptStreamCall_spec this input
                         (estimateTokens this input) w)).
    exact E.
  - intros e. apply buildErrorResponse_facts.
Qed.

Lemma prompt_failure_is_returned_as_error_response_witness :
  (exists resp w',
      prompt ScenarioA.service 61 ScenarioA.input Unauthorized.world
      = Some (resp, w')
      /\ settled (estimateTokens ScenarioA.service ScenarioA.input) w'
      /\ requests w'
         = (requests Unauthorized.world
            + callsMade (OpenAIClientService.retryManager ScenarioA.service)
                (fun n => promptFailure ScenarioA.input
                            (snd (completions Unauthorized.world n)))
                (requests Unauthorized.world))%nat
      /\ answersLastCall
           (fun n => promptFailure ScenarioA.input
                       (snd (completions Unauthorized.world n)))
           ScenarioA.input (requests Unauthorized.world)
           (callsMade (OpenAIClientService.retryManager ScenarioA.service)
              (fun n => promptFailure ScenarioA.input
                          (snd (completions Unauthorized.world n)))
              (requests Unauthorized.world))
           resp)
  /\ (exists resp w',
         promptStream ScenarioA.service 61 ScenarioA.input Unauthorized.world
         = Some (resp, w')
         /\ settled (estimateTokens ScenarioA.service ScenarioA.input) w'
         /\ requests w'
            = (requests Unauthorized.world
               + callsMade (OpenAIClientService.retryManager ScenarioA.service)
                   (fun n => promptStreamFailure ScenarioA.input
                               (snd (streams Unauthorized.world n)))
                   (requests Unauthorized.world))%nat
         /\ answersLastCall
              (fun n => promptStreamFailure ScenarioA.input
                          (snd (streams Unauthorized.world n)))
              ScenarioA.input (requests Unauthorized.world)
              (callsMade (OpenAIClientService.retryManager ScenarioA.service)
                 (fun n => promptStreamFailure ScenarioA.input
                             (snd (streams Unauthorized.world n)))
                 (requests Unauthorized.world))
              resp)
  /\ (forall e,
         PromptResponse.status (buildErrorResponse e ScenarioA.input)
         <> SUCCESS
         /\ PromptResponse.error (buildErrorResponse e ScenarioA.input)
            = Some (errorText e)).
Proof.
  apply (prompt_failure_is_returned_as_error_response
           ScenarioA.service 61 ScenarioA.input Unauthorized.world).
  - lia.
  - split; [split; constructor | split; vm_compute; [discriminate | left; discriminate]].
Defined.

(** C2, as stated, fails: the first upstream call of this request throws
    a 503, the retry engine calls again, the second call answers, and the
    call returns a successful response without any error. *)
Lemma prompt_retried_error_is_not_reported :
  match prompt ScenarioA.service 61 ScenarioA.input RetriedCall.world with
  | Some (resp, w') =>
      snd (completions RetriedCall.world 0)
      = inl (ErrorObject "503 Service Unavailable" (Num 503) Absent)
      /\ requests RetriedCall.world = 0%nat
      /\ requests w' = 2%nat
      /\ PromptResponse.status resp = SUCCESS
      /\ PromptResponse.error resp = None
  | None => False
  end.
Proof. vm_compute. repeat split. Qed.

(** The run behind the witness: one upstream call, an [api_error] response
    that carries the message of the rejection. *)
Example prompt_unauthorized_run :
  match prompt ScenarioA.service 61 ScenarioA.input Unauthorized.world with
  | Some (resp, w') =>
      PromptResponse.status resp = API_ERROR
      /\ PromptResponse.error resp = Some "401 Incorrect API key provided"
      /\ requests w' = 1%nat
  | None => False
  end.
Proof. vm_compute. repeat split. Qed.

(** C9, as amended.  A [prompt] call that succeeds at its first attempt
    (one upstream call) leaves the sequence of request timestamps pruned
    and extended by exactly two entries: the time of admission, recorded
    with the estimate, and the time at which the response arrived,
    recorded with the reported usage, whether or not any usage was
    reported. *)
Theorem prompt_first_attempt_success_appends_two
    (this : OpenAIClientService.t) (fuel : nat) (input : PromptInput.t)
    (w : World) (resp : PromptResponse.t) (w' : World) :
  prompt this fuel input w = Some (resp, w') ->
  PromptResponse.status resp = SUCCESS ->
  requests w' = S (requests w) ->
  exists admitted,
    clock w <= admitted <= clock w'
    /\ requestTimestamps (rateLimitManager w')
       = (filter (fun ts => ts >? admitted - RATE_LIMIT_WINDOW_MS)
            (requestTimestamps (rateLimitManager w))
          ++ [admitted; clock w'])%list.
Proof.
  intros E Hst Hone.
  apply (pipeline_inv (OpenAIClientService.retryManager this) fuel
           (estimateTokens this input) input (promptCall input)
           (fun w n => promptFailure input (snd (completions w n)))
           (promptFailure_frame input)
           (fun w => promptCall_spec input (estimateTokens this input) w))
    in E.
  destruct E as (_ & _ & _ & Hfirst).
  specialize (Hfirst Hone Hst).
  apply (attempt_inv fuel (estimateTokens this input) input (promptCall input)
           (fun w n => promptFailure input (snd (completions w n)))
           (promptFailure_frame input)
           (fun w => promptCall_spec input (estimateTokens this input) w))
    in Hfirst.
  destruct Hfirst as (_ & _ & _ & _ & Hout). cbv beta in Hout.
  destruct (promptFailure _ _) as [e |].
  - destruct Hout as [[Habs _] | [Habs _]]; [discriminate |].
    inversion Habs; subst resp.
    now destruct (buildErrorResponse_facts e input).
  - destruct Hout as (resp0 & admitted & _ & _ & Hck & Hts).
    exists admitted. split; assumption.
Qed.

Lemma prompt_first_attempt_success_appends_two_witness :
  exists admitted,
    clock ScenarioA.world <= admitted <= clock ScenarioA.afterFirst
    /\ requestTimestamps (rateLimitManager ScenarioA.afterFirst)
       = (filter (fun ts => ts >? admitted - RATE_LIMIT_WINDOW_MS)
            (requestTimestamps (rateLimitManager ScenarioA.world))
          ++ [admitted; clock ScenarioA.afterFirst])%list.
Proof.
  apply (prompt_first_attempt_success_appends_two ScenarioA.service 61
           ScenarioA.input ScenarioA.world ScenarioA.firstResponse
           ScenarioA.afterFirst).
  - vm_compute. reflexivity.
  - vm_compute. reflexivity.
  - vm_compute. reflexivity.
Defined.

(** C9, as stated, fails: with the default three attempts, a call whose
    first upstream call is rejected with a 503 and whose second one
    answers is successful and has appended three entries to an empty
    sequence, one per admission and one for the response. *)
Lemma prompt_success_after_retry_appends_three :
  match prompt ScenarioA.service 61 ScenarioA.input RetriedCall.world with
  | Some (resp, w') =>
      PromptResponse.status resp = SUCCESS
      /\ requestTimestamps (rateLimitManager RetriedCall.world) = []
      /\ requestTimestamps (rateLimitManager w')
         = [1000000; 1001175; 1001375]
      /\ requests w' = 2%nat
  | None => False
  end.
Proof. vm_compute. repeat split. Qed.

(** C1 on the code.  A client with [requestsPerMinute = 2] and no token
    limit, two [prompt] calls one after the other, each answered after
    200 ms.  The first call is admitted at once and leaves two timestamps
    in the window, its admission and its response; the second call
    therefore finds the limit reached, polls 60 times at intervals of
    1000 ms and is admitted 60 s after the first call's response. *)
Theorem scenario_A_second_call_waits_a_minute :
  match ScenarioA.twoCalls 61 with
  | Some ((r1, w1), (r2, w2)) =>
      PromptResponse.status r1 = SUCCESS
      /\ sleeps w1 = []
      /\ requestTimestamps (rateLimitManager w1) = [1000000; 1000200]
      /\ PromptResponse.status r2 = SUCCESS
      /\ sleeps w2 = repeat 1000%Q 60
      /\ requestTimestamps (rateLimitManager w2) = [1060200; 1060400]
      /\ clock w2 - clock w1 = 60200
  | None => False
  end
  /\ ScenarioA.twoCalls 60 = None.
Proof. vm_compute. repeat split. Qed.

(** * Further properties of the code *)

(** ** RateLimitManager *)

Lemma filter_idempotent {A} (f : A -> bool) (l : list A) :
  filter f (filter f l) = filter f l.
Proof. apply filter_filter_weaker. auto. Qed.

Lemma prunedAt_idempotent (now : Z) (m : RateLimitManager) :
  prunedAt now (prunedAt now m) = prunedAt now m.
Proof. apply prunedAt_prunedAt. lia. Qed.

(** X1. An admission check leaves only entries that lie inside the window
    at the time of the check, loses none that does, and is idempotent: a
    second check at the same clock reading gives the same answer and
    changes nothing. *)
Theorem canMakeRequest_prunes_and_is_idempotent {W} (dateNow : W -> Z)
    (est : Z) (m : RateLimitManager) (w : W) :
  exists answer m',
    canMakeRequest dateNow est m w = Some ((answer, m'), w)
    /\ Forall (inWindow (dateNow w)) (requestTimestamps m')
    /\ Forall (fun t => inWindow (dateNow w) (timestamp t)) (tokenTimestamps m')
    /\ (forall ts, In ts (requestTimestamps m) -> inWindow (dateNow w) ts ->
                   In ts (requestTimestamps m'))
    /\ (forall t, In t (tokenTimestamps m) -> inWindow (dateNow w) (timestamp t) ->
                  In t (tokenTimestamps m'))
    /\ canMakeRequest dateNow est m' w = Some ((answer, m'), w).
Proof.
  rewrite canMakeRequest_eq. do 2 eexists. split; [reflexivity |].
  split; [| split; [| split; [| split]]].
  - apply Forall_forall. intros ts H. cbn in H. apply filter_In in H.
    now apply inWindow_gtb.
  - apply Forall_forall. intros t H. cbn in H. apply filter_In in H.
    now apply inWindow_gtb.
  - intros ts Hin Hw. cbn. apply filter_In. split; [exact Hin |].
    now apply inWindow_gtb.
  - intros t Hin Hw. cbn. apply filter_In. split; [exact Hin |].
    now apply inWindow_gtb.
  - rewrite canMakeRequest_eq, prunedAt_idempotent. reflexivity.
Qed.

(** X2. A manager with neither limit set admits every request at every
    time, whatever its history and the estimate, and the wait for
    admission returns at the first check, on the unchanged runtime state
    (no timer is set, whatever [sleep] is). *)
Theorem unlimited_manager_always_admits {W} (dateNow : W -> Z)
    (sleep : Q -> W -> W) (est : Z) (m : RateLimitManager) (fuel : nat)
    (w : W) :
  requestsPerMinute m = None ->
  tokensPerMinute m = None ->
  canMakeRequest dateNow est m w = Some ((true, prunedAt (dateNow w) m), w)
  /\ waitForRateLimit dateNow sleep (S fuel) est m w
     = Some (prunedAt (dateNow w) m, w).
Proof.
  intros Hr Ht.
  assert (E : canMakeRequest dateNow est m w
              = Some ((true, prunedAt (dateNow w) m), w)).
  { rewrite canMakeRequest_eq.
    unfold isRequestRateLimitExceeded, isTokenRateLimitExceeded.
    cbn [prunedAt requestsPerMinute tokensPerMinute]. now rewrite Hr, Ht. }
  split; [exact E |].
  cbn [waitForRateLimit]. unfold bind. rewrite E. reflexivity.
Qed.

Lemma unlimited_manager_always_admits_witness :
  canMakeRequest (fun now : Z => now) 5000
    (mkRateLimitManager None None [10; 70000; 70001]
       [mkTokenEvent 70000 900000]) 70001
  = Some ((true,
           prunedAt 70001
             (mkRateLimitManager None None [10; 70000; 70001]
                [mkTokenEvent 70000 900000])), 70001)
  /\ waitForRateLimit (fun now : Z => now) (fun (_ : Q) (now : Z) => now + 1000)
       (S 0) 5000
       (mkRateLimitManager None None [10; 70000; 70001]
          [mkTokenEvent 70000 900000]) 70001
     = Some (prunedAt 70001
               (mkRateLimitManager None None [10; 70000; 70001]
                  [mkTokenEvent 70000 900000]), 70001).
Proof.
  apply (unlimited_manager_always_admits (fun now : Z => now)
           (fun (_ : Q) (now : Z) => now + 1000) 5000
           (mkRateLimitManager None None [10; 70000; 70001]
              [mkTokenEvent 70000 900000]) 0 70001); reflexivity.
Defined.

Lemma tokenSum_from (l : list TokenEvent) (a : Z) :
  fold_left (fun sum t => sum + tokens t) l a = a + tokenSum l.
Proof.
  unfold tokenSum. revert a. induction l as [|t l IH]; intros a; cbn.
  - lia.
  - rewrite (IH (a + tokens t)), (IH (tokens t)). lia.
Qed.

Lemma tokenSum_cons (t : TokenEvent) (l : list TokenEvent) :
  tokenSum (t :: l) = tokens t + tokenSum l.
Proof. unfold tokenSum at 1. cbn. rewrite tokenSum_from. lia. Qed.

Lemma tokenSum_app (l1 l2 : list TokenEvent) :
  tokenSum (l1 ++ l2) = tokenSum l1 + tokenSum l2.
Proof.
  induction l1 as [|t l1 IH]; [reflexivity |].
  cbn [app]. rewrite !tokenSum_cons, IH. lia.
Qed.

Lemma tokenSum_nonneg (l : list TokenEvent) :
  Forall (fun t => 0 <= tokens t) l -> 0 <= tokenSum l.
Proof.
  induction 1 as [|t l Ht _ IH]; [reflexivity |].
  rewrite tokenSum_cons. lia.
Qed.

Lemma wait_blocked_above_token_limit {W} (dateNow : W -> Z)
    (sleep : Q -> W -> W) (est limit : Z) (fuel : nat) :
  forall (m : RateLimitManager) (w : W),
    tokensPerMinute m = Some limit ->
    0 <= limit -> limit < est ->
    Forall (fun t => 0 <= tokens t) (tokenTimestamps m) ->
    waitForRateLimit dateNow sleep fuel est m w = None.
Proof.
  induction fuel as [|fuel IH]; intros m w Ht H0 Hlt Hpos; [reflexivity |].
  cbn [waitForRateLimit]. unfold bind. rewrite canMakeRequest_eq. cbn [fst snd].
  assert (Hpos' : Forall (fun t => 0 <= tokens t)
                    (tokenTimestamps (prunedAt (dateNow w) m))).
  { cbn. rewrite Forall_forall in *. intros t H. apply filter_In in H.
    apply Hpos, H. }
  assert (Hex : isTokenRateLimitExceeded (prunedAt (dateNow w) m) est = true).
  { unfold isTokenRateLimitExceeded. cbn [prunedAt tokensPerMinute].
    rewrite Ht. replace (est =? 0) with false by (symmetry; apply Z.eqb_neq; lia).
    fold (tokenSum (tokenTimestamps (prunedAt (dateNow w) m))).
    pose proof (tokenSum_nonneg _ Hpos').
    rewrite Z.gtb_ltb. apply Z.ltb_lt. lia. }
  rewrite Hex, andb_false_r. unfold doSleep.
  apply IH with (w := sleep THROTTLE_CHECK_INTERVAL_MS w); try assumption.
Qed.

(** X3. A request whose estimate exceeds the token limit is never
    admitted: when no recorded token amount is negative (as for every
    window that [recordRequest] has filled), the wait for admission does
    not end, however many polls it makes and whatever the runtime does. *)
Theorem waitForRateLimit_never_ends_above_token_limit {W} (dateNow : W -> Z)
    (sleep : Q -> W -> W) (est limit : Z) (fuel : nat)
    (m : RateLimitManager) (w : W) :
  tokensPerMinute m = Some limit ->
  0 <= limit -> limit < est ->
  Forall (fun t => 0 <= tokens t) (tokenTimestamps m) ->
  waitForRateLimit dateNow sleep fuel est m w = None.
Proof. apply wait_blocked_above_token_limit. Qed.

Lemma waitForRateLimit_never_ends_above_token_limit_witness :
  waitForRateLimit worldNow worldSleep 500 1001
    (mkRateLimitManager (Some 60) (Some 1000) [] []) ScenarioA.world = None.
Proof.
  apply (waitForRateLimit_never_ends_above_token_limit worldNow worldSleep
           1001 1000 500
           (mkRateLimitManager (Some 60) (Some 1000) [] []) ScenarioA.world);
    [reflexivity | lia | lia | constructor].
Defined.

Lemma prompt_blocked_above_token_limit
    (this : OpenAIClientService.t) (fuel : nat) (input : PromptInput.t)
    (w : World) (limit : Z) :
  tokensPerMinute (rateLimitManager w) = Some limit ->
  0 <= limit -> limit < estimateTokens this input ->
  Forall (fun t => 0 <= tokens t) (tokenTimestamps (rateLimitManager w)) ->
  enabled (OpenAIClientService.retryManager this) = false
  \/ 1 <= maxAttempts (OpenAIClientService.retryManager this) ->
  prompt this fuel input w = None /\ promptStream this fuel input w = None.
Proof.
  intros Ht H0 Hlt Hpos Hrm.
  assert (Hwait : forall T (fn : Async World T),
             executeWithRateLimiting fuel fn (estimateTokens this input) w = None).
  { intros T fn. unfold executeWithRateLimiting. unfold bind at 1.
    destruct (throttle_step w) as (wa & Ea & _ & Hm). rewrite Ea.
    unfold bind at 1. unfold onRateLimitManager at 1.
    rewrite (wait_blocked_above_token_limit worldNow worldSleep
               (estimateTokens this input) limit fuel (rateLimitManager wa) wa);
      try rewrite Hm; try assumption. reflexivity. }
  assert (Hrun : forall attempt : Async World (Thrown + PromptResponse.t),
             attempt w = None ->
             executeWithRetry worldRandom worldSleep
               (OpenAIClientService.retryManager this) attempt
               (fun error => buildErrorResponse error input) w = None).
  { intros attempt Ha. unfold executeWithRetry.
    destruct Hrm as [Hdis | Hmax].
    - rewrite Hdis. cbn [negb]. unfold bind. now rewrite Ha.
    - destruct (negb _); [unfold bind; now rewrite Ha |].
      destruct (Z.to_nat _) as [|n] eqn:En; [lia |].
      cbn [retryLoop].
      replace (0 <? _) with true by (symmetry; apply Z.ltb_lt; lia).
      unfold bind. now rewrite Ha. }
  split; apply Hrun.
  - unfold promptAttempt, bind. now rewrite Hwait.
  - unfold promptStreamAttempt, bind. now rewrite Hwait.
Qed.


(** X4. [prompt] and [promptStream] do not settle when the estimate of the
    request exceeds [tokensPerMinute]: the first attempt stays in the
    rate-limit wait for ever, before any upstream call (retry disabled, or
    at least one attempt allowed). *)
Theorem prompt_never_settles_above_token_limit
    (this : OpenAIClientService.t) (fuel : nat) (input : PromptInput.t)
    (w : World) (limit : Z) :
  tokensPerMinute (rateLimitManager w) = Some limit ->
  0 <= limit -> limit < estimateTokens this input ->
  Forall (fun t => 0 <= tokens t) (tokenTimestamps (rateLimitManager w)) ->
  enabled (OpenAIClientService.retryManager this) = false
  \/ 1 <= maxAttempts (OpenAIClientService.retryManager this) ->
  prompt this fuel input w = None /\ promptStream this fuel input w = None.
Proof. apply prompt_blocked_above_token_limit. Qed.

Lemma prompt_never_settles_above_token_limit_witness :
  prompt ScenarioA.service 1000 ScenarioA.input
    (setRateLimitManager (newRateLimitManager None (Some 1000)) ScenarioA.world)
  = None
  /\ promptStream ScenarioA.service 1000 ScenarioA.input
       (setRateLimitManager (newRateLimitManager None (Some 1000)) ScenarioA.world)
     = None.
Proof.
  apply (prompt_never_settles_above_token_limit ScenarioA.service 1000
           ScenarioA.input
           (setRateLimitManager (newRateLimitManager None (Some 1000))
              ScenarioA.world) 1000).
  - reflexivity.
  - lia.
  - vm_compute. reflexivity.
  - constructor.
  - right. simpl. lia.
Defined.

(** ** Admission among overlapping calls *)

Lemma world_eta (w : World) : setRateLimitManager (rateLimitManager w) w = w.
Proof. destruct w; reflexivity. Qed.

(** With nobody else in flight, the wait on the shared window is the wait
    of [RateLimitManager] run on the manager of the world. *)
Lemma waitForRateLimitAmong_alone (est : Z) (fuel : nat) :
  forall m w,
    waitForRateLimitAmong nobodyElse fuel est (setRateLimitManager m w)
    = match waitForRateLimit worldNow worldSleep fuel est m w with
      | Some (m', w') => Some (tt, setRateLimitManager m' w')
      | None => None
      end.
Proof.
  induction fuel as [|fuel IH]; intros m w; [reflexivity |].
  cbn [waitForRateLimitAmong waitForRateLimit].
  unfold bind at 1. unfold canMakeRequestShared.
  cbn [rateLimitManager setRateLimitManager].
  unfold bind at 2. rewrite !canMakeRequest_eq. cbn [fst snd].
  destruct (negb _ && negb _); [reflexivity |].
  unfold bind, doSleep, sleepAmong, nobodyElse.
  exact (IH (prunedAt (worldNow w) m) (worldSleep THROTTLE_CHECK_INTERVAL_MS w)).
Qed.

(** And the whole admission sequence is [executeWithRateLimiting]. *)
Lemma executeWithRateLimitingAmong_alone {T} (fuel : nat)
    (fn : Async World T) (est : Z) (w : World) :
  executeWithRateLimitingAmong nobodyElse fuel fn est w
  = executeWithRateLimiting fuel fn est w.
Proof.
  unfold executeWithRateLimitingAmong, executeWithRateLimiting, bind, resume,
    nobodyElse.
  change (throttle worldNow worldRandom (sleepAmong (fun _ w0 => w0) ThrottleTimer))
    with (throttle worldNow worldRandom worldSleep).
  destruct (onThrottleManager _ w) as [[[] wa] |]; [| reflexivity].
  pose proof (waitForRateLimitAmong_alone est fuel (rateLimitManager wa) wa)
    as E.
  rewrite world_eta in E. unfold nobodyElse in E. rewrite E. clear E.
  unfold onRateLimitManager.
  destruct (waitForRateLimit _ _ _ _ _ wa) as [[m' wb] |]; reflexivity.
Qed.

Lemma waitForRateLimitAmong_inv (others : AwaitPoint -> World -> World)
    (est : Z) (fuel : nat) :
  keepsWindow others ->
  forall w w',
    waitForRateLimitAmong others fuel est w = Some (tt, w') ->
    isRequestRateLimitExceeded (rateLimitManager w') = false
    /\ isTokenRateLimitExceeded (rateLimitManager w') est = false
    /\ requestsPerMinute (rateLimitManager w')
       = requestsPerMinute (rateLimitManager w)
    /\ tokensPerMinute (rateLimitManager w')
       = tokensPerMinute (rateLimitManager w)
    /\ clock w <= clock w'.
Proof.
  intros Hk. induction fuel as [|fuel IH]; intros w w' H; [discriminate |].
  cbn [waitForRateLimitAmong] in H. unfold bind at 1 in H.
  unfold canMakeRequestShared in H. rewrite canMakeRequest_eq in H.
  cbn [fst snd] in H.
  destruct (negb _ && negb _) eqn:E.
  - unfold ret in H. inversion H; subst w'; clear H.
    apply andb_true_iff in E. destruct E as [E1 E2].
    apply negb_true_iff in E1, E2.
    cbn [rateLimitManager setRateLimitManager clock].
    repeat split; try assumption. lia.
  - unfold bind, doSleep, sleepAmong in H. apply IH in H.
    destruct (Hk PollTimer
                (worldSleep THROTTLE_CHECK_INTERVAL_MS
                   (setRateLimitManager
                      (prunedAt (worldNow w) (rateLimitManager w)) w)))
      as [Hm Hc].
    rewrite Hm in H. cbn [rateLimitManager worldSleep setRateLimitManager
                            prunedAt requestsPerMinute tokensPerMinute] in H.
    cbn [clock worldSleep setRateLimitManager] in Hc.
    destruct H as (H1 & H2 & H3 & H4 & H5).
    repeat split; try assumption. lia.
Qed.

(** The wait among others ends at the latest with the poll at which
    every entry has left the window. *)
Lemma waitForRateLimitAmong_ends (others : AwaitPoint -> World -> World)
    (est : Z) (k : nat) :
  keepsWindow others ->
  forall fuel w,
    (k < fuel)%nat ->
    emptyWindowAdmits est (rateLimitManager w) ->
    Forall (fun ts => ts <= clock w + 1000 * Z.of_nat k - RATE_LIMIT_WINDOW_MS)
      (requestTimestamps (rateLimitManager w)) ->
    Forall (fun t => timestamp t
                     <= clock w + 1000 * Z.of_nat k - RATE_LIMIT_WINDOW_MS)
      (tokenTimestamps (rateLimitManager w)) ->
    exists w', waitForRateLimitAmong others fuel est w = Some (tt, w').
Proof.
  intros Hk.
  induction k as [|k IH]; intros fuel w Hfuel Hadm Hreq Htok;
    (destruct fuel as [|fuel]; [lia |]);
    cbn [waitForRateLimitAmong]; unfold bind at 1;
    unfold canMakeRequestShared; rewrite canMakeRequest_eq; cbn [fst snd].
  - rewrite emptied_window_admits.
    + unfold ret. eauto.
    + exact Hadm.
    + cbn. apply filter_drops_all. intros ts Hin.
      rewrite Forall_forall in Hreq. specialize (Hreq ts Hin).
      rewrite Z.gtb_ltb. apply Z.ltb_ge. unfold worldNow. lia.
    + cbn. apply filter_drops_all. intros t Hin.
      rewrite Forall_forall in Htok. specialize (Htok t Hin).
      rewrite Z.gtb_ltb. apply Z.ltb_ge. unfold worldNow. lia.
  - destruct (negb _ && negb _); [unfold ret; eauto |].
    unfold bind, doSleep, sleepAmong.
    destruct (Hk PollTimer
                (worldSleep THROTTLE_CHECK_INTERVAL_MS
                   (setRateLimitManager
                      (prunedAt (worldNow w) (rateLimitManager w)) w)))
      as [Hm Hc].
    cbn [clock worldSleep setRateLimitManager] in Hc.
    change (Z.max 0 (Qceiling THROTTLE_CHECK_INTERVAL_MS)) with 1000 in Hc.
    apply IH.
    + lia.
    + rewrite Hm. exact Hadm.
    + rewrite Hm. cbn [rateLimitManager worldSleep setRateLimitManager
                         prunedAt requestTimestamps].
      rewrite Forall_forall in *. intros ts Hin.
      apply filter_In in Hin. destruct Hin as [Hin _].
      specialize (Hreq ts Hin). lia.
    + rewrite Hm. cbn [rateLimitManager worldSleep setRateLimitManager
                         prunedAt tokenTimestamps].
      rewrite Forall_forall in *. intros t Hin.
      apply filter_In in Hin. destruct Hin as [Hin _].
      specialize (Htok t Hin). lia.
Qed.

Lemma waitForRateLimitAmong_more_fuel
    (others : AwaitPoint -> World -> World) (est : Z) (k : nat) :
  forall fuel w r,
    (k <= fuel)%nat ->
    waitForRateLimitAmong others k est w = Some r ->
    waitForRateLimitAmong others fuel est w = Some r.
Proof.
  induction k as [|k IH]; intros fuel w r Hle H; [discriminate |].
  destruct fuel as [|fuel]; [lia |].
  cbn [waitForRateLimitAmong] in *. unfold bind at 1 in H. unfold bind at 1.
  destruct (canMakeRequestShared est w) as [[[|] w1] |]; try exact H.
  unfold bind, doSleep in *. apply IH; [lia | exact H].
Qed.

(** X5. While no other call touches the rate-limit manager: in a world
    where no recorded entry lies in the future and an empty window admits
    the request, the wait for admission ends after at most 61 checks,
    that is at most 60 polls of 1000 ms, whatever else runs during the
    polls, and when it ends the request is within both limits.  (When
    other calls record on the same manager meanwhile, the window fills
    again and the wait can take longer.) *)
Theorem waitForRateLimit_ends_within_a_minute
    (others : AwaitPoint -> World -> World) (fuel : nat) (est : Z)
    (w : World) :
  keepsWindow others ->
  (61 <= fuel)%nat -> settled est w ->
  exists w',
    waitForRateLimitAmong others 61 est w = Some (tt, w')
    /\ waitForRateLimitAmong others fuel est w = Some (tt, w')
    /\ clock w <= clock w'
    /\ isRequestRateLimitExceeded (rateLimitManager w') = false
    /\ isTokenRateLimitExceeded (rateLimitManager w') est = false.
Proof.
  intros Hk Hfuel [[Hreq Htok] Hadm].
  destruct (waitForRateLimitAmong_ends others est 60 Hk 61%nat w)
    as (w' & E).
  - lia.
  - exact Hadm.
  - eapply Forall_impl; [| exact Hreq]. unfold RATE_LIMIT_WINDOW_MS.
    cbn beta. intros; lia.
  - eapply Forall_impl; [| exact Htok]. unfold RATE_LIMIT_WINDOW_MS.
    cbn beta. intros; lia.
  - exists w'. split; [exact E |].
    split; [exact (waitForRateLimitAmong_more_fuel others est 61 fuel w _
                     Hfuel E) |].
    destruct (waitForRateLimitAmong_inv others est 61 Hk w w' E)
      as (H1 & H2 & _ & _ & H5).
    repeat split; assumption.
Qed.

Lemma waitForRateLimit_ends_within_a_minute_witness :
  exists w',
    waitForRateLimitAmong unrelatedWork 61 1003
      (setRateLimitManager
         (mkRateLimitManager (Some 2) None [999000; 999500] [])
         ScenarioA.world)
    = Some (tt, w')
    /\ waitForRateLimitAmong unrelatedWork 100 1003
         (setRateLimitManager
            (mkRateLimitManager (Some 2) None [999000; 999500] [])
            ScenarioA.world)
       = Some (tt, w')
    /\ clock (setRateLimitManager
                (mkRateLimitManager (Some 2) None [999000; 999500] [])
                ScenarioA.world)
       <= clock w'
    /\ isRequestRateLimitExceeded (rateLimitManager w') = false
    /\ isTokenRateLimitExceeded (rateLimitManager w') 1003 = false.
Proof.
  apply (waitForRateLimit_ends_within_a_minute unrelatedWork 100 1003
           (setRateLimitManager
              (mkRateLimitManager (Some 2) None [999000; 999500] [])
              ScenarioA.world)).
  - intros p w. split; [reflexivity |]. cbn [unrelatedWork worldSleep clock].
    lia.
  - lia.
  - split; [split | split]; cbn.
    + repeat constructor; lia.
    + constructor.
    + lia.
    + exact I.
Defined.

Lemma throttleAmong_keeps_window (others : AwaitPoint -> World -> World)
    (w w1 : World) :
  keepsWindow others ->
  onThrottleManager (throttle worldNow worldRandom (sleepAmong others ThrottleTimer))
    w = Some (tt, w1) ->
  rateLimitManager w1 = rateLimitManager w.
Proof.
  intros Hk. unfold onThrottleManager, throttle.
  destruct (negb (truthy (requestDelay (throttleManager w)))).
  - unfold ret. intros H; inversion H; reflexivity.
  - unfold bind, getNow.
    destruct (Qltb _ _).
    + unfold throttleCalculateDelay.
      destruct (negb (useJitter (throttleManager w))).
      * unfold ret, doSleep, sleepAmong. intros H; inversion H; subst w1.
        cbn [rateLimitManager setThrottleManager].
        now rewrite (proj1 (Hk ThrottleTimer _)).
      * unfold bind, mathRandom, ret, doSleep, sleepAmong.
        cbn [worldRandom]. intros H; inversion H; subst w1.
        cbn [rateLimitManager setThrottleManager].
        now rewrite (proj1 (Hk ThrottleTimer _)).
    + unfold ret. intros H; inversion H; reflexivity.
Qed.



(** X27. The admitting check and [recordRequest] are separated by an
    [await]: with a limit of [limit] requests per minute and
    [limit - 1] requests in the window, a call is admitted at its first
    check, and when another call records its own request while this one
    is suspended between the check and the record, [fn] starts with
    [limit + 1] requests in the window, one more than the limit. *)
Theorem overlapping_calls_overshoot_the_limit {T} (fuel : nat)
    (fn : Async World T) (est est' : Z) (w : World) (limit : Z) :
  requestDelay (throttleManager w) = None ->
  requestsPerMinute (rateLimitManager w) = Some limit ->
  tokensPerMinute (rateLimitManager w) = None ->
  Forall (inWindow (clock w)) (requestTimestamps (rateLimitManager w)) ->
  Z.of_nat (length (requestTimestamps (rateLimitManager w))) = limit - 1 ->
  exists admitted,
    executeWithRateLimitingAmong (otherCallRecords est') (S fuel) fn est w
    = fn admitted
    /\ Z.of_nat (length (requestTimestamps (rateLimitManager admitted)))
       = limit + 1.
Proof.
  intros Hd Hl Ht Hin Hlen.
  unfold executeWithRateLimitingAmong. unfold bind at 1.
  unfold onThrottleManager, throttle. rewrite Hd. cbn [truthy negb].
  unfold ret at 1. unfold bind at 1. unfold resume at 1.
  cbn [otherCallRecords]. unfold bind at 1.
  cbn [waitForRateLimitAmong]. unfold bind at 1.
  unfold canMakeRequestShared. rewrite canMakeRequest_eq. cbn [fst snd].
  cbn [rateLimitManager setThrottleManager].
  unfold worldNow. cbn [clock setThrottleManager].
  assert (Hreqs : filter (fun ts => ts >? clock w - RATE_LIMIT_WINDOW_MS)
                    (requestTimestamps (rateLimitManager w))
                  = requestTimestamps (rateLimitManager w)).
  { apply filter_keeps_all. intros ts Hts.
    rewrite Forall_forall in Hin. specialize (Hin ts Hts).
    unfold inWindow in Hin. rewrite Z.gtb_ltb. apply Z.ltb_lt. lia. }
  assert (Hok : negb (isRequestRateLimitExceeded
                        (prunedAt (clock w) (rateLimitManager w)))
                && negb (isTokenRateLimitExceeded
                           (prunedAt (clock w) (rateLimitManager w)) est)
                = true).
  { unfold isRequestRateLimitExceeded, isTokenRateLimitExceeded.
    cbn [prunedAt requestsPerMinute tokensPerMinute requestTimestamps].
    rewrite Hl, Ht, Hreqs. rewrite Z.geb_leb.
    replace (limit <=? _) with false by (symmetry; apply Z.leb_gt; lia).
    reflexivity. }
  rewrite Hok. unfold ret at 1. unfold bind at 1. unfold resume at 1.
  unfold bind at 1. unfold onRateLimitManager at 1.
  rewrite recordRequest_eq.
  eexists. split; [reflexivity |].
  cbn [rateLimitManager setRateLimitManager otherCallRecords recordedAt
         requestTimestamps setThrottleManager prunedAt].
  rewrite Hreqs, !length_app. cbn [length]. lia.
Qed.

Lemma overlapping_calls_overshoot_the_limit_witness :
  exists admitted,
    executeWithRateLimitingAmong (otherCallRecords 1003) 1 (ret tt) 1003
      (setRateLimitManager
         (mkRateLimitManager (Some 2) None [999500] []) ScenarioA.world)
    = ret tt admitted
    /\ Z.of_nat (length (requestTimestamps (rateLimitManager admitted)))
       = 2 + 1.
Proof.
  apply (overlapping_calls_overshoot_the_limit 0 (ret tt) 1003 1003
           (setRateLimitManager
              (mkRateLimitManager (Some 2) None [999500] []) ScenarioA.world)
           2).
  - reflexivity.
  - reflexivity.
  - reflexivity.
  - repeat constructor.
  - reflexivity.
Defined.


Lemma StronglySorted_snoc (l : list Z) (x : Z) :
  StronglySorted Z.le l -> Forall (fun ts => ts <= x) l ->
  StronglySorted Z.le (l ++ [x]).
Proof.
  induction 1 as [|a l Hs IH Ha]; intros Hx; cbn.
  - repeat constructor.
  - inversion Hx; subst. constructor; [apply IH; assumption |].
    apply Forall_app. split; [exact Ha |]. constructor; [assumption | constructor].
Qed.

Lemma StronglySorted_filter (f : Z -> bool) (l : list Z) :
  StronglySorted Z.le l -> StronglySorted Z.le (filter f l).
Proof.
  induction 1 as [|a l Hs IH Ha]; cbn; [constructor |].
  destruct (f a); [| exact IH].
  constructor; [exact IH |].
  rewrite Forall_forall in *. intros x Hx. apply filter_In in Hx.
  apply Ha, Hx.
Qed.

(** X7. The request timestamps stay in the order of the clock: if they
    are in non-decreasing order and none is later than the current clock
    reading, the same holds after [recordRequest] and after
    [canMakeRequest]; in particular the first entry of the sequence is the
    earliest one. *)
Theorem requestTimestamps_stay_in_clock_order {W} (dateNow : W -> Z)
    (tokensUsed : option Z) (est : Z) (m : RateLimitManager) (w : W) :
  StronglySorted Z.le (requestTimestamps m) ->
  Forall (fun ts => ts <= dateNow w) (requestTimestamps m) ->
  (exists m1,
      recordRequest dateNow tokensUsed m w = Some (m1, w)
      /\ StronglySorted Z.le (requestTimestamps m1)
      /\ Forall (fun ts => ts <= dateNow w) (requestTimestamps m1))
  /\ (exists answer m2,
         canMakeRequest dateNow est m w = Some ((answer, m2), w)
         /\ StronglySorted Z.le (requestTimestamps m2)
         /\ Forall (fun ts => ts <= dateNow w) (requestTimestamps m2)
         /\ forall first rest,
              requestTimestamps m2 = first :: rest ->
              Forall (fun ts => first <= ts) rest).
Proof.
  intros Hs Hp. split.
  - rewrite recordRequest_eq. eexists. split; [reflexivity |].
    cbn [recordedAt requestTimestamps]. split.
    + apply StronglySorted_snoc; assumption.
    + apply Forall_app. split; [exact Hp |].
      constructor; [lia | constructor].
  - rewrite canMakeRequest_eq. do 2 eexists. split; [reflexivity |].
    cbn [prunedAt requestTimestamps].
    assert (Hs' : StronglySorted Z.le
                    (filter (fun ts => ts >? dateNow w - RATE_LIMIT_WINDOW_MS)
                       (requestTimestamps m)))
      by (apply StronglySorted_filter; exact Hs).
    split; [exact Hs' |]. split.
    + rewrite Forall_forall in *. intros ts H. apply filter_In in H.
      apply Hp, H.
    + intros first rest E. rewrite E in Hs'. now inversion Hs'.
Qed.

Lemma requestTimestamps_stay_in_clock_order_witness :
  (exists m1,
      recordRequest (fun now : Z => now) (Some 40)
        (mkRateLimitManager (Some 3) None [100; 100; 250] []) 60200
      = Some (m1, 60200)
      /\ StronglySorted Z.le (requestTimestamps m1)
      /\ Forall (fun ts => ts <= 60200) (requestTimestamps m1))
  /\ (exists answer m2,
         canMakeRequest (fun now : Z => now) 0
           (mkRateLimitManager (Some 3) None [100; 100; 250] []) 60200
         = Some ((answer, m2), 60200)
         /\ StronglySorted Z.le (requestTimestamps m2)
         /\ Forall (fun ts => ts <= 60200) (requestTimestamps m2)
         /\ forall first rest,
              requestTimestamps m2 = first :: rest ->
              Forall (fun ts => first <= ts) rest).
Proof.
  apply (requestTimestamps_stay_in_clock_order (fun now : Z => now) (Some 40) 0
           (mkRateLimitManager (Some 3) None [100; 100; 250] []) 60200).
  - cbn. repeat constructor; lia.
  - cbn. repeat constructor; lia.
Defined.

(** ** ThrottleManager *)

Lemma inject_Z_sub (x y : Z) : inject_Z (x - y) = (inject_Z x - inject_Z y)%Q.
Proof. unfold Z.sub. now rewrite inject_Z_plus, inject_Z_opp. Qed.

Lemma worldSleep_advances (ms : Q) (w : World) :
  (inject_Z (clock w) + ms <= inject_Z (clock (worldSleep ms w)))%Q.
Proof.
  cbn [worldSleep clock].
  pose proof (Qle_ceiling ms) as Hc.
  assert (H : (inject_Z (Qceiling ms)
               <= inject_Z (Z.max 0 (Qceiling ms)))%Q)
    by (rewrite <- Zle_Qle; lia).
  rewrite inject_Z_plus. lra.
Qed.

(** X8. With jitter switched off and a delay [d] other than 0, on a
    runtime whose timers do not fire early, [throttle()] returns no
    earlier than [d] after the time recorded by the previous call, and
    records the time of its own return; two successive calls therefore
    return at least [d] apart. *)
Theorem throttle_without_jitter_spaces_calls {W} (dateNow : W -> Z)
    (random : W -> Q * W) (sleep : Q -> W -> W) (t : ThrottleManager)
    (d : Q) (w : W) :
  (forall ms w0,
      (inject_Z (dateNow w0) + ms <= inject_Z (dateNow (sleep ms w0)))%Q) ->
  requestDelay t = Some d ->
  ~ (d == 0)%Q ->
  useJitter t = false ->
  exists t' w',
    throttle dateNow random sleep t w = Some (t', w')
    /\ lastRequestTime t' = dateNow w'
    /\ (inject_Z (lastRequestTime t) + d <= inject_Z (lastRequestTime t'))%Q
    /\ requestDelay t' = requestDelay t
    /\ useJitter t' = useJitter t
    /\ jitterFactor t' = jitterFactor t.
Proof.
  intros Hsleep Hd Hnz Hj.
  unfold throttle. rewrite Hd. cbn [truthy].
  replace (Qeq_bool d 0) with false
    by (symmetry; apply not_true_is_false; intros E;
        apply Qeq_bool_iff in E; contradiction).
  cbn [negb]. unfold bind at 1, getNow at 1.
  unfold bind at 1.
  destruct (Qltb (inject_Z (dateNow w - lastRequestTime t)) d) eqn:E.
  - unfold throttleCalculateDelay. rewrite Hj. cbn [negb].
    unfold bind at 1, ret at 1, doSleep, bind, getNow, ret.
    do 2 eexists. split; [reflexivity |]. cbn.
    repeat split; try assumption.
    specialize (Hsleep (d - inject_Z (dateNow w - lastRequestTime t))%Q w).
    rewrite inject_Z_sub in Hsleep |- *. lra.
  - unfold ret at 1, bind, getNow, ret.
    do 2 eexists. split; [reflexivity |]. cbn.
    repeat split; try assumption.
    unfold Qltb in E. apply negb_false_iff, Qle_bool_iff in E.
    rewrite inject_Z_sub in E. lra.
Qed.

Lemma throttle_without_jitter_spaces_calls_witness :
  exists t' w',
    throttle worldNow worldRandom worldSleep
      (mkThrottleManager (Some 1000%Q) false (3 # 10) 999700) ScenarioA.world
    = Some (t', w')
    /\ lastRequestTime t' = worldNow w'
    /\ (inject_Z 999700 + 1000 <= inject_Z (lastRequestTime t'))%Q
    /\ requestDelay t' = Some 1000%Q
    /\ useJitter t' = false
    /\ jitterFactor t' = (3 # 10).
Proof.
  apply (throttle_without_jitter_spaces_calls worldNow worldRandom worldSleep
           (mkThrottleManager (Some 1000%Q) false (3 # 10) 999700) 1000
           ScenarioA.world).
  - intros ms w0. apply worldSleep_advances.
  - reflexivity.
  - intros H. discriminate H.
  - reflexivity.
Defined.

(** X9. With jitter switched on, a factor [f] in [0,1] and a positive
    delay [d], the jitter can shorten the spacing but not below
    [d * (1 - f)]: on a runtime whose timers do not fire early and whose
    clock is not behind the recorded time, [throttle()] returns no earlier
    than [d * (1 - f)] after the time recorded by the previous call. *)
Theorem throttle_with_jitter_spaces_calls {W} (dateNow : W -> Z)
    (random : W -> Q * W) (sleep : Q -> W -> W) (t : ThrottleManager)
    (d : Q) (w : W) :
  (forall ms w0,
      (inject_Z (dateNow w0) + ms <= inject_Z (dateNow (sleep ms w0)))%Q) ->
  (forall w0, dateNow (snd (random w0)) = dateNow w0) ->
  (0 <= fst (random w))%Q -> (fst (random w) < 1)%Q ->
  requestDelay t = Some d -> (0 < d)%Q ->
  useJitter t = true ->
  (0 <= jitterFactor t)%Q -> (jitterFactor t <= 1)%Q ->
  lastRequestTime t <= dateNow w ->
  exists t' w',
    throttle dateNow random sleep t w = Some (t', w')
    /\ lastRequestTime t' = dateNow w'
    /\ (inject_Z (lastRequestTime t) + d * (1 - jitterFactor t)
        <= inject_Z (lastRequestTime t'))%Q.
Proof.
  intros Hsleep Hrand Hr0 Hr1 Hd Hpos Hj Hf0 Hf1 Hlast.
  unfold throttle. rewrite Hd. cbn [truthy].
  replace (Qeq_bool d 0) with false
    by (symmetry; apply not_true_is_false; intros E;
        apply Qeq_bool_iff in E; lra).
  cbn [negb]. unfold bind at 1, getNow at 1. unfold bind at 1.
  assert (Hel : (0 <= inject_Z (dateNow w - lastRequestTime t))%Q)
    by (change 0%Q with (inject_Z 0); rewrite <- Zle_Qle; lia).
  pose proof (inject_Z_sub (dateNow w) (lastRequestTime t)) as Hsub.
  assert (Hdf : (0 <= d * jitterFactor t)%Q)
    by (apply Qmult_le_0_compat; lra).
  destruct (Qltb (inject_Z (dateNow w - lastRequestTime t)) d) eqn:E.
  - unfold throttleCalculateDelay. rewrite Hj. cbn [negb].
    unfold bind at 1, bind at 1, mathRandom at 1.
    specialize (Hrand w).
    destruct (random w) as [r w1]. cbn [fst snd] in *.
    unfold ret at 1, doSleep, bind, getNow, ret.
    do 2 eexists. split; [reflexivity |]. cbn [lastRequestTime].
    split; [reflexivity |].
    unfold Qltb in E. apply negb_true_iff in E.
    assert (Hrem : (0 <= d - inject_Z (dateNow w - lastRequestTime t))%Q).
    { destruct (Qlt_le_dec (inject_Z (dateNow w - lastRequestTime t)) d)
        as [Hlt | Hge]; [lra |].
      apply Qle_bool_iff in Hge. congruence. }
    set (rem := (d - inject_Z (dateNow w - lastRequestTime t))%Q) in *.
    destruct (jittered_value_bounds rem (jitterFactor t) r
                Hrem Hf0 Hf1 Hr0 Hr1) as (Hlo & _ & _).
    match goal with
    | |- context [sleep ?a w1] => specialize (Hsleep a w1); set (actual := a) in *
    end.
    rewrite Hrand in Hsleep.
    assert (Hprod : (0 <= inject_Z (dateNow w - lastRequestTime t)
                         * jitterFactor t)%Q)
      by (apply Qmult_le_0_compat; assumption).
    assert (Hrem' : (rem * (1 - jitterFactor t)
                     == d * (1 - jitterFactor t)
                        - inject_Z (dateNow w - lastRequestTime t)
                        + inject_Z (dateNow w - lastRequestTime t)
                          * jitterFactor t)%Q)
      by (unfold rem; ring).
    rewrite Hsub in *. lra.
  - unfold ret at 1, bind, getNow, ret.
    do 2 eexists. split; [reflexivity |]. cbn [lastRequestTime].
    split; [reflexivity |].
    unfold Qltb in E. apply negb_false_iff, Qle_bool_iff in E.
    rewrite Hsub in *. lra.
Qed.

Lemma throttle_with_jitter_spaces_calls_witness :
  exists t' w',
    throttle worldNow worldRandom worldSleep
      (mkThrottleManager (Some 1000%Q) true (3 # 10) 999700) ScenarioA.world
    = Some (t', w')
    /\ lastRequestTime t' = worldNow w'
    /\ (inject_Z 999700 + 1000 * (1 - (3 # 10)) <= inject_Z (lastRequestTime t'))%Q.
Proof.
  apply (throttle_with_jitter_spaces_calls worldNow worldRandom worldSleep
           (mkThrottleManager (Some 1000%Q) true (3 # 10) 999700) 1000
           ScenarioA.world).
  - intros ms w0. apply worldSleep_advances.
  - reflexivity.
  - cbn. lra.
  - cbn. lra.
  - reflexivity.
  - lra.
  - reflexivity.
  - cbn. lra.
  - cbn. lra.
  - cbn. lia.
Defined.

(** ** RetryManager: the trace of a run *)

(** X10. With retry disabled, [executeWithRetry] invokes the attempt
    function once, whatever it returns or throws (a retriable error
    included), sets no timer, and returns its value or the error handler
    applied to its error. *)
Theorem executeWithRetry_disabled_makes_one_attempt {W T}
    (random : W -> Q * W) (sleep : Q -> W -> W) (rm : RetryManager)
    (fn : Async W (Thrown + T)) (onError : Thrown -> T)
    (w w1 : W) (r : Thrown + T) :
  enabled rm = false ->
  fn w = Some (r, w1) ->
  executeWithRetry (tracedRandom random) (tracedSleep sleep) rm
    (traced fn) onError (w, [])
  = Some (match r with inr value => value | inl error => onError error end,
          (w1, [Invoked r])).
Proof.
  intros Hdis Efn. unfold executeWithRetry. rewrite Hdis. cbn [negb].
  unfold bind, traced, ret. cbn [fst snd]. rewrite Efn.
  destruct r; reflexivity.
Qed.

Lemma executeWithRetry_disabled_makes_one_attempt_witness :
  executeWithRetry
    (tracedRandom (fun n : nat => (1 # 2, n)))
    (tracedSleep (fun (_ : Q) (n : nat) => n))
    (mkRetryManager false 3 1000 60000)
    (traced (fun n : nat =>
               Some (inl (ErrorObject "503 Service Unavailable" (Num 503) Absent),
                     S n)))
    getErrorCode (0%nat, [])
  = Some (getErrorCode (ErrorObject "503 Service Unavailable" (Num 503) Absent),
          (1%nat,
           [Invoked (inl (ErrorObject "503 Service Unavailable" (Num 503) Absent))])).
Proof.
  apply (executeWithRetry_disabled_makes_one_attempt
           (fun n : nat => (1 # 2, n)) (fun (_ : Q) (n : nat) => n)
           (mkRetryManager false 3 1000 60000)
           (fun n : nat =>
              Some (inl (ErrorObject "503 Service Unavailable" (Num 503) Absent),
                    S n))
           getErrorCode 0%nat 1%nat
           (inl (ErrorObject "503 Service Unavailable" (Num 503) Absent)));
    reflexivity.
Defined.

Lemma retryLoop_trace {W T} (random : W -> Q * W) (sleep : Q -> W -> W)
    (rm : RetryManager) (fn : Async W (Thrown + T)) (onError : Thrown -> T)
    (iterations : nat) :
  forall attempt lastError w tr v w' tr',
    Z.of_nat iterations = Z.max 0 (maxAttempts rm - attempt) ->
    retryLoop (tracedRandom random) (tracedSleep sleep) rm (traced fn) onError
      iterations attempt lastError (w, tr) = Some (v, (w', tr')) ->
    (iterations = 0%nat /\ tr' = tr /\ v = onError lastError)
    \/ (exists failures r,
           tr' = (tr ++ retryTrace failures (Some r))%list
           /\ Forall (fun f => isRetriableError (fst f) = true) failures
           /\ (length failures + 1 <= iterations)%nat
           /\ v = match r with inr value => value | inl error => onError error end
           /\ match r with
              | inl error =>
                  isRetriableError error = false
                  \/ (length failures + 1 = iterations)%nat
              | inr _ => True
              end).
Proof.
  induction iterations as [|n IH]; intros attempt lastError w tr v w' tr' Hinv H.
  { cbn in H. unfold ret in H. inversion H; subst. left. auto. }
  right. cbn [retryLoop] in H.
  replace (attempt <? maxAttempts rm) with true in H
    by (symmetry; apply Z.ltb_lt; lia).
  unfold bind at 1 in H. unfold traced at 1 in H. cbn [fst snd] in H.
  destruct (fn w) as [[r w1] |]; [| discriminate].
  destruct r as [e | x].
  2:{ unfold ret in H. inversion H; subst.
      exists [], (inr v). cbn. repeat split; auto; lia. }
  destruct (isRetriableError e) eqn:Re; cbn [negb] in H.
  2:{ unfold ret in H. inversion H; subst.
      exists [], (inl e). cbn. repeat split; auto; lia. }
  unfold bind at 1 in H.
  destruct (attempt <? maxAttempts rm - 1) eqn:Em.
  - apply Z.ltb_lt in Em.
    unfold retryCalculateDelay, bind, mathRandom, tracedRandom in H.
    cbn [fst snd] in H.
    destruct (random w1) as [s w2]. cbn [fst snd] in H.
    unfold doSleep, tracedSleep, ret in H. cbn [fst snd] in H.
    apply IH in H; [| lia].
    destruct H as [(Hn & _) | (failures & r & Htr & Hall & Hlen & Hv & Hlast)];
      [lia |].
    match type of Htr with
    | _ = ((_ ++ [Slept ?d]) ++ _)%list =>
        exists ((e, d) :: failures), r
    end.
    split; [| split; [| split; [| split]]].
    + rewrite Htr. unfold retryTrace. cbn [flat_map fst snd].
      rewrite <- !app_assoc. reflexivity.
    + constructor; [exact Re | exact Hall].
    + cbn [length]. lia.
    + exact Hv.
    + destruct r; [| exact I]. cbn [length]. destruct Hlast; [now left | right; lia].
  - apply Z.ltb_ge in Em. unfold ret at 1 in H.
    assert (Hn : n = 0%nat) by lia. subst n.
    cbn in H. unfold ret in H. inversion H; subst.
    exists [], (inl e). cbn. repeat split; auto.
Qed.



(** ** DelayUtils.calculateExponentialBackoff *)

(** X12. Without jitter and for a base delay that is not negative,
    [calculateExponentialBackoff] draws no random sample, never returns
    more than [maxDelay], does not decrease when the attempt index grows,
    and returns [maxDelay] as soon as [baseDelay * 2^attempt] has reached
    it. *)
Theorem calculateExponentialBackoff_without_jitter {W} (random : W -> Q * W)
    (base cap jitterFactor : Q) (n n' : Z) (w : W) :
  (0 <= base)%Q -> n <= n' ->
  exists d d',
    calculateExponentialBackoff random n base cap false jitterFactor w
    = Some (d, w)
    /\ calculateExponentialBackoff random n' base cap false jitterFactor w
       = Some (d', w)
    /\ (d <= d')%Q
    /\ (d' <= cap)%Q
    /\ ((cap <= base * Qpower 2 n)%Q -> (d == cap)%Q /\ (d' == cap)%Q).
Proof.
  intros Hb Hn.
  exists (Qmin (base * Qpower 2 n) cap), (Qmin (base * Qpower 2 n') cap).
  split; [reflexivity |]. split; [reflexivity |].
  assert (Hp : (Qpower 2 n <= Qpower 2 n')%Q)
    by (apply Qpower_le_compat_l; [exact Hn | lra]).
  assert (Hm : (base * Qpower 2 n <= base * Qpower 2 n')%Q).
  { assert ((0 <= base * (Qpower 2 n' - Qpower 2 n))%Q)
      by (apply Qmult_le_0_compat; lra).
    lra. }
  split; [apply Q.min_le_compat_r; exact Hm |].
  split; [apply Q.le_min_r |].
  intros Hcap. split; apply Q.min_r; lra.
Qed.

Lemma calculateExponentialBackoff_without_jitter_witness :
  exists d d',
    calculateExponentialBackoff (fun k : nat => (1 # 2, S k)) 2 1000 5000 false
      (25 # 100) 0%nat = Some (d, 0%nat)
    /\ calculateExponentialBackoff (fun k : nat => (1 # 2, S k)) 3 1000 5000
         false (25 # 100) 0%nat = Some (d', 0%nat)
    /\ (d <= d')%Q
    /\ (d' <= 5000)%Q
    /\ ((5000 <= 1000 * Qpower 2 2)%Q -> (d == 5000)%Q /\ (d' == 5000)%Q).
Proof.
  apply (calculateExponentialBackoff_without_jitter
           (fun k : nat => (1 # 2, S k)) 1000 5000 (25 # 100) 2 3 0%nat);
    [lra | lia].
Defined.

(** ** ConfigValidator *)

Lemma Qltb_false_iff (a b : Q) : Qltb a b = false <-> (b <= a)%Q.
Proof. unfold Qltb. rewrite negb_false_iff. apply Qle_bool_iff. Qed.

Lemma Qltb_true_iff (a b : Q) : Qltb a b = true <-> (a < b)%Q.
Proof.
  unfold Qltb. rewrite negb_true_iff. split.
  - intros H. apply Qnot_le_lt. intros Hle. apply Qle_bool_iff in Hle. congruence.
  - intros H. apply not_true_is_false. intros Hle. apply Qle_bool_iff in Hle.
    apply Qlt_not_le in H. contradiction.
Qed.

Lemma Qltb_inject_Z (a b : Z) : Qltb (inject_Z a) (inject_Z b) = (a <? b).
Proof.
  destruct (a <? b) eqn:E.
  - apply Qltb_true_iff. apply Z.ltb_lt in E. now rewrite <- Zlt_Qlt.
  - apply Qltb_false_iff. apply Z.ltb_ge in E. now rewrite <- Zle_Qle.
Qed.

(** On whole counts and finite delays the validators on [number] are the
    validators of [ConfigValidator]. *)
Lemma validators_agree_on_finite_numbers :
  (forall rateLimit,
      AnyNumber.validateRateLimits
        (option_map
           (fun p : option Z * option Z =>
              (option_map (fun n => Finite (inject_Z n)) (fst p),
               option_map (fun n => Finite (inject_Z n)) (snd p)))
           rateLimit)
      = AnyNumber.ofOutcome AnyNumber.ofRateLimits
          (ConfigValidator.validateRateLimits rateLimit))
  /\ (forall rd uj jf,
         AnyNumber.validateThrottleSettings (option_map Finite rd) uj
           (option_map Finite jf)
         = AnyNumber.ofOutcome AnyNumber.ofThrottleSettings
             (ConfigValidator.validateThrottleSettings rd uj jf))
  /\ (forall e a b m,
         AnyNumber.validateRetrySettings e
           (option_map (fun n => Finite (inject_Z n)) a)
           (option_map Finite b) (option_map Finite m)
         = AnyNumber.ofOutcome AnyNumber.ofRetrySettings
             (ConfigValidator.validateRetrySettings e a b m)).
Proof.
  split; [| split].
  - unfold AnyNumber.validateRateLimits, ConfigValidator.validateRateLimits,
      AnyNumber.MIN_REQUESTS_PER_MINUTE, AnyNumber.MIN_TOKENS_PER_MINUTE,
      ConfigValidator.MIN_REQUESTS_PER_MINUTE,
      ConfigValidator.MIN_TOKENS_PER_MINUTE.
    change 1%Q with (inject_Z 1).
    intros [[[n |] [k |]] |]; cbn [option_map fst snd numberLt];
      rewrite ?Qltb_inject_Z;
      repeat match goal with
             | |- context [Z.ltb ?x ?y] => destruct (Z.ltb x y)
             end; reflexivity.
  - intros rd uj jf.
    unfold AnyNumber.validateThrottleSettings,
      ConfigValidator.validateThrottleSettings,
      AnyNumber.MIN_REQUEST_DELAY_MS, ConfigValidator.MIN_REQUEST_DELAY_MS,
      AnyNumber.MIN_JITTER_FACTOR, ConfigValidator.MIN_JITTER_FACTOR,
      AnyNumber.MAX_JITTER_FACTOR, ConfigValidator.MAX_JITTER_FACTOR,
      AnyNumber.DEFAULT_JITTER_FACTOR, ConfigValidator.DEFAULT_JITTER_FACTOR,
      AnyNumber.DEFAULT_USE_JITTER, ConfigValidator.DEFAULT_USE_JITTER.
    destruct rd as [d |], jf as [f |];
      cbn [option_map numberLt ConfigValidator.orDefault];
      repeat match goal with
             | |- context [Qltb ?p ?q] => destruct (Qltb p q)
             end; reflexivity.
  - intros e a b m.
    unfold AnyNumber.validateRetrySettings,
      ConfigValidator.validateRetrySettings,
      AnyNumber.DEFAULT_ENABLE_RETRY, ConfigValidator.DEFAULT_ENABLE_RETRY,
      AnyNumber.DEFAULT_MAX_RETRY_ATTEMPTS,
      ConfigValidator.DEFAULT_MAX_RETRY_ATTEMPTS,
      AnyNumber.DEFAULT_BASE_RETRY_DELAY_MS,
      ConfigValidator.DEFAULT_BASE_RETRY_DELAY_MS,
      AnyNumber.DEFAULT_MAX_RETRY_DELAY_MS,
      ConfigValidator.DEFAULT_MAX_RETRY_DELAY_MS,
      AnyNumber.MIN_RETRY_ATTEMPTS, ConfigValidator.MIN_RETRY_ATTEMPTS,
      AnyNumber.MAX_RETRY_ATTEMPTS, ConfigValidator.MAX_RETRY_ATTEMPTS,
      AnyNumber.MIN_BASE_RETRY_DELAY_MS,
      ConfigValidator.MIN_BASE_RETRY_DELAY_MS,
      AnyNumber.MAX_BASE_RETRY_DELAY_MS,
      ConfigValidator.MAX_BASE_RETRY_DELAY_MS.
    change 1%Q with (inject_Z 1). change 10%Q with (inject_Z 10).
    change 3%Q with (inject_Z 3).
    destruct a as [n |], b as [p |], m as [q |];
      cbn [option_map numberLt ConfigValidator.orDefault];
      rewrite ?Qltb_inject_Z, ?Z.gtb_ltb;
      repeat match goal with
             | |- context [Z.ltb ?x ?y] => destruct (Z.ltb x y)
             | |- context [Qltb ?x ?y] => destruct (Qltb x y)
             end; reflexivity.
Qed.

(** X13. On every value of type [number], [validateRetrySettings] accepts
    exactly when, with the defaults (retry on, 3 attempts, 1000 ms,
    60 000 ms) filled in, [maxAttempts] is [NaN] or lies in [1, 10]
    (whole or not), [baseDelay] is [NaN] or lies in [100, 10000], and
    [maxDelay] is not below [baseDelay], which is so whenever one of the
    two is [NaN]; it returns the values as given, [NaN] included, and
    otherwise throws. *)
Theorem validateRetrySettings_accepts_iff (e : option bool)
    (a b m : option number) (v : AnyNumber.RetrySettings) :
  let maxAttempts := ConfigValidator.orDefault a (Finite 3) in
  let baseDelay := ConfigValidator.orDefault b (Finite 1000) in
  let maxDelay := ConfigValidator.orDefault m (Finite 60000) in
  AnyNumber.validateRetrySettings e a b m = inr v
  <-> (v = AnyNumber.mkRetrySettings (ConfigValidator.orDefault e true)
             maxAttempts baseDelay maxDelay
       /\ match maxAttempts with
          | Finite n => (1 <= n)%Q /\ (n <= 10)%Q
          | NaN => True
          | PosInfinity | NegInfinity => False
          end
       /\ match baseDelay with
          | Finite d => (100 <= d)%Q /\ (d <= 10000)%Q
          | NaN => True
          | PosInfinity | NegInfinity => False
          end
       /\ match maxDelay, baseDelay with
          | Finite x, Finite d => (d <= x)%Q
          | NaN, _ | _, NaN => True
          | PosInfinity, _ => True
          | _, NegInfinity => True
          | _, _ => False
          end).
Proof.
  intros maxAttempts baseDelay maxDelay.
  unfold AnyNumber.validateRetrySettings.
  fold maxAttempts baseDelay maxDelay.
  unfold AnyNumber.DEFAULT_ENABLE_RETRY, AnyNumber.MIN_RETRY_ATTEMPTS,
    AnyNumber.MAX_RETRY_ATTEMPTS, AnyNumber.MIN_BASE_RETRY_DELAY_MS,
    AnyNumber.MAX_BASE_RETRY_DELAY_MS.
  change (ConfigValidator.orDefault a AnyNumber.DEFAULT_MAX_RETRY_ATTEMPTS)
    with maxAttempts.
  change (ConfigValidator.orDefault b AnyNumber.DEFAULT_BASE_RETRY_DELAY_MS)
    with baseDelay.
  change (ConfigValidator.orDefault m AnyNumber.DEFAULT_MAX_RETRY_DELAY_MS)
    with maxDelay.
  clearbody maxAttempts baseDelay maxDelay.
  destruct maxAttempts as [n | | |], baseDelay as [d | | |],
      maxDelay as [x | | |]; cbn [numberLt orb];
    repeat match goal with
           | |- context [Qltb ?p ?q] =>
               let E := fresh "E" in
               destruct (Qltb p q) eqn:E;
               [apply Qltb_true_iff in E | apply Qltb_false_iff in E];
               cbn [orb]
           end;
    (split;
     [ intros H; try discriminate H; inversion H; subst;
       repeat split; auto
     | intros (Hv & Ha & Hb & Hm); subst;
       try reflexivity; try contradiction; exfalso;
       repeat match goal with
              | H : _ /\ _ |- _ => destruct H
              end;
       lra ]).
Qed.

(** X14. On every value of type [number], [validateThrottleSettings]
    accepts exactly when [requestDelay], if given, is not below 0 ([NaN]
    and [Infinity] pass) and the jitter factor, 0.3 by default, is [NaN]
    or lies in [0, 1]; it returns the delay and the factor as given, and
    [useJitter] with default [true]. *)
Theorem validateThrottleSettings_accepts_iff (rd : option number)
    (uj : option bool) (jf : option number) (v : AnyNumber.ThrottleSettings) :
  let jitterFactor := ConfigValidator.orDefault jf (Finite (3 # 10)) in
  AnyNumber.validateThrottleSettings rd uj jf = inr v
  <-> (v = AnyNumber.mkThrottleSettings rd
             (ConfigValidator.orDefault uj true) jitterFactor
       /\ match rd with
          | Some (Finite d) => (0 <= d)%Q
          | Some NegInfinity => False
          | Some NaN | Some PosInfinity | None => True
          end
       /\ match jitterFactor with
          | Finite f => (0 <= f)%Q /\ (f <= 1)%Q
          | NaN => True
          | PosInfinity | NegInfinity => False
          end).
Proof.
  intros jitterFactor.
  unfold AnyNumber.validateThrottleSettings.
  unfold AnyNumber.DEFAULT_USE_JITTER, AnyNumber.MIN_REQUEST_DELAY_MS,
    AnyNumber.MIN_JITTER_FACTOR, AnyNumber.MAX_JITTER_FACTOR.
  change (ConfigValidator.orDefault jf AnyNumber.DEFAULT_JITTER_FACTOR)
    with jitterFactor.
  clearbody jitterFactor.
  destruct rd as [[d | | |] |], jitterFactor as [f | | |];
    cbn [numberLt orb];
    repeat match goal with
           | |- context [Qltb ?p ?q] =>
               let E := fresh "E" in
               destruct (Qltb p q) eqn:E;
               [apply Qltb_true_iff in E | apply Qltb_false_iff in E];
               cbn [orb]
           end;
    (split;
     [ intros H; try discriminate H; inversion H; subst;
       repeat split; auto
     | intros (Hv & Hd & Hf); subst;
       try reflexivity; try contradiction; exfalso;
       repeat match goal with
              | H : _ /\ _ |- _ => destruct H
              end;
       lra ]).
Qed.

(** X15. On every value of type [number], [validateRateLimits] accepts
    exactly when each limit that is given is not below 1 ([NaN] and
    [Infinity] pass, and so does a limit that is not whole); it returns
    the limits as given, and no limits at all when the [rateLimit]
    object is missing. *)
Theorem validateRateLimits_accepts_iff
    (rateLimit : option (option number * option number))
    (v : AnyNumber.RateLimits) :
  AnyNumber.validateRateLimits rateLimit = inr v
  <-> (v = AnyNumber.mkRateLimits
             (match rateLimit with Some (rpm, _) => rpm | None => None end)
             (match rateLimit with Some (_, tpm) => tpm | None => None end)
       /\ match AnyNumber.requestsPerMinute v with
          | Some (Finite n) => (1 <= n)%Q
          | Some NegInfinity => False
          | Some NaN | Some PosInfinity | None => True
          end
       /\ match AnyNumber.tokensPerMinute v with
          | Some (Finite n) => (1 <= n)%Q
          | Some NegInfinity => False
          | Some NaN | Some PosInfinity | None => True
          end).
Proof.
  unfold AnyNumber.validateRateLimits, AnyNumber.MIN_REQUESTS_PER_MINUTE,
    AnyNumber.MIN_TOKENS_PER_MINUTE.
  destruct rateLimit as [[[[n | | |] |] [[k | | |] |]] |];
    cbn [numberLt];
    repeat match goal with
           | |- context [Qltb ?p ?q] =>
               let E := fresh "E" in
               destruct (Qltb p q) eqn:E;
               [apply Qltb_true_iff in E | apply Qltb_false_iff in E]
           end;
    (split;
     [ intros H; try discriminate H; inversion H; subst;
       cbn; repeat split; auto
     | intros (Hv & Hr & Ht); subst; cbn in Hr, Ht;
       try reflexivity; try contradiction;
       exfalso; lra ]).
Qed.

(** X16. A window built from validated rate limits that has not recorded
    anything yet lets the wait for admission end: for every estimate that
    does not exceed the validated token limit, the world satisfies the
    condition under which [prompt] settles, and [prompt] does settle. *)
Theorem validated_limits_let_prompt_settle
    (rateLimit : option (option Z * option Z)) (v : ValidatedRateLimits.t)
    (this : OpenAIClientService.t) (fuel : nat) (input : PromptInput.t)
    (w : World) :
  ConfigValidator.validateRateLimits rateLimit = inr v ->
  rateLimitManager w = rateLimitManagerOf v ->
  match ValidatedRateLimits.tokensPerMinute v with
  | Some limit => estimateTokens this input <= limit
  | None => True
  end ->
  (61 <= fuel)%nat ->
  settled (estimateTokens this input) w
  /\ exists resp w', prompt this fuel input w = Some (resp, w').
Proof.
  intros Hv Hm Htok Hfuel.
  assert (Hrpm : match ValidatedRateLimits.requestsPerMinute v with
                 | Some n => 1 <= n
                 | None => True
                 end).
  { unfold ConfigValidator.validateRateLimits in Hv.
    destruct rateLimit as [[rpm tpm] |]; [| inversion Hv; exact I].
    destruct rpm as [n |].
    - destruct (n <? ConfigValidator.MIN_REQUESTS_PER_MINUTE) eqn:E1;
        [discriminate |].
      apply Z.ltb_ge in E1. unfold ConfigValidator.MIN_REQUESTS_PER_MINUTE in E1.
      destruct tpm as [k |];
        [destruct (k <? ConfigValidator.MIN_TOKENS_PER_MINUTE); [discriminate |] |];
        inversion Hv; exact E1.
    - destruct tpm as [k |];
        [destruct (k <? ConfigValidator.MIN_TOKENS_PER_MINUTE); [discriminate |] |];
        inversion Hv; exact I. }
  assert (Hset : settled (estimateTokens this input) w).
  { unfold settled, stampsInPast, inPast, emptyWindowAdmits. rewrite Hm.
    unfold rateLimitManagerOf, newRateLimitManager.
    cbn [requestTimestamps tokenTimestamps requestsPerMinute tokensPerMinute].
    repeat split; try constructor.
    - exact Hrpm.
    - destruct (ValidatedRateLimits.tokensPerMinute v); [left; exact Htok | exact I]. }
  split; [exact Hset |].
  destruct (pipeline_total (OpenAIClientService.retryManager this) fuel
              (estimateTokens this input) input (promptCall input)
              (fun w n => promptFailure input (snd (completions w n)))
              (fun w => promptCall_spec input (estimateTokens this input) w)
              w Hfuel Hset) as (resp & w' & E & _).
  exists resp, w'. exact E.
Qed.

Lemma validated_limits_let_prompt_settle_witness :
  settled (estimateTokens ScenarioA.service ScenarioA.input) Unauthorized.world
  /\ exists resp w',
       prompt ScenarioA.service 61 ScenarioA.input Unauthorized.world
       = Some (resp, w').
Proof.
  apply (validated_limits_let_prompt_settle
           (Some (Some 60, Some 90000))
           (ValidatedRateLimits.mk (Some 60) (Some 90000))
           ScenarioA.service 61 ScenarioA.input Unauthorized.world).
  - reflexivity.
  - reflexivity.
  - vm_compute. discriminate.
  - lia.
Defined.

(** ** OutputParser and the status of an error response *)

Lemma includes_true (s m pre post : string) :
  s = pre ++ m ++ post -> includes s m = true.
Proof. intros H. apply includes_spec. now exists pre, post. Qed.

(** X17. [parseAndValidateOutput] throws nothing but the schema-mismatch
    [Error] (an [Error] without status whose message starts with "OpenAI
    response does not match expected schema: "), and whatever the issues
    say, [buildErrorResponse] turns that error into a response with
    status [validation_error] that carries the message. *)
Theorem schema_mismatch_is_reported_as_validation_error (rawContent : string)
    (outputSchema : option Schema) (e : Thrown) (input : PromptInput.t) :
  parseAndValidateOutput rawContent outputSchema = inl e ->
  (exists issues,
      e = ErrorObject
            ("OpenAI response does not match expected schema: " ++ issues)
            Absent Absent)
  /\ getErrorCode e = None
  /\ PromptResponse.status (buildErrorResponse e input) = VALIDATION_ERROR
  /\ PromptResponse.error (buildErrorResponse e input)
     = Some (getErrorMessage e).
Proof.
  unfold parseAndValidateOutput.
  destruct outputSchema as [schema |]; [| discriminate].
  destruct (isEmpty rawContent); [discriminate |].
  destruct (schema rawContent) as [value | issues |]; try discriminate.
  intros H. inversion H; subst e; clear H.
  split; [now exists issues |]. split; [reflexivity |].
  cbn [buildErrorResponse PromptResponse.status PromptResponse.error
         getErrorMessage].
  split; [| reflexivity].
  unfold statusOfMessage, ERROR_KEYWORDS.SCHEMA_MISMATCH.
  rewrite (includes_true _ _ "OpenAI response " (": " ++ issues));
    reflexivity.
Qed.

Lemma schema_mismatch_is_reported_as_validation_error_witness :
  (exists issues,
      ErrorObject
        "OpenAI response does not match expected schema: timeout: Required"
        Absent Absent
      = ErrorObject
          ("OpenAI response does not match expected schema: " ++ issues)
          Absent Absent)
  /\ getErrorCode
       (ErrorObject
          "OpenAI response does not match expected schema: timeout: Required"
          Absent Absent) = None
  /\ PromptResponse.status
       (buildErrorResponse
          (ErrorObject
             "OpenAI response does not match expected schema: timeout: Required"
             Absent Absent) ScenarioA.input) = VALIDATION_ERROR
  /\ PromptResponse.error
       (buildErrorResponse
          (ErrorObject
             "OpenAI response does not match expected schema: timeout: Required"
             Absent Absent) ScenarioA.input)
     = Some (getErrorMessage
               (ErrorObject
                  "OpenAI response does not match expected schema: timeout: Required"
                  Absent Absent)).
Proof.
  apply (schema_mismatch_is_reported_as_validation_error "{}"
           (Some (fun _ => ZodError "timeout: Required"))
           (ErrorObject
              "OpenAI response does not match expected schema: timeout: Required"
              Absent Absent) ScenarioA.input).
  reflexivity.
Defined.

(** X18. The status of an error response follows the first matching row
    of this table, read from the top, on the message of the [Error]:
    schema mismatch; "rate limit" or "429"; "timeout" or "timed out";
    "network", "ECONNREFUSED" or "ENOTFOUND"; "API", "400", "401", "403" or
    "500"; otherwise [unknown_error].  The status code of the error plays
    no part. *)
Theorem buildErrorResponse_status_table (message : string)
    (status statusCode : Field) (input : PromptInput.t) :
  let reported :=
    PromptResponse.status
      (buildErrorResponse (ErrorObject message status statusCode) input) in
  let validation := occursIn "does not match expected schema" message in
  let rateLimit := occursIn "rate limit" message \/ occursIn "429" message in
  let timeout := occursIn "timeout" message \/ occursIn "timed out" message in
  let network :=
    occursIn "network" message \/ occursIn "ECONNREFUSED" message
    \/ occursIn "ENOTFOUND" message in
  let api :=
    occursIn "API" message \/ occursIn "400" message \/ occursIn "401" message
    \/ occursIn "403" message \/ occursIn "500" message in
  (reported = VALIDATION_ERROR <-> validation)
  /\ (reported = RATE_LIMIT_ERROR <-> ~ validation /\ rateLimit)
  /\ (reported = TIMEOUT_ERROR <-> ~ validation /\ ~ rateLimit /\ timeout)
  /\ (reported = NETWORK_ERROR
      <-> ~ validation /\ ~ rateLimit /\ ~ timeout /\ network)
  /\ (reported = API_ERROR
      <-> ~ validation /\ ~ rateLimit /\ ~ timeout /\ ~ network /\ api)
  /\ (reported = UNKNOWN_ERROR
      <-> ~ validation /\ ~ rateLimit /\ ~ timeout /\ ~ network /\ ~ api).
Proof.
  intros reported validation rateLimit timeout network api.
  assert (R1 : includes message ERROR_KEYWORDS.SCHEMA_MISMATCH = true
               <-> validation) by apply includes_spec.
  assert (R2 : includes message ERROR_KEYWORDS.RATE_LIMIT
               || includes message HTTP_STATUS_STRINGS.TOO_MANY_REQUESTS = true
               <-> rateLimit)
    by (rewrite orb_true_iff, !includes_spec; reflexivity).
  assert (R3 : includes message ERROR_KEYWORDS.TIMEOUT
               || includes message ERROR_KEYWORDS.TIMED_OUT = true
               <-> timeout)
    by (rewrite orb_true_iff, !includes_spec; reflexivity).
  assert (R4 : includes message ERROR_KEYWORDS.NETWORK
               || includes message ERROR_KEYWORDS.ECONNREFUSED
               || includes message ERROR_KEYWORDS.ENOTFOUND = true
               <-> network)
    by (rewrite !orb_true_iff, !includes_spec; unfold network; tauto).
  assert (R5 : includes message ERROR_KEYWORDS.API
               || includes message HTTP_STATUS_STRINGS.BAD_REQUEST
               || includes message HTTP_STATUS_STRINGS.UNAUTHORIZED
               || includes message HTTP_STATUS_STRINGS.FORBIDDEN
               || includes message HTTP_STATUS_STRINGS.INTERNAL_SERVER_ERROR
               = true <-> api)
    by (rewrite !orb_true_iff, !includes_spec; unfold api; tauto).
  subst reported. cbn [buildErrorResponse PromptResponse.status].
  unfold statusOfMessage.
  clearbody validation rateLimit timeout network api.
  destruct (includes message ERROR_KEYWORDS.SCHEMA_MISMATCH).
  { assert validation by now apply R1.
    repeat split; intros; try discriminate; tauto. }
  assert (~ validation) by (intros V; apply R1 in V; discriminate).
  destruct (includes message ERROR_KEYWORDS.RATE_LIMIT
            || includes message HTTP_STATUS_STRINGS.TOO_MANY_REQUESTS).
  { assert rateLimit by now apply R2.
    repeat split; intros; try discriminate; tauto. }
  assert (~ rateLimit) by (intros V; apply R2 in V; discriminate).
  destruct (includes message ERROR_KEYWORDS.TIMEOUT
            || includes message ERROR_KEYWORDS.TIMED_OUT).
  { assert timeout by now apply R3.
    repeat split; intros; try discriminate; tauto. }
  assert (~ timeout) by (intros V; apply R3 in V; discriminate).
  destruct (includes message ERROR_KEYWORDS.NETWORK
            || includes message ERROR_KEYWORDS.ECONNREFUSED
            || includes message ERROR_KEYWORDS.ENOTFOUND).
  { assert network by now apply R4.
    repeat split; intros; try discriminate; tauto. }
  assert (~ network) by (intros V; apply R4 in V; discriminate).
  destruct (includes message ERROR_KEYWORDS.API
            || includes message HTTP_STATUS_STRINGS.BAD_REQUEST
            || includes message HTTP_STATUS_STRINGS.UNAUTHORIZED
            || includes message HTTP_STATUS_STRINGS.FORBIDDEN
            || includes message HTTP_STATUS_STRINGS.INTERNAL_SERVER_ERROR).
  { assert api by now apply R5.
    repeat split; intros; try discriminate; tauto. }
  assert (~ api) by (intros V; apply R5 in V; discriminate).
  repeat split; intros; try discriminate; tauto.
Qed.

(** X19. Whenever an error response has status [rate_limit_error] or
    [timeout_error], the retry engine classified its error as retriable:
    these two labels are only ever given to errors that
    [isRetriableError] accepts. *)
Theorem rate_limit_and_timeout_status_imply_retriable (e : Thrown)
    (input : PromptInput.t) :
  PromptResponse.status (buildErrorResponse e input) = RATE_LIMIT_ERROR
  \/ PromptResponse.status (buildErrorResponse e input) = TIMEOUT_ERROR ->
  isRetriableError e = true.
Proof.
  destruct e as [message st sc | str st sc | str];
    cbn [buildErrorResponse PromptResponse.status];
    try (intros [H | H]; discriminate H).
  unfold statusOfMessage, isRetriableError. cbn [getErrorMessage].
  destruct (includes message ERROR_KEYWORDS.SCHEMA_MISMATCH);
    [intros [H | H]; discriminate H |].
  destruct (includes message ERROR_KEYWORDS.RATE_LIMIT
            || includes message HTTP_STATUS_STRINGS.TOO_MANY_REQUESTS) eqn:E1.
  { intros _. rewrite <- orb_assoc, E1, orb_true_r. reflexivity. }
  destruct (includes message ERROR_KEYWORDS.TIMEOUT
            || includes message ERROR_KEYWORDS.TIMED_OUT) eqn:E2.
  { intros _. rewrite <- orb_assoc, E1, orb_false_r.
    now destruct (codeIs _ _). }
  intros [H | H];
    repeat match type of H with
           | context [if ?b then _ else _] => destruct b
           end; discriminate H.
Qed.

Lemma rate_limit_and_timeout_status_imply_retriable_witness :
  isRetriableError (ErrorObject "Request timed out." Absent Absent) = true.
Proof.
  apply (rate_limit_and_timeout_status_imply_retriable
           (ErrorObject "Request timed out." Absent Absent) ScenarioA.input).
  right. vm_compute. reflexivity.
Defined.






(** ** Token accounting of a successful request *)

Lemma tokenSum_recordedAt (now : Z) (tokensUsed : option Z)
    (m : RateLimitManager) :
  tokenSum (tokenTimestamps (recordedAt now tokensUsed m))
  = tokenSum (tokenTimestamps m)
    + Z.max 0 (match tokensUsed with Some n => n | None => 0 end).
Proof.
  cbn [recordedAt tokenTimestamps].
  generalize (match tokensUsed with Some n => n | None => 0 end); intros n.
  destruct (n >? 0) eqn:E; rewrite Z.gtb_ltb in E.
  - apply Z.ltb_lt in E.
    rewrite tokenSum_app, tokenSum_cons. cbn [tokens].
    change (tokenSum []) with 0. lia.
  - apply Z.ltb_ge in E. lia.
Qed.

(** X22. A [prompt] call that succeeds at its first attempt leaves the
    rate-limit manager pruned at the time of admission and extended by
    two records: the estimate at admission, and the total that the API
    reports (nothing for the token window when it reports none) at the
    time of the response.  The token window therefore counts the same
    request twice, once as estimated and once as used. *)
Theorem prompt_success_counts_estimate_and_usage
    (this : OpenAIClientService.t) (fuel : nat) (input : PromptInput.t)
    (w : World) (resp : PromptResponse.t) (w' : World) :
  prompt this fuel input w = Some (resp, w') ->
  PromptResponse.status resp = SUCCESS ->
  requests w' = S (requests w) ->
  exists admitted,
    clock w <= admitted <= clock w'
    /\ rateLimitManager w'
       = recordedAt (clock w')
           (option_map totalTokens (PromptResponse.usage resp))
           (recordedAt admitted (Some (estimateTokens this input))
              (prunedAt admitted (rateLimitManager w)))
    /\ tokenSum (tokenTimestamps (rateLimitManager w'))
       = tokenSum (tokenTimestamps (prunedAt admitted (rateLimitManager w)))
         + Z.max 0 (estimateTokens this input)
         + Z.max 0 (match PromptResponse.usage resp with
                    | Some u => totalTokens u
                    | None => 0
                    end).
Proof.
  intros E Hst Hone.
  apply (pipeline_inv (OpenAIClientService.retryManager this) fuel
           (estimateTokens this input) input (promptCall input)
           (fun w n => promptFailure input (snd (completions w n)))
           (promptFailure_frame input)
           (fun w => promptCall_spec input (estimateTokens this input) w))
    in E.
  destruct E as (_ & _ & _ & Hfirst).
  specialize (Hfirst Hone Hst).
  unfold guarded in Hfirst. unfold bind at 1 in Hfirst.
  destruct (executeWithRateLimiting fuel (promptCall input)
              (estimateTokens this input) w) as [[r0 w0] |] eqn:E0;
    [| discriminate].
  apply executeWithRateLimiting_inv in E0.
  destruct E0 as (wa & (Hc & Hs & Hr & Hck) & Hm & Ecall).
  destruct r0 as [e | resp0].
  { destruct (isRetriableError e); unfold ret in Hfirst;
      inversion Hfirst; subst resp.
    now destruct (buildErrorResponse_facts e input). }
  unfold ret in Hfirst. inversion Hfirst; subst resp0 w0; clear Hfirst.
  unfold promptCall, bind, completionsCreate in Ecall.
  destruct (completions wa (requests wa)) as [latency [e | response]];
    [unfold ret in Ecall; discriminate |].
  unfold onRateLimitManager at 1 in Ecall. rewrite recordRequest_eq in Ecall.
  assert (Hgoal : forall m,
             m = recordedAt (clock wa + Z.of_N latency)
                   (option_map totalTokens (completionUsage response))
                   (recordedAt (clock wa) (Some (estimateTokens this input))
                      (prunedAt (clock wa) (rateLimitManager w))) ->
             tokenSum (tokenTimestamps m)
             = tokenSum (tokenTimestamps
                           (prunedAt (clock wa) (rateLimitManager w)))
               + Z.max 0 (estimateTokens this input)
               + Z.max 0 (match completionUsage response with
                          | Some u => totalTokens u
                          | None => 0
                          end)).
  { intros m ->. rewrite !tokenSum_recordedAt.
    destruct (completionUsage response); reflexivity. }
  destruct (parseAndValidateOutput _ _) as [e | [content structured]];
    unfold ret in Ecall; inversion Ecall; subst resp w'; clear Ecall.
  exists (clock wa).
  cbn [clock rateLimitManager setRateLimitManager buildPromptResponse
       PromptResponse.usage].
  unfold worldNow. cbn [clock rateLimitManager].
  split; [lia |]. rewrite Hm.
  split; [reflexivity |]. apply Hgoal. reflexivity.
Qed.

Lemma prompt_success_counts_estimate_and_usage_witness :
  exists admitted,
    clock ScenarioA.world <= admitted <= clock ScenarioA.afterFirst
    /\ rateLimitManager ScenarioA.afterFirst
       = recordedAt (clock ScenarioA.afterFirst)
           (option_map totalTokens (PromptResponse.usage ScenarioA.firstResponse))
           (recordedAt admitted
              (Some (estimateTokens ScenarioA.service ScenarioA.input))
              (prunedAt admitted (rateLimitManager ScenarioA.world)))
    /\ tokenSum (tokenTimestamps (rateLimitManager ScenarioA.afterFirst))
       = tokenSum (tokenTimestamps
                     (prunedAt admitted (rateLimitManager ScenarioA.world)))
         + Z.max 0 (estimateTokens ScenarioA.service ScenarioA.input)
         + Z.max 0 (match PromptResponse.usage ScenarioA.firstResponse with
                    | Some u => totalTokens u
                    | None => 0
                    end).
Proof.
  apply (prompt_success_counts_estimate_and_usage ScenarioA.service 61
           ScenarioA.input ScenarioA.world ScenarioA.firstResponse
           ScenarioA.afterFirst).
  - vm_compute. reflexivity.
  - vm_compute. reflexivity.
  - vm_compute. reflexivity.
Defined.

(** X23. A [promptStream] call that succeeds at its first attempt records
    its estimate twice, at admission and again when the stream has
    ended: the token window grows by twice the estimate, whatever the
    stream delivered. *)
Theorem promptStream_success_counts_estimate_twice
    (this : OpenAIClientService.t) (fuel : nat) (input : PromptInput.t)
    (w : World) (resp : PromptResponse.t) (w' : World) :
  promptStream this fuel input w = Some (resp, w') ->
  PromptResponse.status resp = SUCCESS ->
  requests w' = S (requests w) ->
  exists admitted,
    clock w <= admitted <= clock w'
    /\ rateLimitManager w'
       = recordedAt (clock w') (Some (estimateTokens this input))
           (recordedAt admitted (Some (estimateTokens this input))
              (prunedAt admitted (rateLimitManager w)))
    /\ tokenSum (tokenTimestamps (rateLimitManager w'))
       = tokenSum (tokenTimestamps (prunedAt admitted (rateLimitManager w)))
         + 2 * Z.max 0 (estimateTokens this input).
Proof.
  intros E Hst Hone.
  apply (pipeline_inv (OpenAIClientService.retryManager this) fuel
           (estimateTokens this input) input (promptStreamCall this input)
           (fun w n => promptStreamFailure input (snd (streams w n)))
           (promptStreamFailure_frame input)
           (fun w => promptStreamCall_spec this input
                       (estimateTokens this input) w))
    in E.
  destruct E as (_ & _ & _ & Hfirst).
  specialize (Hfirst Hone Hst).
  unfold guarded in Hfirst. unfold bind at 1 in Hfirst.
  destruct (executeWithRateLimiting fuel (promptStreamCall this input)
              (estimateTokens this input) w) as [[r0 w0] |] eqn:E0;
    [| discriminate].
  apply executeWithRateLimiting_inv in E0.
  destruct E0 as (wa & (Hc & Hs & Hr & Hck) & Hm & Ecall).
  destruct r0 as [e | resp0].
  { destruct (isRetriableError e); unfold ret in Hfirst;
      inversion Hfirst; subst resp.
    now destruct (buildErrorResponse_facts e input). }
  unfold ret in Hfirst. inversion Hfirst; subst resp0 w0; clear Hfirst.
  unfold promptStreamCall, streamCompletion in Ecall.
  unfold bind at 1 in Ecall. unfold bind at 1 in Ecall.
  unfold completionsCreateStream at 1 in Ecall.
  destruct (streams wa (requests wa)) as [latency script].
  unfold bind at 1 in Ecall.
  match type of Ecall with
  | context [processChunks ?cs ?a ?w1] =>
      destruct (processChunks_eq cs a w1)
        as (w2 & E2 & Hck2 & Hc2 & Hs2 & Hr2 & Hm2)
  end.
  rewrite E2 in Ecall. cbn in Hck2, Hm2.
  destruct (failure script) as [e |]; [unfold ret in Ecall; discriminate |].
  unfold ret at 1 in Ecall. unfold bind at 1 in Ecall.
  unfold onRateLimitManager at 1 in Ecall. rewrite recordRequest_eq in Ecall.
  destruct (parseAndValidateOutput _ _) as [e | [content structured]];
    unfold ret in Ecall; inversion Ecall; subst resp w'; clear Ecall.
  exists (clock wa).
  cbn [clock rateLimitManager setRateLimitManager].
  unfold worldNow. rewrite Hck2, Hm2, Hm.
  split; [lia |]. split; [reflexivity |].
  rewrite !tokenSum_recordedAt. lia.
Qed.

Lemma promptStream_success_counts_estimate_twice_witness :
  exists admitted,
    clock ScenarioA.world <= admitted
    <= clock (match promptStream ScenarioA.service 61 ScenarioA.input
                      ScenarioA.world with
              | Some (_, w') => w'
              | None => ScenarioA.world
              end)
    /\ rateLimitManager
         (match promptStream ScenarioA.service 61 ScenarioA.input
                  ScenarioA.world with
          | Some (_, w') => w'
          | None => ScenarioA.world
          end)
       = recordedAt
           (clock (match promptStream ScenarioA.service 61 ScenarioA.input
                           ScenarioA.world with
                   | Some (_, w') => w'
                   | None => ScenarioA.world
                   end))
           (Some (estimateTokens ScenarioA.service ScenarioA.input))
           (recordedAt admitted
              (Some (estimateTokens ScenarioA.service ScenarioA.input))
              (prunedAt admitted (rateLimitManager ScenarioA.world)))
    /\ tokenSum
         (tokenTimestamps
            (rateLimitManager
               (match promptStream ScenarioA.service 61 ScenarioA.input
                        ScenarioA.world with
                | Some (_, w') => w'
                | None => ScenarioA.world
                end)))
       = tokenSum (tokenTimestamps
                     (prunedAt admitted (rateLimitManager ScenarioA.world)))
         + 2 * Z.max 0 (estimateTokens ScenarioA.service ScenarioA.input).
Proof.
  apply (promptStream_success_counts_estimate_twice ScenarioA.service 61
           ScenarioA.input ScenarioA.world
           (match promptStream ScenarioA.service 61 ScenarioA.input
                    ScenarioA.world with
            | Some (resp, _) => resp
            | None => buildErrorResponse js_undefined ScenarioA.input
            end)).
  - vm_compute. reflexivity.
  - vm_compute. reflexivity.
  - vm_compute. reflexivity.
Defined.

(** ** The fragments of a streamed call *)

Lemma concat_empty_cons (x : string) (l : list string) :
  String.concat EmptyString (x :: l) = x ++ String.concat EmptyString l.
Proof.
  destruct l as [|y l]; cbn [String.concat].
  - induction x as [|c x IH]; cbn; [reflexivity | now rewrite <- IH].
  - reflexivity.
Qed.

Lemma append_assoc (a b c : string) : (a ++ b) ++ c = a ++ (b ++ c).
Proof. induction a as [|x a IH]; cbn; [reflexivity | now rewrite IH]. Qed.

Lemma append_empty_r (a : string) : a ++ EmptyString = a.
Proof. induction a as [|x a IH]; cbn; [reflexivity | now rewrite IH]. Qed.

Lemma fragments_cons (chunk : Chunk) (rest : list Chunk) :
  fragments (chunk :: rest)
  = (match nonEmpty (deltaContent chunk) with
     | Some delta => [delta]
     | None => []
     end ++ fragments rest)%list.
Proof. reflexivity. Qed.

(** The loop of [processStream] hands every non-empty fragment to
    [onChunk], in order, and appends it to the content. *)
Lemma processChunks_chunks (cs : list Chunk) :
  forall acc w,
  exists w',
    processChunks cs acc w = Some (collectChunks cs acc, w')
    /\ chunks w' = (rev (fragments cs) ++ chunks w)%list
    /\ fullContent (collectChunks cs acc)
       = fullContent acc ++ String.concat EmptyString (fragments cs)
    /\ clock w' = clock w
    /\ streams w' = streams w
    /\ requests w' = requests w
    /\ rateLimitManager w' = rateLimitManager w.
Proof.
  induction cs as [|chunk rest IH]; intros acc w.
  - exists w. cbn. unfold ret. rewrite append_empty_r. repeat split.
  - cbn [processChunks collectChunks]. rewrite fragments_cons.
    unfold bind at 1.
    destruct (nonEmpty (deltaContent chunk)) as [delta|].
    + unfold bind at 1, onChunk at 1, ret at 1.
      match goal with
      | |- context [processChunks rest ?a ?w1] =>
          destruct (IH a w1) as (w' & E & Hch & Hfc & Hck & Hs & Hr & Hm)
      end.
      exists w'. split; [exact E |].
      cbn [chunks clock streams requests rateLimitManager] in *.
      split; [| split; [| repeat split; assumption]].
      * rewrite Hch. cbn [app rev]. rewrite <- app_assoc. reflexivity.
      * rewrite Hfc. cbn [app]. rewrite concat_empty_cons.
        destruct (nonEmpty (chunkFinishReason chunk));
          destruct (isEmpty (chunkModel chunk)); cbn [fullContent];
          apply append_assoc.
    + unfold ret at 1.
      match goal with
      | |- context [processChunks rest ?a ?w1] =>
          destruct (IH a w1) as (w' & E & Hch & Hfc & Hck & Hs & Hr & Hm)
      end.
      exists w'. split; [exact E |].
      split; [exact Hch |]. split; [| repeat split; assumption].
      rewrite Hfc. cbn [app].
      destruct (nonEmpty (chunkFinishReason chunk));
        destruct (isEmpty (chunkModel chunk)); reflexivity.
Qed.

(** X24. A streamed upstream call, whether its stream ends or fails, has
    handed to [onChunk] exactly the non-empty fragments that arrived, in
    arrival order; when the stream ends, the content that
    [processStream] returns is their concatenation. *)
Theorem streamCompletion_content_is_what_onChunk_received (w : World) :
  let script := snd (streams w (requests w)) in
  exists r w',
    streamCompletion w = Some (r, w')
    /\ chunks w' = (rev (fragments (delivered script)) ++ chunks w)%list
    /\ match r with
       | inr result =>
           failure script = None
           /\ fullContent result
              = String.concat EmptyString (fragments (delivered script))
       | inl e => failure script = Some e
       end.
Proof.
  unfold streamCompletion. unfold bind at 1.
  unfold completionsCreateStream at 1.
  destruct (streams w (requests w)) as [latency script]. cbn [snd].
  unfold bind at 1.
  match goal with
  | |- context [processChunks ?cs ?a ?w1] =>
      destruct (processChunks_chunks cs a w1) as (w2 & E & Hch & Hfc & _)
  end.
  rewrite E. cbn [chunks] in Hch. cbn [fullContent append] in Hfc.
  destruct (failure script) as [e |]; unfold ret; do 2 eexists;
    (split; [reflexivity |]); (split; [exact Hch |]).
  - reflexivity.
  - split; [reflexivity | exact Hfc].
Qed.

Lemma throttle_silent (w w' : World) :
  onThrottleManager (throttle worldNow worldRandom worldSleep) w
  = Some (tt, w') ->
  silentStep w w'.
Proof.
  destruct (throttle_step w) as (w1 & E & L & _). rewrite E.
  intros H. inversion H; subst w1. split; [exact L |].
  revert E. unfold onThrottleManager, throttle.
  destruct (negb (truthy (requestDelay (throttleManager w)))).
  - unfold ret. intros E; inversion E; reflexivity.
  - unfold bind, getNow.
    destruct (Qltb _ _).
    + unfold throttleCalculateDelay.
      destruct (negb (useJitter (throttleManager w))).
      * unfold ret, doSleep. intros E; inversion E; reflexivity.
      * unfold bind, mathRandom, ret, doSleep. cbn [worldRandom].
        intros E; inversion E; reflexivity.
    + unfold ret. intros E; inversion E; reflexivity.
Qed.

Lemma waitForRateLimit_chunks (fuel : nat) :
  forall est m w m' w',
    waitForRateLimit worldNow worldSleep fuel est m w = Some (m', w') ->
    chunks w' = chunks w.
Proof.
  induction fuel as [|fuel IH]; intros est m w m' w' H; [discriminate |].
  cbn [waitForRateLimit] in H. unfold bind in H.
  rewrite canMakeRequest_eq in H. cbn [fst snd] in H.
  destruct (negb _ && negb _).
  - unfold ret in H. inversion H; subst. reflexivity.
  - unfold doSleep in H. apply IH in H. exact H.
Qed.

Lemma executeWithRateLimiting_silent {T} (fuel : nat) (fn : Async World T)
    (est : Z) (w : World) (r : T) (w' : World) :
  executeWithRateLimiting fuel fn est w = Some (r, w') ->
  exists admitted, silentStep w admitted /\ fn admitted = Some (r, w').
Proof.
  unfold executeWithRateLimiting. unfold bind at 1.
  destruct (onThrottleManager _ w) as [[[] wa] |] eqn:Ea; [| discriminate].
  apply throttle_silent in Ea. destruct Ea as ((Hc & Hs & Hr & Hck) & Hch).
  unfold bind at 1. unfold onRateLimitManager at 1.
  destruct (waitForRateLimit _ _ _ _ _ wa) as [[m' wb] |] eqn:Ew;
    [| discriminate].
  pose proof (waitForRateLimit_chunks _ _ _ _ _ _ Ew) as Hch'.
  apply waitForRateLimit_inv in Ew.
  destruct Ew as (Em & (Hc' & Hs' & Hr' & Hck') & Hm').
  unfold bind at 1. unfold onRateLimitManager at 1.
  rewrite recordRequest_eq. intros Hfn.
  eexists. split; [| exact Hfn].
  unfold silentStep, localStep. cbn.
  repeat split; try congruence. lia.
Qed.

Lemma promptStreamAttempt_chunks (this : OpenAIClientService.t) (fuel : nat)
    (input : PromptInput.t) (w : World) (r : Thrown + PromptResponse.t)
    (w' : World) :
  promptStreamAttempt this fuel input w = Some (r, w') ->
  requests w' = S (requests w)
  /\ streams w' = streams w
  /\ chunks w'
     = (rev (fragments (delivered (snd (streams w (requests w)))))
        ++ chunks w)%list.
Proof.
  unfold promptStreamAttempt. unfold bind at 1.
  destruct (executeWithRateLimiting _ _ _ w) as [[r0 w0] |] eqn:E;
    [| discriminate].
  apply executeWithRateLimiting_silent in E.
  destruct E as (wa & ((Hc & Hs & Hr & Hck) & Hch) & Ecall).
  intros H.
  assert (Hw : w' = w0)
    by (destruct r0 as [e|v]; [destruct (isRetriableError e) |];
        unfold ret in H; congruence).
  subst w0. clear H.
  rewrite <- Hs, <- Hr, <- Hch.
  revert Ecall. generalize wa. clear. intros w.
  unfold promptStreamCall, streamCompletion.
  unfold bind at 1. unfold bind at 1. unfold completionsCreateStream at 1.
  destruct (streams w (requests w)) as [latency script]; cbn [snd].
  unfold bind at 1.
  match goal with
  | |- context [processChunks ?cs ?a ?w1] =>
      destruct (processChunks_chunks cs a w1)
        as (w2 & E & Hch & _ & _ & Hs & Hr & _)
  end.
  rewrite E. cbn [chunks streams requests] in Hch, Hs, Hr.
  destruct (failure script) as [e |].
  - unfold ret. intros H; inversion H; subst. auto.
  - unfold ret at 1. unfold bind at 1. unfold onRateLimitManager at 1.
    rewrite recordRequest_eq.
    destruct (parseAndValidateOutput _ _) as [e | [content structured]];
      unfold ret; intros H; inversion H; subst; cbn; auto.
Qed.

Lemma seq_snoc_flat_map {A} (f : nat -> list A) (start len : nat) :
  flat_map f (seq start (S len))
  = (f start ++ flat_map f (seq (S start) len))%list.
Proof. reflexivity. Qed.

Lemma retryLoop_stream_chunks (this : OpenAIClientService.t) (fuel : nat)
    (input : PromptInput.t) (iterations : nat) :
  forall idx lastError w resp w',
    retryLoop worldRandom worldSleep (OpenAIClientService.retryManager this)
      (promptStreamAttempt this fuel input)
      (fun error => buildErrorResponse error input)
      iterations idx lastError w = Some (resp, w') ->
    (requests w <= requests w')%nat
    /\ chunks w'
       = (rev (flat_map
                 (fun n => fragments (delivered (snd (streams w n))))
                 (seq (requests w) (requests w' - requests w)))
          ++ chunks w)%list.
Proof.
  induction iterations as [|n IH]; intros idx lastError w resp w' H.
  { cbn in H. unfold ret in H. inversion H; subst.
    rewrite Nat.sub_diag. cbn. auto. }
  cbn [retryLoop] in H.
  destruct (idx <? _).
  2:{ unfold ret in H. inversion H; subst.
      rewrite Nat.sub_diag. cbn. auto. }
  unfold bind at 1 in H.
  destruct (promptStreamAttempt this fuel input w) as [[r w1] |] eqn:Ea;
    [| discriminate].
  apply promptStreamAttempt_chunks in Ea. destruct Ea as (Hr & Hs & Hch).
  assert (Hone : forall w'', w'' = w1 ->
             (requests w <= requests w'')%nat
             /\ chunks w''
                = (rev (flat_map
                          (fun n => fragments (delivered (snd (streams w n))))
                          (seq (requests w) (requests w'' - requests w)))
                   ++ chunks w)%list).
  { intros w'' ->. split; [lia |].
    replace (requests w1 - requests w)%nat with 1%nat by lia.
    cbn [seq flat_map]. rewrite app_nil_r. exact Hch. }
  destruct r as [e | v].
  2:{ unfold ret in H. inversion H; subst. now apply Hone. }
  destruct (negb (isRetriableError e)).
  { unfold ret in H. inversion H; subst. now apply Hone. }
  unfold bind at 1 in H.
  assert (Hpause : exists w2,
             (if idx <? maxAttempts (OpenAIClientService.retryManager this) - 1
              then delay <- retryCalculateDelay worldRandom
                              (OpenAIClientService.retryManager this) idx ;;
                   doSleep worldSleep delay
              else ret tt) w1 = Some (tt, w2)
             /\ requests w2 = requests w1
             /\ streams w2 = streams w1
             /\ chunks w2 = chunks w1).
  { destruct (idx <? _ - 1).
    - unfold retryCalculateDelay, bind, mathRandom, doSleep, ret.
      cbn [worldRandom]. eexists. split; [reflexivity |]. cbn. auto.
    - exists w1. unfold ret. auto. }
  destruct Hpause as (w2 & E2 & Hr2 & Hs2 & Hch2).
  rewrite E2 in H. apply IH in H. destruct H as (Hle & Hch').
  split; [lia |].
  rewrite Hch', Hch2, Hch, Hr2, Hr, Hs2, Hs.
  replace (requests w' - requests w)%nat
    with (S (requests w' - S (requests w))) by lia.
  rewrite seq_snoc_flat_map, rev_app_distr, <- app_assoc. reflexivity.
Qed.

(** X25. Over a whole [promptStream] call, [onChunk] receives the
    fragments of every upstream call that the request made, in call
    order: the fragments that a stream delivered before it failed are
    not taken back, and a retry delivers its own fragments after
    them. *)
Theorem promptStream_delivers_fragments_of_every_attempt
    (this : OpenAIClientService.t) (fuel : nat) (input : PromptInput.t)
    (w : World) (resp : PromptResponse.t) (w' : World) :
  promptStream this fuel input w = Some (resp, w') ->
  (requests w <= requests w')%nat
  /\ chunks w'
     = (rev (flat_map
               (fun n => fragments (delivered (snd (streams w n))))
               (seq (requests w) (requests w' - requests w)))
        ++ chunks w)%list.
Proof.
  unfold promptStream, executeWithRetry.
  destruct (negb (enabled _)).
  - unfold bind at 1.
    destruct (promptStreamAttempt this fuel input w) as [[r w1] |] eqn:Ea;
      [| discriminate].
    apply promptStreamAttempt_chunks in Ea. destruct Ea as (Hr & Hs & Hch).
    intros H.
    assert (Hw : w' = w1) by (destruct r; unfold ret in H; congruence).
    subst w1. split; [lia |].
    replace (requests w' - requests w)%nat with 1%nat by lia.
    cbn [seq flat_map]. rewrite app_nil_r. exact Hch.
  - apply retryLoop_stream_chunks.
Qed.

Lemma promptStream_delivers_fragments_of_every_attempt_witness :
  (requests InterruptedStream.world <= requests InterruptedStream.afterCall)%nat
  /\ chunks InterruptedStream.afterCall
     = (rev (flat_map
               (fun n =>
                  fragments (delivered (snd (streams InterruptedStream.world n))))
               (seq (requests InterruptedStream.world)
                  (requests InterruptedStream.afterCall
                   - requests InterruptedStream.world)))
        ++ chunks InterruptedStream.world)%list.
Proof.
  apply (promptStream_delivers_fragments_of_every_attempt ScenarioA.service 61
           ScenarioA.input InterruptedStream.world
           (match promptStream ScenarioA.service 61 ScenarioA.input
                    InterruptedStream.world with
            | Some (resp, _) => resp
            | None => buildErrorResponse js_undefined ScenarioA.input
            end)).
  vm_compute. reflexivity.
Defined.

(** ** The token estimate *)

Lemma codeUnits_nonneg (c : ascii) : 0 <= codeUnits c.
Proof.
  unfold codeUnits.
  destruct (_ && _); [lia |]. destruct (240 <=? _); lia.
Qed.

Lemma strlen_nonneg (s : string) : 0 <= strlen s.
Proof.
  induction s as [|c s IH]; cbn [strlen]; [lia |].
  pose proof (codeUnits_nonneg c). lia.
Qed.

Lemma messages_fold_nonneg (messages : list (option string)) :
  forall a,
    0 <= a ->
    0 <= fold_left
           (fun total message =>
              match message with
              | Some content => total + strlen content
              | None => total
              end) messages a.
Proof.
  induction messages as [|[content |] rest IH]; intros a Ha; cbn [fold_left].
  - exact Ha.
  - apply IH. pose proof (strlen_nonneg content). lia.
  - apply IH. exact Ha.
Qed.

Lemma Qceiling_quarter (n : Z) :
  Qceiling (inject_Z n / inject_Z CHARS_PER_TOKEN) = (n + 3) / 4.
Proof.
  unfold Qceiling, Qfloor, Qdiv, Qinv, Qmult, Qopp, inject_Z, CHARS_PER_TOKEN.
  cbn [Qnum Qden]. change (Z.pos (1 * 4)) with 4.
  rewrite Z.mul_1_r.
  pose proof (Z.div_mod (- n) 4 ltac:(lia)).
  pose proof (Z.mod_pos_bound (- n) 4 ltac:(lia)).
  pose proof (Z.div_mod (n + 3) 4 ltac:(lia)).
  pose proof (Z.mod_pos_bound (n + 3) 4 ltac:(lia)).
  lia.
Qed.

(** [strlen] on plain text, on a character of two bytes ("e" with an acute
    accent), of three bytes (the euro sign) and of four bytes (an emoji,
    a surrogate pair in UTF-16). *)
Example strlen_counts_code_units :
  strlen "Say hello" = 9
  /\ strlen (String (ascii_of_nat 195) (String (ascii_of_nat 169) "t")) = 2
  /\ strlen (String (ascii_of_nat 226)
               (String (ascii_of_nat 130) (String (ascii_of_nat 172) "5")))
     = 2
  /\ strlen (String (ascii_of_nat 240)
               (String (ascii_of_nat 159)
                  (String (ascii_of_nat 152)
                     (String (ascii_of_nat 128) EmptyString))))
     = 2.
Proof. repeat split; vm_compute; reflexivity. Qed.

Lemma estimateTokens_at_least_budget (this : OpenAIClientService.t)
    (input : PromptInput.t) :
  responseBudget this input <= estimateTokens this input.
Proof.
  unfold estimateTokens, responseBudget. rewrite Qceiling_quarter.
  match goal with
  | |- _ <= (fold_left ?f ?l ?a + 3) / 4 + _ =>
      assert (Hchars : 0 <= fold_left f l a)
  end.
  { apply messages_fold_nonneg.
    pose proof (strlen_nonneg (PromptInput.input input)).
    destruct (PromptInput.systemMessage input) as [s |];
      [| destruct (OpenAIClientService.systemMessage this) as [s |]];
      try (destruct (isEmpty s); pose proof (strlen_nonneg s)); lia. }
  match goal with
  | |- _ <= (?n + 3) / 4 + _ =>
      pose proof (Z.div_pos (n + 3) 4 ltac:(lia) ltac:(lia))
  end.
  destruct (PromptInput.maxTokens input);
    [| destruct (OpenAIClientService.maxTokens this)]; lia.
Qed.

(** X26. The estimate of a request is never below its response budget
    ([maxTokens] of the input, else of the client, else 1000), whatever
    its text.  A client whose [tokensPerMinute] is below that budget
    therefore completes no request at all: [prompt] and [promptStream]
    stay in the rate-limit wait for ever, before any upstream call (retry
    disabled, or at least one attempt allowed). *)
Theorem prompt_never_settles_when_limit_below_budget
    (this : OpenAIClientService.t) (fuel : nat) (input : PromptInput.t)
    (w : World) (limit : Z) :
  tokensPerMinute (rateLimitManager w) = Some limit ->
  0 <= limit -> limit < responseBudget this input ->
  Forall (fun t => 0 <= tokens t) (tokenTimestamps (rateLimitManager w)) ->
  enabled (OpenAIClientService.retryManager this) = false
  \/ 1 <= maxAttempts (OpenAIClientService.retryManager this) ->
  responseBudget this input <= estimateTokens this input
  /\ prompt this fuel input w = None
  /\ promptStream this fuel input w = None.
Proof.
  intros Ht H0 Hlt Hpos Hrm.
  pose proof (estimateTokens_at_least_budget this input) as Hb.
  split; [exact Hb |].
  apply (prompt_blocked_above_token_limit this fuel input w limit);
    try assumption. lia.
Qed.

Lemma prompt_never_settles_when_limit_below_budget_witness :
  responseBudget ScenarioA.service ScenarioA.input
  <= estimateTokens ScenarioA.service ScenarioA.input
  /\ prompt ScenarioA.service 1000 ScenarioA.input
       (setRateLimitManager (newRateLimitManager None (Some 500))
          ScenarioA.world)
     = None
  /\ promptStream ScenarioA.service 1000 ScenarioA.input
       (setRateLimitManager (newRateLimitManager None (Some 500))
          ScenarioA.world)
     = None.
Proof.
  apply (prompt_never_settles_when_limit_below_budget ScenarioA.service 1000
           ScenarioA.input
           (setRateLimitManager (newRateLimitManager None (Some 500))
              ScenarioA.world) 500).
  - reflexivity.
  - lia.
  - vm_compute. reflexivity.
  - constructor.
  - right. simpl. lia.
Defined.
